(** * zikuu-notebooks: [scripts/update_readme.py]

    A shallow embedding of the README synchronizer and the proofs of its
    specification.  The script scans the top-level directories of a
    repository for notebooks, renders a Markdown block and splices it between
    two literal markers of the root [README.md].

    Conventions of the embedding:
    - a Python [str] is the list of its code points ([pystr]); comparison,
      whitespace and line boundaries follow CPython's tables for [str];
    - a function that can raise returns a [result]; the functions that touch
      the environment, the subprocess or the file system run in the monad
      [M] over a [world];
    - a file holds bytes: its content is their UTF-8 text with the bytes
      that do not decode escaped as lone surrogates, so that reading can
      fail to decode and writing can fail to encode, as [read_text] and
      [write_text] do;
    - the world is the tree under the root, the variable, the remote and
      the clock: every entry can be listed, read and written, and standard
      output takes every message;
    - the regular expressions are the abstract syntax of the pattern
      strings, run by a backtracking matcher with Python's priorities
      (greedy and lazy repetition, first match wins). *)

From Stdlib Require Import String Ascii List NArith Arith Bool Lia Sorted
  Permutation.
Import ListNotations.

Set Implicit Arguments.
Set Warnings "-register-all".

(** ** Python strings *)

Definition char := N.
Definition pystr := list char.

(** An ASCII literal of the source. *)
Definition str (s : string) : pystr :=
  map N_of_ascii (list_ascii_of_string s).

(** A character literal of the source. *)
Definition ch (a : ascii) : char := N_of_ascii a.

Definition NL : char := 10%N.
Definition CR : char := 13%N.

Definition char_eqb (a b : char) : bool := N.eqb a b.

Fixpoint str_eqb (a b : pystr) : bool :=
  match a, b with
  | [], [] => true
  | x :: a', y :: b' => char_eqb x y && str_eqb a' b'
  | _, _ => false
  end.

(** [str.isspace] on one code point, which is also what [str.strip] removes
    and what [\s] matches in a [str] pattern (CPython's
    [_PyUnicode_IsWhitespace]). *)
Definition isspace (c : char) : bool :=
  ((9 <=? c) && (c <=? 13) || (28 <=? c) && (c <=? 32)
   || (c =? 133) || (c =? 160) || (c =? 5760)
   || (8192 <=? c) && (c <=? 8202)
   || (c =? 8232) || (c =? 8233) || (c =? 8239) || (c =? 8287)
   || (c =? 12288))%N.

(** The line boundaries of [str.splitlines]. *)
Definition islinebreak (c : char) : bool :=
  ((10 <=? c) && (c <=? 13) || (28 <=? c) && (c <=? 30)
   || (c =? 133) || (c =? 8232) || (c =? 8233))%N.

Fixpoint lstrip (s : pystr) : pystr :=
  match s with
  | c :: s' => if isspace c then lstrip s' else s
  | [] => []
  end.

Definition rstrip (s : pystr) : pystr := rev (lstrip (rev s)).

Definition strip (s : pystr) : pystr := rstrip (lstrip s).

(** [s.startswith(p)] *)
Fixpoint startswith (s p : pystr) {struct p} : bool :=
  match p, s with
  | [], _ => true
  | x :: p', y :: s' => char_eqb x y && startswith s' p'
  | _ :: _, [] => false
  end.

(** [s.endswith(p)] *)
Definition endswith (s p : pystr) : bool := startswith (rev s) (rev p).

(** [s.find(sub)]: the least index at which [sub] occurs, if any. *)
Fixpoint find (s sub : pystr) : option nat :=
  if startswith s sub then Some 0
  else match s with
       | [] => None
       | _ :: s' => option_map S (find s' sub)
       end.

(** [sub in s] *)
Definition contains (s sub : pystr) : bool :=
  match find s sub with Some _ => true | None => false end.

(** [sep.join(parts)] *)
Fixpoint join (sep : pystr) (parts : list pystr) : pystr :=
  match parts with
  | [] => []
  | [p] => p
  | p :: ps => p ++ sep ++ join sep ps
  end.

(** [s.splitlines()]: a carriage return followed by a line feed is one
    boundary, and a final boundary opens no empty last line. *)
Fixpoint splitlines (s : pystr) : list pystr :=
  match s with
  | [] => []
  | c :: s' =>
      if islinebreak c then
        [] :: (if char_eqb c CR
               then match s' with
                    | d :: s'' => if char_eqb d NL then splitlines s''
                                  else splitlines s'
                    | [] => []
                    end
               else splitlines s')
      else match splitlines s' with
           | [] => [[c]]
           | l :: ls => (c :: l) :: ls
           end
  end.

(** Reading a file in text mode with the default [newline=None]: both
    ["\r\n"] and a lone ["\r"] arrive as ["\n"]. *)
Fixpoint universal_newlines (s : pystr) : pystr :=
  match s with
  | [] => []
  | c :: s' =>
      if char_eqb c CR then
        NL :: match s' with
              | d :: s'' => if char_eqb d NL then universal_newlines s''
                            else universal_newlines s'
              | [] => []
              end
      else c :: universal_newlines s'
  end.

(** The order of [str]: lexicographic on code points. *)
Fixpoint str_compare (a b : pystr) : comparison :=
  match a, b with
  | [], [] => Eq
  | [], _ :: _ => Lt
  | _ :: _, [] => Gt
  | x :: a', y :: b' =>
      match N.compare x y with
      | Eq => str_compare a' b'
      | c => c
      end
  end.

Definition str_leb (a b : pystr) : bool :=
  match str_compare a b with Gt => false | _ => true end.

Definition str_le (a b : pystr) : Prop := str_leb a b = true.

(** [sorted(l, key=key)]: the sort is stable, so its result is the one of
    any stable sort; here insertion from the right, an element going in
    front of the elements whose key is not smaller. *)
Section Sorted.
Variable A : Type.
Variable key : A -> pystr.

Fixpoint insert_by (x : A) (l : list A) : list A :=
  match l with
  | [] => [x]
  | y :: l' => if str_leb (key x) (key y) then x :: l
               else y :: insert_by x l'
  end.

Definition sorted (l : list A) : list A := fold_right insert_by [] l.
End Sorted.

(** ** Regular expressions

    The abstract syntax of the patterns the script compiles, and a
    backtracking matcher that tries the alternatives in the order of
    Python's [re]: a greedy repetition takes one more iteration first, a
    lazy one tries the rest of the pattern first, and the first complete
    match is the answer. *)

Inductive regex : Type :=
| Eps                              (* the empty pattern *)
| Lit (c : char)                   (* one literal character *)
| Dot                              (* [.]: anything but a line feed *)
| WS                               (* [\s] *)
| NotOf (c : char)                 (* [[^c]] *)
| Bos                              (* [^] *)
| Eos                              (* [$]: the end, or before a final line feed *)
| Cat (r1 r2 : regex)
| Opt (r : regex)                  (* [r?] *)
| Star (greedy : bool) (r : regex) (* [r*] and [r*?] *)
| Group (n : nat) (r : regex).     (* the capturing group number [n] *)

(** [r+] and [r+?] *)
Definition Plus (greedy : bool) (r : regex) : regex :=
  Cat r (Star greedy r).

Fixpoint lits (s : pystr) : regex :=
  match s with
  | [] => Eps
  | c :: s' => Cat (Lit c) (lits s')
  end.

(** The concatenation of the pieces of a pattern, in order. *)
Fixpoint seq (rs : list regex) : regex :=
  match rs with
  | [] => Eps
  | r :: rs' => Cat r (seq rs')
  end.

(** The matcher's position: how many characters are behind it, what is
    left of the subject, and the groups closed so far (latest first). *)
Record mstate : Type := MState {
  m_pos : nat;
  m_rest : pystr;
  m_groups : list (nat * pystr)
}.

Definition advance (st : mstate) (rest' : pystr) : mstate :=
  MState (S (m_pos st)) rest' (m_groups st).

Definition step_char (p : char -> bool) (k : mstate -> option mstate)
    (st : mstate) : option mstate :=
  match m_rest st with
  | c :: rest' => if p c then k (advance st rest') else None
  | [] => None
  end.

Definition or_else {A : Type} (a b : option A) : option A :=
  match a with Some _ => a | None => b end.

(** The iterations of a repetition whose body is matched by [body]: an
    iteration has to consume, so the length of the rest bounds their
    number, and [fuel] starts there. *)
Fixpoint star_loop (body : (mstate -> option mstate) -> mstate -> option mstate)
    (greedy : bool) (k : mstate -> option mstate) (fuel : nat) (st : mstate)
    {struct fuel} : option mstate :=
  match fuel with
  | O => k st
  | S fuel' =>
      let again :=
        body (fun st' =>
                if length (m_rest st') <? length (m_rest st)
                then star_loop body greedy k fuel' st' else None) st in
      if greedy then or_else again (k st) else or_else (k st) again
  end.

(** [rmatch r k st]: the first way, in the order of priority, to match [r]
    from [st] and then the rest of the pattern, which is [k]. *)
Fixpoint rmatch (r : regex) (k : mstate -> option mstate) (st : mstate)
    {struct r} : option mstate :=
  match r with
  | Eps => k st
  | Lit c => step_char (char_eqb c) k st
  | Dot => step_char (fun x => negb (char_eqb x NL)) k st
  | WS => step_char isspace k st
  | NotOf c => step_char (fun x => negb (char_eqb x c)) k st
  | Bos => match m_pos st with O => k st | S _ => None end
  | Eos => match m_rest st with
           | [] => k st
           | [c] => if char_eqb c NL then k st else None
           | _ => None
           end
  | Cat r1 r2 => rmatch r1 (rmatch r2 k) st
  | Opt r1 => or_else (rmatch r1 k st) (k st)
  | Star greedy r1 =>
      star_loop (rmatch r1) greedy k (length (m_rest st)) st
  | Group n r1 =>
      rmatch r1
        (fun st' =>
           let captured :=
             firstn (length (m_rest st) - length (m_rest st')) (m_rest st) in
           k (MState (m_pos st') (m_rest st')
                     ((n, captured) :: m_groups st')))
        st
  end.

(** A match object: the groups of a successful match. *)
Definition match_obj := list (nat * pystr).

(** [re.match(r, s)]: a match anchored at the start of [s]. *)
Definition re_match (r : regex) (s : pystr) : option match_obj :=
  option_map m_groups (rmatch r (fun st => Some st) (MState 0 s [])).

(** [m.group(n)] *)
Fixpoint group (m : match_obj) (n : nat) : pystr :=
  match m with
  | [] => []
  | (i, s) :: m' => if Nat.eqb i n then s else group m' n
  end.

(** ** Results and exceptions *)

Inductive exn : Type :=
| SystemExit_readme_missing      (* [raise SystemExit(...)] in [main] *)
| RuntimeError_markers_missing   (* the first [raise RuntimeError] *)
| RuntimeError_marker_order      (* the second [raise RuntimeError] *)
| ValueError                     (* [str.index] on a missing substring *)
| FileNotFoundError
| IsADirectoryError
| UnicodeDecodeError             (* [read_text] on bytes that are not UTF-8 *)
| UnicodeEncodeError.            (* [write_text] on a text with a surrogate *)

Inductive result (A : Type) : Type :=
| Ok (a : A)
| Raise (e : exn).

Arguments Ok {A} a.
Arguments Raise {A} e.

Definition bind_result {A B : Type} (c : result A) (f : A -> result B)
    : result B :=
  match c with
  | Ok a => f a
  | Raise e => Raise e
  end.

Notation "'let?' x ':=' c 'in' k" := (bind_result c (fun x => k))
  (at level 10, x name, c at level 100, k at level 200).

(** [s.index(sub)] *)
Definition index (s sub : pystr) : result nat :=
  match find s sub with
  | Some i => Ok i
  | None => Raise ValueError
  end.

(** ** The file system, the environment and the effects

    A directory is the list of its entries, in the order the operating
    system hands them out; the names of one directory are distinct and not
    empty.  The content of a file is its text as stored, before the
    translation of line ends that reading applies: its bytes read as
    UTF-8, with every byte that does not decode kept as a lone surrogate
    (the [surrogateescape] handler, by which the names of the files and
    the variables of the environment reach the script too).  The strict
    decoding of [read_text] fails exactly when such a byte is there, and
    the strict encoding of [write_text] fails on a text that holds a
    surrogate. *)

Inductive node : Type :=
| File (content : pystr)
| Dir (entries : list (pystr * node)).

Definition listing := list (pystr * node).

Definition is_file (n : node) : bool :=
  match n with File _ => true | Dir _ => false end.

(** The code points U+D800 to U+DFFF, which UTF-8 does not encode. *)
Definition is_surrogate (c : char) : bool :=
  ((55296 <=? c) && (c <=? 57343))%N.

(** [s.encode("utf-8")] returns; of the content of a file: its bytes are
    UTF-8. *)
Definition is_utf8 (s : pystr) : bool :=
  forallb (fun c => negb (is_surrogate c)) s.

(** [dir / name], resolved: the entry of that name if there is one. *)
Fixpoint lookup (name : pystr) (d : listing) : option node :=
  match d with
  | [] => None
  | (n, x) :: d' => if str_eqb n name then Some x else lookup name d'
  end.

(** The text written over the file called [name]: the entry of that name
    (there is one at most) gets the new content, a directory stays. *)
Definition overwrite (name text : pystr) (e : pystr * node) : pystr * node :=
  match snd e with
  | File _ => if str_eqb (fst e) name then (fst e, File text) else e
  | Dir _ => e
  end.

Definition set_file (name text : pystr) (d : listing) : listing :=
  map (overwrite name text) d.

(** The lines the script prints, by the call that prints them. *)
Inductive message : Type :=
| Msg_no_update      (* [print] before the early [return] of [main] *)
| Msg_updated        (* [print] after the write *)
| Msg_note_colab.    (* the [NOTE:] line, when no repository was found *)

Inductive event : Type :=
| Ev_git_config                          (* [git config --get remote.origin.url] was run *)
| Ev_write (name : pystr) (text : pystr) (* [write_text] on a file of the root *)
| Ev_truncate (name : pystr)             (* [write_text] opened the file, which
                                            emptied it, and failed to encode *)
| Ev_print (m : message).

(** What one run sees and leaves behind:
    - [w_root]: the entries of the repository root;
    - [w_environ]: the value of [ZIKUU_GITHUB_REPO], if it is set;
    - [w_git_remote]: the decoded output of the [git config] query, or
      [None] when [check_output] raises (no tool, no remote, exit status);
    - [w_now]: the clock, as [strftime] formats it;
    - [w_trace]: the effects so far, the latest first. *)
Record world : Type := World {
  w_root : listing;
  w_environ : option pystr;
  w_git_remote : option pystr;
  w_now : pystr;
  w_trace : list event
}.

Definition M (A : Type) : Type := world -> result A * world.

Definition ret {A : Type} (a : A) : M A := fun w => (Ok a, w).

Definition raise {A : Type} (e : exn) : M A := fun w => (Raise e, w).

Definition bind {A B : Type} (c : M A) (f : A -> M B) : M B :=
  fun w =>
    match c w with
    | (Ok a, w') => f a w'
    | (Raise e, w') => (Raise e, w')
    end.

Definition lift {A : Type} (r : result A) : M A := fun w => (r, w).

Definition reads {A : Type} (f : world -> A) : M A := fun w => (Ok (f w), w).

Definition add_event (e : event) (w : world) : world :=
  World (w_root w) (w_environ w) (w_git_remote w) (w_now w) (e :: w_trace w).

Definition put_root (d : listing) (w : world) : world :=
  World d (w_environ w) (w_git_remote w) (w_now w) (w_trace w).

Definition emit (e : event) : M unit := fun w => (Ok tt, add_event e w).

Notation "x <- c ;; k" := (bind c (fun x => k))
  (at level 61, c at next level, right associativity).
Notation "c ;; k" := (bind c (fun _ => k))
  (at level 61, right associativity).

Definition print (m : message) : M unit := emit (Ev_print m).

(** ** The script: constants and data *)

Definition BEGIN_MARKER : pystr := str "<!-- ZIKUU_NOTEBOOKS_LIST:BEGIN -->".
Definition END_MARKER : pystr := str "<!-- ZIKUU_NOTEBOOKS_LIST:END -->".

(** The set literal [EXCLUDE_DIRS]; the script only tests membership. *)
Definition EXCLUDE_DIRS : list pystr :=
  [ str ".git"; str ".github"; str "__pycache__"; str ".venv"; str "venv";
    str "node_modules"; str "scripts"; str ".idea"; str ".vscode" ].

(** [x in s] for a set of strings *)
Definition mem (x : pystr) (s : list pystr) : bool := existsb (str_eqb x) s.

Record NotebookItem : Type := mkNotebookItem {
  module_dir : pystr;
  module_title : pystr;
  notebooks : list pystr
}.

(** The truth value of a [str] and of an [Optional[str]]. *)
Definition nonempty (s : pystr) : bool :=
  match s with [] => false | _ :: _ => true end.

Definition truthy (o : option pystr) : bool :=
  match o with Some s => nonempty s | None => false end.

Definition README_md : pystr := str "README.md".

(** ** The script: functions *)

(** [path.read_text(encoding="utf-8")]: the bytes are decoded, strictly,
    and the line ends translated. *)
Definition _read_text (path : option node) : result pystr :=
  match path with
  | Some (File content) =>
      if is_utf8 content then Ok (universal_newlines content)
      else Raise UnicodeDecodeError
  | Some (Dir _) => Raise IsADirectoryError
  | None => Raise FileNotFoundError
  end.

(** The root once [open(name, "w")] has created or emptied the file and
    [content] is in it. *)
Definition stored (name content : pystr) (d : listing) : listing :=
  match lookup name d with
  | Some _ => set_file name content d
  | None => d ++ [(name, File content)]
  end.

(** [_write_text] on the file [name] of the repository root; [newline="\n"]
    writes the text as it is.  The file is opened, and so emptied, before
    the text is encoded: a text that does not encode leaves it empty. *)
Definition _write_text (name text : pystr) : M unit :=
  fun w =>
    match lookup name (w_root w) with
    | Some (Dir _) => (Raise IsADirectoryError, w)
    | _ =>
        if is_utf8 text
        then (Ok tt, add_event (Ev_write name text)
                       (put_root (stored name text (w_root w)) w))
        else (Raise UnicodeEncodeError,
              add_event (Ev_truncate name)
                (put_root (stored name [] (w_root w)) w))
    end.

(** [r"^\s*#\s+(.+?)\s*$"] *)
Definition H1_RE : regex :=
  seq [ Bos; Star true WS; Lit (ch "#"); Plus true WS;
        Group 1 (Plus false Dot); Star true WS; Eos ].

Fixpoint first_h1_loop (lines : list pystr) : option pystr :=
  match lines with
  | [] => None
  | line :: rest =>
      match re_match H1_RE line with
      | Some m => Some (strip (group m 1))
      | None => first_h1_loop rest
      end
  end.

Definition _first_h1_from_readme (readme_path : option node)
    : result (option pystr) :=
  match readme_path with
  | None => Ok None
  | Some _ =>
      let? text := _read_text readme_path in
      Ok (first_h1_loop (splitlines text))
  end.

Definition IPYNB : pystr := str ".ipynb".

(** [[f.name for f in p.glob("*.ipynb") if f.is_file()]] *)
Definition glob_ipynb_files (entries : listing) : list pystr :=
  map fst
    (filter (fun e : pystr * node =>
               endswith (fst e) IPYNB && is_file (snd e)) entries).

(** [x or y] on strings *)
Definition or_name (o : option pystr) (name : pystr) : pystr :=
  match o with
  | Some t => if nonempty t then t else name
  | None => name
  end.

(** The [for] loop of [_list_modules], over what is left of the sorted
    entries, with the items appended so far. *)
Fixpoint list_modules_loop (ps : listing) (items : list NotebookItem)
    : result (list NotebookItem) :=
  match ps with
  | [] => Ok items
  | (name, p) :: ps' =>
      match p with
      | File _ => list_modules_loop ps' items
      | Dir entries =>
          if mem name EXCLUDE_DIRS then list_modules_loop ps' items
          else if startswith name (str ".") then list_modules_loop ps' items
          else
            let nbs := sorted (fun x => x) (glob_ipynb_files entries) in
            match nbs with
            | [] => list_modules_loop ps' items
            | _ :: _ =>
                let? h1 := _first_h1_from_readme (lookup README_md entries) in
                let title := or_name h1 name in
                list_modules_loop ps'
                  (items ++ [mkNotebookItem name title nbs])
            end
      end
  end.

Definition _list_modules (repo_root : listing) : result (list NotebookItem) :=
  list_modules_loop (sorted fst repo_root) [].

(** [_run_git(["config", "--get", "remote.origin.url"], cwd)]: every
    exception is caught. *)
Definition _run_git : M (option pystr) :=
  emit Ev_git_config ;;
  out <- reads w_git_remote ;;
  ret (option_map strip out).

(** [r"^https?://github\.com/([^/]+)/([^/]+?)(?:\.git)?/?$"] *)
Definition HTTPS_RE : regex :=
  seq [ Bos; lits (str "http"); Opt (Lit (ch "s")); lits (str "://github.com/");
        Group 1 (Plus true (NotOf (ch "/"))); Lit (ch "/");
        Group 2 (Plus false (NotOf (ch "/")));
        Opt (lits (str ".git")); Opt (Lit (ch "/")); Eos ].

(** [r"^git@github\.com:([^/]+)/([^/]+?)(?:\.git)?$"] *)
Definition SSH_RE : regex :=
  seq [ Bos; lits (str "git@github.com:");
        Group 1 (Plus true (NotOf (ch "/"))); Lit (ch "/");
        Group 2 (Plus false (NotOf (ch "/")));
        Opt (lits (str ".git")); Eos ].

Definition _parse_github_repo_from_remote (remote_url : pystr)
    : option pystr :=
  let remote_url := strip remote_url in
  match re_match HTTPS_RE remote_url with
  | Some m => Some (group m 1 ++ str "/" ++ group m 2)
  | None =>
      match re_match SSH_RE remote_url with
      | Some m => Some (group m 1 ++ str "/" ++ group m 2)
      | None => None
      end
  end.

Definition _detect_github_repo : M (option pystr) :=
  env <- reads w_environ ;;
  let env_repo := strip (match env with Some v => v | None => [] end) in
  if nonempty env_repo then ret (Some env_repo)
  else
    remote <- _run_git ;;
    if truthy remote then
      let parsed :=
        _parse_github_repo_from_remote
          (match remote with Some r => r | None => [] end) in
      if truthy parsed then ret parsed else ret None
    else ret None.

Definition _colab_link (github_repo notebook_path branch : pystr) : pystr :=
  str "https://colab.research.google.com/github/" ++ github_repo
  ++ str "/blob/" ++ branch ++ str "/" ++ notebook_path.

(** The literals of [_render_list] outside ASCII, by code point. *)
Definition NO_NOTEBOOKS : pystr :=
  str "- " ++ [65288; 12414; 12384]%N ++ str "Notebook"
  ++ [12364; 12354; 12426; 12414; 12379; 12435; 65289]%N ++ [NL].

Definition UPDATED_LABEL : pystr := [26356; 26032]%N ++ str ": ".

Definition COLAB_NOTE : pystr :=
  [65288]%N ++ str "Colab"
  ++ [12522; 12531; 12463; 29983; 25104; 12395; 12399]%N
  ++ str " ZIKUU_GITHUB_REPO "
  ++ [12398; 35373; 23450; 12364; 24517; 35201; 65289]%N.

Definition notebook_line (github_repo : option pystr) (it : NotebookItem)
    (nb : pystr) : pystr :=
  let rel_path := module_dir it ++ str "/" ++ nb in
  match github_repo with
  | Some repo =>
      if nonempty repo then
        let colab := _colab_link repo rel_path (str "main") in
        str "  - [" ++ nb ++ str "](" ++ colab ++ str ")"
      else str "  - `" ++ nb ++ str "`" ++ COLAB_NOTE
  | None => str "  - `" ++ nb ++ str "`" ++ COLAB_NOTE
  end.

(** The lines one item appends: its link, its notebooks, a blank line. *)
Definition item_lines (github_repo : option pystr) (it : NotebookItem)
    : list pystr :=
  let module_link := str "./" ++ module_dir it ++ str "/" in
  [str "- **[" ++ module_title it ++ str "](" ++ module_link ++ str ")**"]
  ++ map (notebook_line github_repo it) (notebooks it)
  ++ [[]].

(** [now_utc] is what [datetime.now(timezone.utc).strftime(...)] gives. *)
Definition _render_list (items : list NotebookItem)
    (github_repo : option pystr) (now_utc : pystr) : pystr :=
  match items with
  | [] => NO_NOTEBOOKS
  | _ :: _ =>
      let lines :=
        [UPDATED_LABEL ++ now_utc ++ [NL]]
        ++ flat_map (item_lines github_repo) items in
      rstrip (join [NL] lines) ++ [NL]
  end.

Definition _replace_between_markers (readme_text new_block : pystr)
    : result pystr :=
  if negb (contains readme_text BEGIN_MARKER)
     || negb (contains readme_text END_MARKER)
  then Raise RuntimeError_markers_missing
  else
    let? b := index readme_text BEGIN_MARKER in
    let begin_idx := b + length BEGIN_MARKER in
    let? end_idx := index readme_text END_MARKER in
    if end_idx <? begin_idx then Raise RuntimeError_marker_order
    else
      let before := firstn begin_idx readme_text in
      let after := skipn end_idx readme_text in
      Ok (before ++ [NL] ++ new_block ++ after).

Definition main : M unit :=
  readme_path <- reads (fun w => lookup README_md (w_root w)) ;;
  match readme_path with
  | None => raise SystemExit_readme_missing
  | Some _ =>
      github_repo <- _detect_github_repo ;;
      items <- (fun w => (_list_modules (w_root w), w)) ;;
      now_utc <- reads w_now ;;
      let new_block := _render_list items github_repo now_utc in
      original <- (fun w => (_read_text (lookup README_md (w_root w)), w)) ;;
      updated <- lift (_replace_between_markers original new_block) ;;
      if str_eqb updated original then print Msg_no_update
      else
        _write_text README_md updated ;;
        print Msg_updated ;;
        if negb (truthy github_repo) then print Msg_note_colab
        else ret tt
  end.

(** ** Vocabulary of the specification *)

(** [sub] occurs in [s] at index [i]. *)
Definition occurs_at (sub s : pystr) (i : nat) : Prop :=
  exists pre suf, s = pre ++ sub ++ suf /\ length pre = i.

Definition occurs (sub s : pystr) : Prop := exists i, occurs_at sub s i.

(** The position of [sub] in [s]: its first occurrence. *)
Definition first_occurrence (sub s : pystr) (i : nat) : Prop :=
  occurs_at sub s i /\ forall j, j < i -> ~ occurs_at sub s j.

(** The order [sorted] leaves a list in. *)
Definition key_le {A : Type} (key : A -> pystr) (x y : A) : Prop :=
  str_le (key x) (key y).

(** The directories [_list_modules] keeps: not excluded, not hidden, with a
    notebook. *)
Definition retained (name : pystr) (p : node) : bool :=
  match p with
  | File _ => false
  | Dir entries =>
      negb (mem name EXCLUDE_DIRS) && negb (startswith name (str "."))
      && match glob_ipynb_files entries with [] => false | _ :: _ => true end
  end.

(** The item of the directory [name] with the entries [entries]. *)
Definition item_of (name : pystr) (entries : listing) (it : NotebookItem)
    : Prop :=
  exists h1,
    _first_h1_from_readme (lookup README_md entries) = Ok h1 /\
    it = mkNotebookItem name (or_name h1 name)
           (sorted (fun x => x) (glob_ipynb_files entries)).

(** One pass of the loop of [_list_modules], as a relation between the
    entries it visits and the items it appends. *)
Inductive produced : listing -> list NotebookItem -> Prop :=
| produced_nil : produced [] []
| produced_skip (name : pystr) (p : node) (ps : listing)
    (its : list NotebookItem) :
    retained name p = false ->
    produced ps its -> produced ((name, p) :: ps) its
| produced_keep (name : pystr) (entries : listing) (ps : listing)
    (it : NotebookItem) (its : list NotebookItem) :
    retained name (Dir entries) = true ->
    item_of name entries it ->
    produced ps its -> produced ((name, Dir entries) :: ps) (it :: its).

(** The lines of a README file, as [_first_h1_from_readme] walks them. *)
Definition readme_lines (content : pystr) : list pystr :=
  splitlines (universal_newlines content).

(** No line matches the heading pattern. *)
Definition no_heading (lines : list pystr) : Prop :=
  forall l, In l lines -> re_match H1_RE l = None.

(** [captured] is group 1 of the first line that matches the heading
    pattern. *)
Definition first_heading (lines : list pystr) (captured : pystr) : Prop :=
  exists l1 line l2 m,
    lines = l1 ++ line :: l2 /\ no_heading l1 /\
    re_match H1_RE line = Some m /\ captured = group m 1.

(** What the heading pattern captures on a line without line feed, read off
    the line: after leading blanks one ["#"], one blank, and then either a
    text, captured from its first to its last character that is not blank,
    or blanks only, the last of which is captured. *)
Definition h1_capture (line : pystr) : option pystr :=
  match lstrip line with
  | c :: w :: u =>
      if char_eqb c (ch "#") && isspace w then
        match lstrip u with
        | d :: v => Some (d :: rstrip v)
        | [] => match u with
                | [] => None
                | _ :: _ => Some [last u w]
                end
        end
      else None
  | _ => None
  end.

(** The title a line gives, read off the line: the stripped text behind the
    ["#"] and the blank after it, when there is one more character at
    least. *)
Definition heading_title (line : pystr) : option pystr :=
  match lstrip line with
  | c :: w :: u =>
      if char_eqb c (ch "#") && isspace w && nonempty u
      then Some (strip u) else None
  | _ => None
  end.

(** The title the first such line gives. *)
Fixpoint first_title (lines : list pystr) : option pystr :=
  match lines with
  | [] => None
  | line :: rest =>
      match heading_title line with
      | Some t => Some t
      | None => first_title rest
      end
  end.

(** A greedy and a lazy run of the characters that satisfy [p], each
    followed by [k]: what a repetition of a character class does. *)
Fixpoint greedy_run (p : char -> bool) (k : mstate -> option mstate)
    (pos : nat) (groups : list (nat * pystr)) (rest : pystr)
    : option mstate :=
  match rest with
  | c :: rest' =>
      if p c
      then or_else (greedy_run p k (S pos) groups rest')
                   (k (MState pos rest groups))
      else k (MState pos rest groups)
  | [] => k (MState pos [] groups)
  end.

Fixpoint lazy_run (p : char -> bool) (k : mstate -> option mstate)
    (pos : nat) (groups : list (nat * pystr)) (rest : pystr)
    : option mstate :=
  or_else (k (MState pos rest groups))
    match rest with
    | c :: rest' => if p c then lazy_run p k (S pos) groups rest' else None
    | [] => None
    end.

(** A directory as a file system has it: distinct names, none empty. *)
Definition well_formed (d : listing) : Prop :=
  NoDup (map fst d) /\ forall n, In n (map fst d) -> n <> [].

(** The scenario of the specification: [a] with two notebooks and no
    README, [b] with one notebook and a README, and two directories that
    are passed over. *)
Definition example_readme : pystr :=
  str "# Notebooks" ++ [NL] ++ BEGIN_MARKER ++ [NL] ++ str "old" ++ [NL]
  ++ END_MARKER ++ [NL] ++ str "footer" ++ [NL].

Definition example_root : listing :=
  [ (str "scripts", Dir [(str "update_readme.py", File (str "pass"));
                         (str "demo.ipynb", File [])]);
    (str "b", Dir [(str "README.md", File (str "# Project B" ++ [NL]));
                   (str "one.ipynb", File [])]);
    (str "README.md", File example_readme);
    (str ".git", Dir [(str "x.ipynb", File [])]);
    (str "a", Dir [(str "two.ipynb", File []); (str "notes.txt", File []);
                   (str "one.ipynb", File [])]);
    (str "docs", Dir [(str "index.md", File [])]) ].

Definition example_world : world :=
  World example_root (Some (str " acme/widgets ")) None
        (str "2024-01-02 03:04:05Z") [].

Definition example_items : list NotebookItem :=
  [ mkNotebookItem (str "a") (str "a") [str "one.ipynb"; str "two.ipynb"];
    mkNotebookItem (str "b") (str "Project B") [str "one.ipynb"] ].

(** The world one run leaves behind. *)
Definition example_world_after : world :=
  Eval vm_compute in snd (main example_world).

(** The same repository with the variable blank and an SSH remote. *)
Definition example_world_remote : world :=
  World example_root (Some (str "  "))
        (Some (str "git@github.com:acme/widgets.git" ++ [NL]))
        (str "2024-01-02 03:04:05Z") [].

(** A README whose markers are missing. *)
Definition example_world_no_markers : world :=
  World [ (str "README.md", File (str "# Notebooks" ++ [NL])) ]
        None None (str "2024-01-02 03:04:05Z") [].

(** A module whose README opens with a heading of blanks only, followed by
    a heading with a text. *)
Definition blank_heading_readme : pystr :=
  str "#  " ++ [NL] ++ str "# Real" ++ [NL].

Definition blank_heading_root : listing :=
  [ (str "a", Dir [(str "n.ipynb", File []);
                   (str "README.md", File blank_heading_readme)]) ].

(** A module whose heading is the END marker itself. *)
Definition marker_title_world : world :=
  World [ (str "README.md", File example_readme);
          (str "a", Dir [(str "n.ipynb", File []);
                         (str "README.md",
                          File (str "# " ++ END_MARKER ++ [NL]))]) ]
        (Some (str "acme/widgets")) None (str "2024-01-02 03:04:05Z") [].

Definition marker_title_run1 : world :=
  Eval vm_compute in snd (main marker_title_world).

Definition marker_title_run2 : world :=
  Eval vm_compute in snd (main marker_title_run1).

(** A repository identifier with a carriage return inside. *)
Definition carriage_return_world : world :=
  World [ (str "README.md", File example_readme);
          (str "a", Dir [(str "n.ipynb", File [])]) ]
        (Some (str "acme/wid" ++ [CR] ++ str "gets")) None
        (str "2024-01-02 03:04:05Z") [].

Definition carriage_return_run1 : world :=
  Eval vm_compute in snd (main carriage_return_world).

Definition carriage_return_run2 : world :=
  Eval vm_compute in snd (main carriage_return_run1).



(** A module whose README is Latin-1: the byte [0xE9] of ["# café"] is
    not UTF-8. *)
Definition latin1_root : listing :=
  [ (str "README.md", File example_readme);
    (str "a", Dir [(str "n.ipynb", File []);
                   (str "README.md",
                    File (str "# caf" ++ [56553%N; NL]))]) ].

(** The README text of a world, when its root has the file. *)
Definition readme_of (w : world) : option pystr :=
  match lookup README_md (w_root w) with
  | Some (File c) => Some c
  | _ => None
  end.

(** The character both markers open with. *)
Definition LT : char := ch "<".

(** The write events of a trace: what changed a file. *)
Definition is_write (e : event) : bool :=
  match e with Ev_write _ _ | Ev_truncate _ => true | _ => false end.

Definition writes (t : list event) : list event := filter is_write t.

(** The stripped value of [ZIKUU_GITHUB_REPO], empty when it is unset. *)
Definition env_repo (w : world) : pystr :=
  strip (match w_environ w with Some v => v | None => [] end).


(** ** The remote URL, read without patterns *)

(** [s.removeprefix(p)] when [s] starts with [p]. *)
Definition strip_prefix (p s : pystr) : option pystr :=
  if startswith s p then Some (skipn (length p) s) else None.

(** [s.removesuffix(p)] *)
Definition removesuffix (s p : pystr) : pystr :=
  if endswith s p then firstn (length s - length p) s else s.

(** [s.partition("/")] when [s] has a slash: what stands before the first
    slash and what stands behind it. *)
Fixpoint before_slash (s : pystr) : option (pystr * pystr) :=
  match s with
  | [] => None
  | c :: s' =>
      if char_eqb c (ch "/") then Some ([], s')
      else match before_slash s' with
           | Some (a, b) => Some (c :: a, b)
           | None => None
           end
  end.

Definition no_slash (s : pystr) : bool :=
  forallb (fun c => negb (char_eqb c (ch "/"))) s.

(** The repository name in what follows [OWNER/]: one trailing slash goes
    (in the HTTPS form), then one trailing [.git] unless nothing would be
    left; what remains has to be a name without slash. *)
Definition repo_name (allow_slash : bool) (t : pystr) : option pystr :=
  let t1 := if allow_slash then removesuffix t (str "/") else t in
  let t2 := if str_eqb t1 (str ".git") then t1
            else removesuffix t1 (str ".git") in
  if nonempty t2 && no_slash t2 then Some t2 else None.

Definition owner_repo (allow_slash : bool) (body : pystr) : option pystr :=
  match before_slash body with
  | Some (owner, t) =>
      if nonempty owner
      then option_map (fun repo => owner ++ str "/" ++ repo)
             (repo_name allow_slash t)
      else None
  | None => None
  end.

(** What [_parse_github_repo_from_remote] accepts and returns, read off the
    URL. *)
Definition parse_spec (remote_url : pystr) : option pystr :=
  let u := strip remote_url in
  match strip_prefix (str "https://github.com/") u with
  | Some body => owner_repo true body
  | None =>
      match strip_prefix (str "http://github.com/") u with
      | Some body => owner_repo true body
      | None =>
          match strip_prefix (str "git@github.com:") u with
          | Some body => owner_repo false body
          | None => None
          end
      end
  end.

(** The subject ends in a line feed: where [$] matches before the end. *)
Definition ends_NL (s : pystr) : bool :=
  match rev s with
  | c :: _ => char_eqb c NL
  | [] => false
  end.

(** What may follow the repository name: [.git] or not, then [/] or not
    (in the HTTPS form), then the end. *)
Definition is_end (allow_slash : bool) (r : pystr) : bool :=
  match r with
  | [] => true
  | [c] => allow_slash && char_eqb (ch "/") c
  | _ => false
  end.

Definition tail_ok (allow_slash : bool) (r : pystr) : bool :=
  match strip_prefix (str ".git") r with
  | Some r' => is_end allow_slash r'
  | None => is_end allow_slash r
  end.

(** The lazy group of the repository name: the shortest text, without
    slash, after which [ok] holds. *)
Fixpoint lazy_take (ok : pystr -> bool) (acc r : pystr) : option pystr :=
  if ok r then Some acc
  else match r with
       | c :: r' =>
           if negb (char_eqb c (ch "/")) then lazy_take ok (acc ++ [c]) r'
           else None
       | [] => None
       end.

Definition lazy_name (ok : pystr -> bool) (t : pystr) : option pystr :=
  match t with
  | c :: t' =>
      if negb (char_eqb c (ch "/")) then lazy_take ok [c] t' else None
  | [] => None
  end.

(** What follows the first character of the repository name, with the
    same suffixes taken off. *)
Definition name_rest (allow_slash : bool) (r : pystr) : option pystr :=
  let t1 := if allow_slash then removesuffix r (str "/") else r in
  let t2 := removesuffix t1 (str ".git") in
  if no_slash t2 then Some t2 else None.

(** The three ways a remote URL may start. *)
Definition HTTPS_HOST : pystr := str "https://github.com/".
Definition HTTP_HOST : pystr := str "http://github.com/".
Definition SSH_HOST : pystr := str "git@github.com:".

(** The prefixes and suffixes around [OWNER/REPO] that the patterns allow. *)
Definition url_frames : list (pystr * pystr) :=
  [ (HTTPS_HOST, []); (HTTPS_HOST, str ".git");
    (HTTPS_HOST, str "/"); (HTTPS_HOST, str ".git/");
    (HTTP_HOST, []); (HTTP_HOST, str ".git");
    (HTTP_HOST, str "/"); (HTTP_HOST, str ".git/");
    (SSH_HOST, []); (SSH_HOST, str ".git") ].

(** Unfolds one run of [main] down to the calls it makes. *)
Ltac run_main :=
  unfold main, bind, reads, lift, raise, ret, print, emit.

(** * Proofs *)

(** ** Strings *)

Lemma char_eqb_eq (a b : char) : char_eqb a b = true <-> a = b.
Proof. apply N.eqb_eq. Qed.

Lemma char_eqb_refl (a : char) : char_eqb a a = true.
Proof. apply N.eqb_refl. Qed.

Lemma str_eqb_eq (a b : pystr) : str_eqb a b = true <-> a = b.
Proof.
  revert b; induction a as [|x a IH]; intros [|y b]; simpl;
    try (split; [discriminate | discriminate]); try tauto.
  rewrite andb_true_iff, char_eqb_eq, IH.
  split; [intros [-> ->]; reflexivity | intros H; injection H; auto].
Qed.

Lemma str_eqb_refl (a : pystr) : str_eqb a a = true.
Proof. apply str_eqb_eq; reflexivity. Qed.

Lemma startswith_spec (s p : pystr) :
  startswith s p = true <-> exists r, s = p ++ r.
Proof.
  revert s; induction p as [|x p IH]; intros s; simpl.
  - split; [exists s; reflexivity | reflexivity].
  - destruct s as [|y s].
    + split; [discriminate | intros [r Hr]; discriminate].
    + rewrite andb_true_iff, char_eqb_eq, IH. split.
      * intros [-> [r ->]]. exists r; reflexivity.
      * intros [r Hr]. injection Hr as -> ->. eauto.
Qed.

Lemma startswith_app (p r : pystr) : startswith (p ++ r) p = true.
Proof. apply startswith_spec; eauto. Qed.

Lemma startswith_app_l (s p r : pystr) :
  startswith s p = true -> startswith (s ++ r) p = true.
Proof.
  rewrite !startswith_spec. intros [q ->]. exists (q ++ r).
  now rewrite app_assoc.
Qed.

Lemma occurs_at_0 (sub s : pystr) :
  occurs_at sub s 0 <-> startswith s sub = true.
Proof.
  rewrite startswith_spec. split.
  - intros (pre & suf & -> & Hlen).
    destruct pre; [|discriminate]. exists suf; reflexivity.
  - intros [r ->]. exists [], r. split; reflexivity.
Qed.

Lemma occurs_at_S (sub : pystr) (c : char) (s : pystr) (i : nat) :
  occurs_at sub (c :: s) (S i) <-> occurs_at sub s i.
Proof.
  split.
  - intros (pre & suf & E & Hlen). destruct pre as [|c' pre]; [discriminate|].
    simpl in *. injection E as -> ->. exists pre, suf. split; [reflexivity|lia].
  - intros (pre & suf & -> & Hlen). exists (c :: pre), suf.
    split; [reflexivity | simpl; lia].
Qed.

Lemma occurs_at_nil (sub : pystr) (i : nat) :
  occurs_at sub [] (S i) -> False.
Proof.
  intros (pre & suf & E & Hlen). destruct pre; discriminate.
Qed.

(** [find] computes the first occurrence. *)
Lemma find_Some (s sub : pystr) (i : nat) :
  find s sub = Some i <-> first_occurrence sub s i.
Proof.
  revert i; induction s as [|c s IH]; intros i.
  - simpl. destruct (startswith [] sub) eqn:E.
    + split.
      * intros [= <-]. split; [now apply occurs_at_0 | intros j Hj; lia].
      * intros [Hocc _]. destruct i; [reflexivity|].
        now apply occurs_at_nil in Hocc.
    + split; [discriminate|]. intros [Hocc _]. destruct i.
      * apply occurs_at_0 in Hocc. congruence.
      * now apply occurs_at_nil in Hocc.
  - simpl find. destruct (startswith (c :: s) sub) eqn:E.
    + split.
      * intros [= <-]. split; [now apply occurs_at_0 | intros j Hj; lia].
      * intros [_ Hmin]. destruct i; [reflexivity|].
        exfalso. apply (Hmin 0); [lia | now apply occurs_at_0].
    + split.
      * destruct (find s sub) as [i'|]; [|discriminate].
        intros [= <-]. destruct (proj1 (IH i') eq_refl) as [Hocc Hmin]. split.
        -- now apply occurs_at_S.
        -- intros [|j] Hj Hj'.
           ++ apply occurs_at_0 in Hj'. congruence.
           ++ apply occurs_at_S in Hj'. apply (Hmin j); [lia | assumption].
      * intros [Hocc Hmin]. destruct i as [|i].
        -- apply occurs_at_0 in Hocc. congruence.
        -- apply occurs_at_S in Hocc.
           assert (F : find s sub = Some i).
           { apply IH. split; [assumption|]. intros j Hj Hj'.
             apply (Hmin (S j)); [lia | now apply occurs_at_S]. }
           now rewrite F.
Qed.

Lemma find_None (s sub : pystr) :
  find s sub = None <-> ~ occurs sub s.
Proof.
  induction s as [|c s IH].
  - simpl. destruct (startswith [] sub) eqn:E.
    + split; [discriminate|]. intros H; exfalso; apply H.
      exists 0. now apply occurs_at_0.
    + split; [|reflexivity]. intros _ [[|i] Hi].
      * apply occurs_at_0 in Hi. congruence.
      * now apply occurs_at_nil in Hi.
  - simpl find. destruct (startswith (c :: s) sub) eqn:E.
    + split; [discriminate|]. intros H; exfalso; apply H.
      exists 0. now apply occurs_at_0.
    + destruct (find s sub) as [i|] eqn:F.
      * split; [discriminate|]. intros H; exfalso; apply H.
        apply find_Some in F. destruct F as [F _].
        exists (S i). now apply occurs_at_S.
      * split; [|reflexivity]. intros _ [[|i] Hi].
        -- apply occurs_at_0 in Hi. congruence.
        -- apply occurs_at_S in Hi. apply (proj1 IH); [reflexivity|].
           now exists i.
Qed.

Lemma contains_true (s sub : pystr) :
  contains s sub = true <-> occurs sub s.
Proof.
  unfold contains. destruct (find s sub) as [i|] eqn:F.
  - split; [|reflexivity]. intros _. apply find_Some in F.
    exists i. apply F.
  - split; [discriminate|]. intros H. now apply find_None in F.
Qed.

Lemma find_cons (a : char) (s sub : pystr) :
  find (a :: s) sub
  = if startswith (a :: s) sub then Some 0 else option_map S (find s sub).
Proof. reflexivity. Qed.

Lemma find_startswith (s sub : pystr) :
  startswith s sub = true -> find s sub = Some 0.
Proof. intros H. destruct s; simpl; now rewrite H. Qed.

Lemma find_bound (s sub : pystr) (i : nat) :
  find s sub = Some i -> i + length sub <= length s.
Proof.
  intros F. apply find_Some in F. destruct F as [(pre & suf & -> & <-) _].
  rewrite !length_app. lia.
Qed.

(** ** Substrings whose first character does not come back

    Both markers open with ["<"] and have no other ["<"]: an occurrence of
    one cannot run over the start of another. *)

Section UniqueHead.
Variable c : char.
Variable tl : pystr.
Hypothesis head_unique : ~ In c tl.

Lemma startswith_before_head (p x r : pystr) :
  ~ In c p -> startswith (x ++ c :: r) p = true -> startswith x p = true.
Proof.
  revert x; induction p as [|a p IH]; intros x Hp H; [reflexivity|].
  destruct x as [|b x]; simpl in *.
  - apply andb_true_iff in H. destruct H as [H _].
    apply char_eqb_eq in H. subst. tauto.
  - apply andb_true_iff in H. destruct H as [H1 H2]. rewrite H1. simpl.
    apply IH; tauto.
Qed.

Lemma startswith_across_head (a : char) (x r : pystr) :
  startswith ((a :: x) ++ c :: r) (c :: tl) = startswith (a :: x) (c :: tl).
Proof.
  simpl. destruct (char_eqb c a); simpl; [|reflexivity].
  destruct (startswith x tl) eqn:E.
  - apply startswith_app_l; exact E.
  - destruct (startswith (x ++ c :: r) tl) eqn:E'; [|reflexivity].
    apply startswith_before_head in E'; [congruence | assumption].
Qed.

(** The occurrences of [c :: tl] in [x ++ c :: r] that start inside [x]
    lie inside [x]. *)
Lemma find_across_head (x r : pystr) :
  find (x ++ c :: r) (c :: tl)
  = match find x (c :: tl) with
    | Some i => Some i
    | None => option_map (fun k => length x + k) (find (c :: r) (c :: tl))
    end.
Proof.
  induction x as [|a x IH].
  - change (find [] (c :: tl)) with (@None nat). simpl app.
    destruct (find (c :: r) (c :: tl)); reflexivity.
  - rewrite <- app_comm_cons, (find_cons a (x ++ c :: r)), (find_cons a x).
    rewrite app_comm_cons, startswith_across_head, IH.
    destruct (startswith (a :: x) (c :: tl)); [reflexivity|].
    destruct (find x (c :: tl)); [reflexivity|].
    destruct (find (c :: r) (c :: tl)); reflexivity.
Qed.

(** The first occurrence in [x ++ (c :: tl) ++ y]. *)
Lemma find_app_self (x y : pystr) :
  find (x ++ (c :: tl) ++ y) (c :: tl)
  = match find x (c :: tl) with
    | Some i => Some i
    | None => Some (length x)
    end.
Proof.
  change ((c :: tl) ++ y) with (c :: (tl ++ y)).
  rewrite find_across_head.
  destruct (find x (c :: tl)); [reflexivity|].
  change (c :: tl ++ y) with ((c :: tl) ++ y).
  assert (E : find ((c :: tl) ++ y) (c :: tl) = Some 0)
    by (apply find_startswith, startswith_app).
  rewrite E. simpl. f_equal. lia.
Qed.
End UniqueHead.

(** ** The two markers *)

Lemma BEGIN_MARKER_shape :
  BEGIN_MARKER = LT :: tl BEGIN_MARKER /\ ~ In LT (tl BEGIN_MARKER).
Proof.
  split; [reflexivity|]. intros H.
  assert (E : existsb (char_eqb LT) (tl BEGIN_MARKER) = true).
  { apply existsb_exists. exists LT. split; [assumption | apply char_eqb_refl]. }
  vm_compute in E. discriminate.
Qed.

Lemma END_MARKER_shape :
  END_MARKER = LT :: tl END_MARKER /\ ~ In LT (tl END_MARKER).
Proof.
  split; [reflexivity|]. intros H.
  assert (E : existsb (char_eqb LT) (tl END_MARKER) = true).
  { apply existsb_exists. exists LT. split; [assumption | apply char_eqb_refl]. }
  vm_compute in E. discriminate.
Qed.

Lemma find_cons_false (a : char) (s sub : pystr) :
  startswith (a :: s) sub = false ->
  find (a :: s) sub = option_map S (find s sub).
Proof. intros H. now rewrite find_cons, H. Qed.

(** No occurrence of the END marker starts inside the BEGIN marker. *)
Lemma find_END_after_BEGIN (y : pystr) :
  find (BEGIN_MARKER ++ y) END_MARKER
  = option_map (fun k => length BEGIN_MARKER + k) (find y END_MARKER).
Proof.
  let b := eval vm_compute in BEGIN_MARKER in change BEGIN_MARKER with b.
  let e := eval vm_compute in END_MARKER in change END_MARKER with e.
  simpl app. simpl length.
  repeat (rewrite find_cons_false by reflexivity).
  match goal with |- context [find y ?e] => destruct (find y e) end;
    reflexivity.
Qed.

Lemma find_END_across_BEGIN (pre y : pystr) :
  find (pre ++ BEGIN_MARKER ++ y) END_MARKER
  = match find pre END_MARKER with
    | Some i => Some i
    | None =>
        option_map (fun k => length pre + length BEGIN_MARKER + k)
          (find y END_MARKER)
    end.
Proof.
  destruct END_MARKER_shape as [EE HE].
  pose proof (@find_across_head LT (tl END_MARKER) HE pre
                (tl BEGIN_MARKER ++ y)) as H.
  rewrite <- EE in H.
  change (LT :: tl BEGIN_MARKER ++ y) with (BEGIN_MARKER ++ y) in H.
  rewrite H, find_END_after_BEGIN.
  destruct (find pre END_MARKER); [reflexivity|].
  destruct (find y END_MARKER); simpl; [f_equal; lia | reflexivity].
Qed.

Lemma find_BEGIN_app (x y : pystr) :
  find (x ++ BEGIN_MARKER ++ y) BEGIN_MARKER
  = match find x BEGIN_MARKER with
    | Some i => Some i
    | None => Some (length x)
    end.
Proof.
  destruct BEGIN_MARKER_shape as [E H].
  pose proof (@find_app_self LT (tl BEGIN_MARKER) H x y) as F.
  now rewrite <- E in F.
Qed.

Lemma find_END_app (x y : pystr) :
  find (x ++ END_MARKER ++ y) END_MARKER
  = match find x END_MARKER with
    | Some i => Some i
    | None => Some (length x)
    end.
Proof.
  destruct END_MARKER_shape as [E H].
  pose proof (@find_app_self LT (tl END_MARKER) H x y) as F.
  now rewrite <- E in F.
Qed.

Lemma firstn_exact {A : Type} (a b : list A) (n : nat) :
  length a = n -> firstn n (a ++ b) = a.
Proof.
  intros <-. rewrite firstn_app, Nat.sub_diag, firstn_all. simpl.
  apply app_nil_r.
Qed.

Lemma skipn_exact {A : Type} (a b : list A) (n : nat) :
  length a = n -> skipn n (a ++ b) = b.
Proof.
  intros <-. rewrite skipn_app, Nat.sub_diag, skipn_all. reflexivity.
Qed.

Lemma find_split (s sub : pystr) (i : nat) :
  find s sub = Some i ->
  exists pre suf, s = pre ++ sub ++ suf /\ length pre = i.
Proof. intros F. apply find_Some in F. exact (proj1 F). Qed.

(** Where the two markers of a text can stand: END before BEGIN, or in
    order and apart, with no earlier copy of either. *)
Lemma markers_layout (text : pystr) (b e : nat) :
  find text BEGIN_MARKER = Some b ->
  find text END_MARKER = Some e ->
  e < b \/
  exists pre mid suf,
    text = pre ++ BEGIN_MARKER ++ mid ++ END_MARKER ++ suf /\
    length pre = b /\
    e = b + length BEGIN_MARKER + length mid /\
    find pre BEGIN_MARKER = None /\
    find pre END_MARKER = None /\
    find mid END_MARKER = None.
Proof.
  intros Fb Fe.
  destruct (find_split _ _ Fb) as (pre & y & -> & Hb).
  rewrite find_BEGIN_app in Fb. rewrite find_END_across_BEGIN in Fe.
  destruct (find pre BEGIN_MARKER) as [i|] eqn:Fpb.
  { apply find_bound in Fpb. injection Fb as ->.
    change (length BEGIN_MARKER) with 35 in Fpb. lia. }
  destruct (find pre END_MARKER) as [i|] eqn:Fpe.
  { injection Fe as ->. apply find_bound in Fpe.
    change (length END_MARKER) with 33 in Fpe. left; lia. }
  destruct (find y END_MARKER) as [k|] eqn:Fy; [|discriminate].
  simpl in Fe. injection Fe as <-. right.
  destruct (find_split _ _ Fy) as (mid & suf & -> & Hk).
  rewrite find_END_app in Fy.
  destruct (find mid END_MARKER) as [i|] eqn:Fm.
  { apply find_bound in Fm. injection Fy as ->.
    change (length END_MARKER) with 33 in Fm. lia. }
  exists pre, mid, suf. repeat split; try assumption; try reflexivity.
  change (length BEGIN_MARKER) with 35. lia.
Qed.

Lemma replace_between_markers_unfold (text block : pystr) :
  _replace_between_markers text block
  = match find text BEGIN_MARKER, find text END_MARKER with
    | Some b, Some e =>
        if e <? b + length BEGIN_MARKER then Raise RuntimeError_marker_order
        else Ok (firstn (b + length BEGIN_MARKER) text ++ [NL] ++ block
                 ++ skipn e text)
    | _, _ => Raise RuntimeError_markers_missing
    end.
Proof.
  unfold _replace_between_markers, contains, index.
  destruct (find text BEGIN_MARKER), (find text END_MARKER); reflexivity.
Qed.

(** The substitution on a text laid out in order. *)
Lemma replace_between_markers_layout (pre mid suf block : pystr) :
  find pre BEGIN_MARKER = None ->
  find pre END_MARKER = None ->
  find mid END_MARKER = None ->
  _replace_between_markers
    (pre ++ BEGIN_MARKER ++ mid ++ END_MARKER ++ suf) block
  = Ok (pre ++ BEGIN_MARKER ++ [NL] ++ block ++ END_MARKER ++ suf).
Proof.
  intros Hpb Hpe Hm.
  rewrite replace_between_markers_unfold.
  rewrite find_BEGIN_app, Hpb, find_END_across_BEGIN, Hpe, find_END_app, Hm.
  simpl option_map. cbv iota beta.
  change (length BEGIN_MARKER) with 35.
  destruct (Nat.ltb_spec (length pre + 35 + length mid) (length pre + 35))
    as [Hlt|_]; [lia|].
  f_equal.
  rewrite (app_assoc pre BEGIN_MARKER) at 1.
  rewrite firstn_exact by (rewrite length_app; reflexivity).
  rewrite (app_assoc pre BEGIN_MARKER), (app_assoc (pre ++ BEGIN_MARKER) mid).
  rewrite skipn_exact
    by (rewrite !length_app; change (length BEGIN_MARKER) with 35; lia).
  now rewrite <- !app_assoc.
Qed.

(** ** The order of strings and [sorted] *)

Lemma str_compare_refl (a : pystr) : str_compare a a = Eq.
Proof.
  induction a as [|x a IH]; simpl; [reflexivity|].
  now rewrite N.compare_refl.
Qed.

Lemma str_compare_eq (a b : pystr) : str_compare a b = Eq -> a = b.
Proof.
  revert b; induction a as [|x a IH]; intros [|y b]; simpl;
    try discriminate; [reflexivity|].
  destruct (N.compare_spec x y) as [E|E|E]; try discriminate.
  intros H. subst. f_equal. now apply IH.
Qed.

Lemma str_compare_antisym (a b : pystr) :
  str_compare b a = CompOpp (str_compare a b).
Proof.
  revert b; induction a as [|x a IH]; intros [|y b]; simpl; try reflexivity.
  rewrite (N.compare_antisym x y).
  destruct (N.compare x y); simpl; auto.
Qed.

Lemma str_le_refl (a : pystr) : str_le a a.
Proof. unfold str_le, str_leb. now rewrite str_compare_refl. Qed.

Lemma str_leb_total (a b : pystr) : str_leb a b = false -> str_leb b a = true.
Proof.
  unfold str_leb. rewrite (str_compare_antisym a b).
  destruct (str_compare a b); simpl; congruence.
Qed.

Lemma str_le_trans (a b c : pystr) : str_le a b -> str_le b c -> str_le a c.
Proof.
  unfold str_le, str_leb.
  revert b c; induction a as [|x a IH]; intros [|y b] [|z c]; simpl;
    try congruence.
  destruct (N.compare_spec x y) as [Hxy|Hxy|Hxy];
    destruct (N.compare_spec y z) as [Hyz|Hyz|Hyz];
    try congruence; intros H1 H2.
  - subst. rewrite N.compare_refl. now apply IH with b.
  - subst. apply N.compare_lt_iff in Hyz. now rewrite Hyz.
  - subst. apply N.compare_lt_iff in Hxy. now rewrite Hxy.
  - assert (Hxz : (x < z)%N) by lia.
    apply N.compare_lt_iff in Hxz. now rewrite Hxz.
Qed.

Lemma str_le_antisym (a b : pystr) : str_le a b -> str_le b a -> a = b.
Proof.
  unfold str_le, str_leb. rewrite (str_compare_antisym a b).
  destruct (str_compare a b) eqn:E; simpl; try congruence.
  intros _ _. now apply str_compare_eq.
Qed.

Section SortedFacts.
Variable A : Type.
Variable key : A -> pystr.

Lemma insert_by_perm (x : A) (l : list A) :
  Permutation (insert_by key x l) (x :: l).
Proof.
  induction l as [|y l IH]; simpl; [reflexivity|].
  destruct (str_leb (key x) (key y)); [reflexivity|].
  rewrite IH. apply perm_swap.
Qed.

Lemma sorted_perm (l : list A) : Permutation (sorted key l) l.
Proof.
  induction l as [|x l IH]; simpl; [reflexivity|].
  rewrite insert_by_perm. now constructor.
Qed.

Lemma sorted_In (x : A) (l : list A) : In x (sorted key l) <-> In x l.
Proof.
  split; apply Permutation_in; [|symmetry]; apply sorted_perm.
Qed.

Lemma insert_by_sorted (x : A) (l : list A) :
  StronglySorted (key_le key) l -> StronglySorted (key_le key) (insert_by key x l).
Proof.
  induction 1 as [|y l Hs IH Hall]; simpl.
  - constructor; constructor.
  - destruct (str_leb (key x) (key y)) eqn:E.
    + constructor; [now constructor|]. constructor; [exact E|].
      eapply Forall_impl; [|exact Hall].
      intros z Hz. now apply str_le_trans with (key y).
    + constructor; [exact IH|].
      apply Forall_forall. intros z Hz.
      apply (Permutation_in _ (insert_by_perm x l)) in Hz.
      destruct Hz as [<-|Hz].
      * now apply str_leb_total.
      * rewrite Forall_forall in Hall. now apply Hall.
Qed.

Lemma sorted_sorted (l : list A) : StronglySorted (key_le key) (sorted key l).
Proof.
  induction l as [|x l IH]; simpl; [constructor|].
  now apply insert_by_sorted.
Qed.

Lemma sorted_nil_inv (l : list A) : sorted key l = [] -> l = [].
Proof.
  intros H. pose proof (sorted_perm l) as P. rewrite H in P.
  now apply Permutation_nil in P.
Qed.

(** A map that keeps the keys goes through the sort. *)
Lemma sorted_map (f : A -> A) (l : list A) :
  (forall x, key (f x) = key x) ->
  sorted key (map f l) = map f (sorted key l).
Proof.
  intros Hf. induction l as [|x l IH]; simpl; [reflexivity|].
  rewrite IH. generalize (sorted key l) as m.
  induction m as [|y m IHm]; simpl; [reflexivity|].
  rewrite !Hf. destruct (str_leb (key x) (key y)); simpl; [reflexivity|].
  now rewrite IHm.
Qed.
End SortedFacts.

Lemma StronglySorted_map {A B : Type} (R : B -> B -> Prop) (f : A -> B)
    (l : list A) :
  StronglySorted (fun x y => R (f x) (f y)) l -> StronglySorted R (map f l).
Proof.
  induction 1 as [|x l Hs IH Hall]; simpl; constructor; [assumption|].
  apply Forall_map. exact Hall.
Qed.

(** ** The loop of [_list_modules] *)

Lemma sorted_nonempty_iff (l : list pystr) :
  match sorted (fun x => x) l with [] => false | _ :: _ => true end
  = match l with [] => false | _ :: _ => true end.
Proof.
  destruct l as [|x l]; [reflexivity|].
  destruct (sorted (fun x => x) (x :: l)) eqn:E; [|reflexivity].
  apply sorted_nil_inv in E. discriminate.
Qed.

Lemma list_modules_loop_skip (name : pystr) (p : node) (ps : listing)
    (acc : list NotebookItem) :
  retained name p = false ->
  list_modules_loop ((name, p) :: ps) acc = list_modules_loop ps acc.
Proof.
  intros H. destruct p as [c|entries]; [reflexivity|].
  unfold retained in H. cbn [list_modules_loop].
  destruct (mem name EXCLUDE_DIRS); [reflexivity|].
  destruct (startswith name (str ".")); [reflexivity|].
  cbn [negb andb] in H.
  pose proof (sorted_nonempty_iff (glob_ipynb_files entries)) as E.
  rewrite H in E.
  destruct (sorted (fun x => x) (glob_ipynb_files entries));
    [reflexivity | discriminate].
Qed.

Lemma list_modules_loop_keep (name : pystr) (entries ps : listing)
    (acc : list NotebookItem) :
  retained name (Dir entries) = true ->
  list_modules_loop ((name, Dir entries) :: ps) acc
  = let? h1 := _first_h1_from_readme (lookup README_md entries) in
    list_modules_loop ps
      (acc ++ [mkNotebookItem name (or_name h1 name)
                 (sorted (fun x => x) (glob_ipynb_files entries))]).
Proof.
  intros H. unfold retained in H. cbn [list_modules_loop].
  destruct (mem name EXCLUDE_DIRS); [discriminate|].
  destruct (startswith name (str ".")); [discriminate|].
  cbn [negb andb] in H.
  pose proof (sorted_nonempty_iff (glob_ipynb_files entries)) as E.
  rewrite H in E.
  destruct (sorted (fun x => x) (glob_ipynb_files entries)) eqn:S;
    [discriminate | reflexivity].
Qed.

Lemma list_modules_loop_produced (ps : listing) :
  forall acc items,
    list_modules_loop ps acc = Ok items ->
    exists new, items = acc ++ new /\ produced ps new.
Proof.
  induction ps as [|[name p] ps IH]; intros acc items H.
  - simpl in H. injection H as <-. exists []. split.
    + now rewrite app_nil_r.
    + constructor.
  - destruct (retained name p) eqn:R.
    + destruct p as [c|entries]; [discriminate|].
      rewrite list_modules_loop_keep in H by assumption.
      destruct (_first_h1_from_readme (lookup README_md entries))
        as [h1|e] eqn:Hh1; simpl in H; [|discriminate].
      apply IH in H. destruct H as (new & -> & Hp).
      eexists (_ :: new). split.
      * rewrite <- app_assoc. reflexivity.
      * apply produced_keep; [assumption| |assumption].
        exists h1. split; [assumption | reflexivity].
    + rewrite list_modules_loop_skip in H by assumption.
      apply IH in H. destruct H as (new & -> & Hp).
      exists new. split; [reflexivity|]. now apply produced_skip.
Qed.

Lemma produced_list_modules_loop (ps : listing) (new : list NotebookItem) :
  produced ps new ->
  forall acc, list_modules_loop ps acc = Ok (acc ++ new).
Proof.
  induction 1 as [|name p ps its R _ IH|name entries ps it its R Hit _ IH];
    intros acc.
  - simpl. now rewrite app_nil_r.
  - rewrite list_modules_loop_skip by assumption. apply IH.
  - rewrite list_modules_loop_keep by assumption.
    destruct Hit as (h1 & -> & ->). simpl.
    rewrite IH, <- app_assoc. reflexivity.
Qed.

(** [_list_modules] returns exactly the items one pass over the sorted
    entries produces. *)
Lemma list_modules_produced (root : listing) (items : list NotebookItem) :
  _list_modules root = Ok items <-> produced (sorted fst root) items.
Proof.
  unfold _list_modules. split.
  - intros H. apply list_modules_loop_produced in H.
    destruct H as (new & -> & Hp). exact Hp.
  - intros H. apply (produced_list_modules_loop H []).
Qed.

(** Reading the first heading fails on a directory and on a file that is
    not UTF-8, and on nothing else. *)
Lemma first_h1_from_readme_raise (readme_path : option node) (e : exn) :
  _first_h1_from_readme readme_path = Raise e <->
  (e = IsADirectoryError /\ exists d, readme_path = Some (Dir d)) \/
  (e = UnicodeDecodeError /\
   exists c, readme_path = Some (File c) /\ is_utf8 c = false).
Proof.
  destruct readme_path as [[c|d]|];
    cbn [_first_h1_from_readme _read_text bind_result].
  - destruct (is_utf8 c) eqn:U; cbn [bind_result]; split.
    + discriminate.
    + intros [(_ & d & [=])|(_ & c' & [= <-] & U')]. congruence.
    + intros [= <-]. right. split; [reflexivity|]. now exists c.
    + intros [(_ & d & [=])|(-> & _)]. reflexivity.
  - split.
    + intros [= <-]. left. split; [reflexivity|]. now exists d.
    + intros [(-> & _)|(_ & c & [=] & _)]. reflexivity.
  - split; [discriminate|].
    intros [(_ & d & [=])|(_ & c & [=] & _)].
Qed.

(** The loop raises only when reading the [README.md] of a directory it
    keeps does. *)
Lemma list_modules_loop_raise (ps : listing) :
  forall acc e,
    list_modules_loop ps acc = Raise e ->
    exists name entries,
      In (name, Dir entries) ps /\
      retained name (Dir entries) = true /\
      _first_h1_from_readme (lookup README_md entries) = Raise e.
Proof.
  induction ps as [|[name p] ps IH]; intros acc e H; [discriminate|].
  destruct (retained name p) eqn:R.
  - destruct p as [c|entries]; [discriminate|].
    rewrite list_modules_loop_keep in H by assumption.
    destruct (_first_h1_from_readme (lookup README_md entries))
      as [h1|e1] eqn:L; cbn [bind_result] in H.
    + apply IH in H. destruct H as (n & es & Hin & Hr & Hl).
      exists n, es. split; [now right | now split].
    + injection H as <-.
      exists name, entries. split; [now left | now split].
  - rewrite list_modules_loop_skip in H by assumption.
    apply IH in H. destruct H as (n & es & Hin & Hr & Hl).
    exists n, es. split; [now right | now split].
Qed.

Lemma produced_names (ps : listing) (its : list NotebookItem) :
  produced ps its ->
  map module_dir its
  = map fst (filter (fun e => retained (fst e) (snd e)) ps).
Proof.
  induction 1 as [|name p ps its R _ IH|name entries ps it its R Hit _ IH];
    cbn [filter fst snd map].
  - reflexivity.
  - now rewrite R.
  - rewrite R. cbn [map fst]. destruct Hit as (h1 & _ & ->).
    cbn [module_dir]. now f_equal.
Qed.

Lemma produced_In (ps : listing) (its : list NotebookItem) :
  produced ps its ->
  forall it, In it its ->
    exists entries,
      In (module_dir it, Dir entries) ps /\
      retained (module_dir it) (Dir entries) = true /\
      item_of (module_dir it) entries it.
Proof.
  induction 1 as [|name p ps its R _ IH|name entries ps it0 its R Hit _ IH];
    intros it Hin.
  - destruct Hin.
  - destruct (IH it Hin) as (entries & H1 & H2). exists entries.
    split; [now right | assumption].
  - destruct Hin as [<-|Hin].
    + assert (E : module_dir it0 = name)
        by (destruct Hit as (h1 & _ & ->); reflexivity).
      rewrite E. exists entries. repeat split; [now left | assumption ..].
    + destruct (IH it Hin) as (entries' & H1 & H2). exists entries'.
      split; [now right | assumption].
Qed.

Lemma produced_name_In (ps : listing) (its : list NotebookItem) :
  produced ps its ->
  forall n, In n (map module_dir its) -> In n (map fst ps).
Proof.
  intros Hp n Hn. apply in_map_iff in Hn. destruct Hn as (it & <- & Hit).
  destruct (produced_In Hp it Hit) as (entries & Hin & _).
  apply in_map_iff. now exists (module_dir it, Dir entries).
Qed.

Lemma produced_sorted (R : pystr -> pystr -> Prop) (ps : listing)
    (its : list NotebookItem) :
  produced ps its ->
  StronglySorted R (map fst ps) -> StronglySorted R (map module_dir its).
Proof.
  induction 1 as [|name p ps its Hr Hp IH|name entries ps it its Hr Hit Hp IH];
    simpl; intros Hs.
  - constructor.
  - inversion Hs; subst. now apply IH.
  - inversion Hs as [|? ? Hs' Hall]; subst.
    assert (E : module_dir it = name)
      by (destruct Hit as (h1 & _ & ->); reflexivity).
    rewrite E. constructor; [now apply IH|].
    apply Forall_forall. intros n Hn.
    rewrite Forall_forall in Hall. apply Hall.
    now apply (produced_name_In Hp).
Qed.

Lemma produced_NoDup (ps : listing) (its : list NotebookItem) :
  produced ps its ->
  NoDup (map fst ps) -> NoDup (map module_dir its).
Proof.
  induction 1 as [|name p ps its Hr Hp IH|name entries ps it its Hr Hit Hp IH];
    simpl; intros Hn.
  - constructor.
  - inversion Hn; subst. now apply IH.
  - inversion Hn as [|? ? Hnot Hn']; subst.
    assert (E : module_dir it = name)
      by (destruct Hit as (h1 & _ & ->); reflexivity).
    rewrite E. constructor; [|now apply IH].
    intros Hin. apply Hnot. now apply (produced_name_In Hp).
Qed.

(** An entry that is not retained leaves no item, the names being
    distinct. *)
Lemma produced_not_retained (ps : listing) (its : list NotebookItem) :
  produced ps its ->
  NoDup (map fst ps) ->
  forall name p, In (name, p) ps -> retained name p = false ->
    ~ In name (map module_dir its).
Proof.
  induction 1 as [|n0 p0 ps its Hr Hp IH|n0 entries ps it its Hr Hit Hp IH];
    simpl; intros Hn name p Hin Hret.
  - destruct Hin.
  - inversion Hn as [|? ? Hnot Hn']; subst.
    destruct Hin as [[= -> ->]|Hin].
    + intros H. apply Hnot. now apply (produced_name_In Hp).
    + now apply (IH Hn' name p).
  - inversion Hn as [|? ? Hnot Hn']; subst.
    assert (E : module_dir it = n0)
      by (destruct Hit as (h1 & _ & ->); reflexivity).
    rewrite E.
    destruct Hin as [[= E1 E2]|Hin]; [subst; congruence|].
    intros [->|H].
    + apply Hnot. apply in_map_iff. now exists (name, p).
    + now apply (IH Hn' name p).
Qed.

(** ** Stripping *)

Lemma lstrip_head (s : pystr) :
  lstrip s = [] \/ exists c r, lstrip s = c :: r /\ isspace c = false.
Proof.
  induction s as [|c s IH]; simpl; [now left|].
  destruct (isspace c) eqn:E; [exact IH|]. right. now exists c, s.
Qed.

Lemma lstrip_nil (s : pystr) :
  lstrip s = [] <-> forall c, In c s -> isspace c = true.
Proof.
  induction s as [|c s IH]; simpl.
  - split; [intros _ c [] | reflexivity].
  - destruct (isspace c) eqn:E.
    + rewrite IH. split.
      * intros H x [<-|Hx]; [assumption | now apply H].
      * intros H x Hx. apply H. now right.
    + split; [discriminate|]. intros H.
      rewrite (H c (or_introl eq_refl)) in E. discriminate.
Qed.

Lemma lstrip_all_space (s : pystr) :
  (forall c, In c s -> isspace c = true) -> lstrip s = [].
Proof. apply lstrip_nil. Qed.

(** What [rstrip] leaves ends in a character that is not white space. *)
Lemma rstrip_last (s : pystr) :
  rstrip s = [] \/ exists body c, rstrip s = body ++ [c] /\ isspace c = false.
Proof.
  unfold rstrip. destruct (lstrip_head (rev s)) as [E|(c & r & E & Hc)].
  - left. now rewrite E.
  - right. exists (rev r), c. rewrite E. split; [reflexivity | assumption].
Qed.

Lemma rstrip_nil (s : pystr) :
  rstrip s = [] <-> forall c, In c s -> isspace c = true.
Proof.
  unfold rstrip. split.
  - intros H c Hc. assert (E : lstrip (rev s) = []).
    { destruct (lstrip (rev s)); [reflexivity|].
      simpl in H. now apply app_eq_nil in H. }
    apply (proj1 (lstrip_nil _) E). now apply in_rev in Hc.
  - intros H. rewrite (proj2 (lstrip_nil (rev s))); [reflexivity|].
    intros c Hc. apply H. now apply in_rev.
Qed.

Lemma strip_nil (s : pystr) :
  strip s = [] <-> forall c, In c s -> isspace c = true.
Proof.
  unfold strip. rewrite rstrip_nil. split.
  - intros H. apply lstrip_nil.
    destruct (lstrip_head s) as [E|(c & r & E & Hc)]; [assumption|].
    rewrite (H c) in Hc; [discriminate|]. rewrite E. now left.
  - intros H. rewrite (proj2 (lstrip_nil s) H). intros c [].
Qed.

Lemma join_head_In (c : char) (sep p : pystr) (ps : list pystr) :
  In c p -> In c (join sep (p :: ps)).
Proof.
  intros H. destruct ps as [|q ps]; simpl; [assumption|].
  apply in_or_app. now left.
Qed.

(** ** Writing a file of the root leaves the modules as they are *)

Lemma overwrite_fst (name text : pystr) (e : pystr * node) :
  fst (overwrite name text e) = fst e.
Proof.
  unfold overwrite. destruct e as [n [c|d]]; simpl; [|reflexivity].
  destruct (str_eqb n name); reflexivity.
Qed.

Lemma lookup_set_file (name text : pystr) (d : listing) (c : pystr) :
  lookup name d = Some (File c) ->
  lookup name (set_file name text d) = Some (File text).
Proof.
  induction d as [|[n x] d IH]; simpl; [discriminate|].
  unfold overwrite; simpl. destruct (str_eqb n name) eqn:E.
  - intros [= ->]. simpl. now rewrite E.
  - intros H. destruct x; simpl; rewrite E; now apply IH.
Qed.

Lemma list_modules_loop_set_file (name text : pystr) (ps : listing) :
  forall acc,
    list_modules_loop (set_file name text ps) acc = list_modules_loop ps acc.
Proof.
  induction ps as [|[n x] ps IH]; intros acc; [reflexivity|].
  change (set_file name text ((n, x) :: ps))
    with (overwrite name text (n, x) :: set_file name text ps).
  destruct x as [c|entries].
  - unfold overwrite; cbn [snd fst].
    destruct (str_eqb n name); cbn [list_modules_loop]; apply IH.
  - unfold overwrite; cbn [snd fst list_modules_loop].
    destruct (mem n EXCLUDE_DIRS); [apply IH|].
    destruct (startswith n (str ".")); [apply IH|].
    destruct (sorted (fun x => x) (glob_ipynb_files entries)); [apply IH|].
    destruct (_first_h1_from_readme (lookup README_md entries));
      simpl; [apply IH | reflexivity].
Qed.

Lemma list_modules_set_file (name text : pystr) (root : listing) :
  _list_modules (set_file name text root) = _list_modules root.
Proof.
  unfold _list_modules, set_file.
  rewrite sorted_map by apply overwrite_fst.
  apply list_modules_loop_set_file.
Qed.

(** ** Line ends *)

Lemma universal_newlines_no_CR (s : pystr) : ~ In CR (universal_newlines s).
Proof.
  assert (G : forall n s, length s <= n -> ~ In CR (universal_newlines s)).
  { clear s. induction n as [|n IH]; intros [|c s] Hlen; simpl in *;
      try tauto; try lia.
    destruct (char_eqb c CR) eqn:E.
    - intros [H|H]; [discriminate|].
      destruct s as [|d s]; [destruct H|].
      destruct (char_eqb d NL); revert H; apply IH; simpl in *; lia.
    - intros [H|H].
      + subst. rewrite char_eqb_refl in E. discriminate.
      + revert H. apply IH. lia. }
  now apply (G (length s)).
Qed.

Lemma universal_newlines_id (s : pystr) :
  ~ In CR s -> universal_newlines s = s.
Proof.
  induction s as [|c s IH]; simpl; [reflexivity|]. intros H.
  destruct (char_eqb c CR) eqn:E.
  - apply char_eqb_eq in E. tauto.
  - f_equal. apply IH. tauto.
Qed.

(** ** Detection of the repository *)

Lemma parse_github_repo_nonempty (url p : pystr) :
  _parse_github_repo_from_remote url = Some p -> nonempty p = true.
Proof.
  unfold _parse_github_repo_from_remote.
  destruct (re_match HTTPS_RE (strip url)) as [m|].
  - intros [= <-]. destruct (group m 1); reflexivity.
  - destruct (re_match SSH_RE (strip url)) as [m|]; [|discriminate].
    intros [= <-]. destruct (group m 1); reflexivity.
Qed.

Lemma detect_github_repo_env (w : world) (v : pystr) :
  w_environ w = Some v -> nonempty (strip v) = true ->
  _detect_github_repo w = (Ok (Some (strip v)), w).
Proof.
  intros Hv Hne. unfold _detect_github_repo, bind, reads, ret.
  now rewrite Hv, Hne.
Qed.

Lemma detect_github_repo_fallback (w : world) :
  nonempty (strip (match w_environ w with Some v => v | None => [] end))
  = false ->
  _detect_github_repo w
  = (Ok (match w_git_remote w with
         | Some out => _parse_github_repo_from_remote (strip out)
         | None => None
         end),
     add_event Ev_git_config w).
Proof.
  intros Hne.
  unfold _detect_github_repo, _run_git, bind, reads, ret, emit.
  rewrite Hne. cbn [w_git_remote add_event].
  destruct (w_git_remote w) as [out|]; cbn [option_map truthy]; [|reflexivity].
  destruct (nonempty (strip out)) eqn:E.
  - destruct (_parse_github_repo_from_remote (strip out)) as [p|] eqn:P;
      cbn [truthy]; [|reflexivity].
    now rewrite (parse_github_repo_nonempty _ P).
  - destruct (strip out) eqn:S; [reflexivity | discriminate].
Qed.

(** Detection always returns, leaves the world as it is but for the trace,
    and writes nothing. *)
Lemma detect_github_repo_effect (w : world) :
  exists repo tr,
    _detect_github_repo w
    = (Ok repo, World (w_root w) (w_environ w) (w_git_remote w) (w_now w)
                      (tr ++ w_trace w)) /\
    writes tr = [] /\
    forall w', w_environ w' = w_environ w -> w_git_remote w' = w_git_remote w ->
      fst (_detect_github_repo w') = Ok repo.
Proof.
  destruct (nonempty (strip (match w_environ w with Some v => v | None => [] end)))
    eqn:E.
  - destruct (w_environ w) as [v|] eqn:Hv; [|discriminate].
    exists (Some (strip v)), []. rewrite (detect_github_repo_env _ Hv E).
    split; [destruct w; simpl in *; now subst|]. split; [reflexivity|].
    intros w' He _.
    now rewrite (detect_github_repo_env _ He E).
  - eexists _, [Ev_git_config]. rewrite (detect_github_repo_fallback _ E).
    split; [reflexivity|]. split; [reflexivity|].
    intros w' He Hg. rewrite detect_github_repo_fallback.
    + simpl. now rewrite Hg.
    + now rewrite He.
Qed.

(** ** The substitution, when it returns *)

Lemma replace_between_markers_ok_inv (text block updated : pystr) :
  _replace_between_markers text block = Ok updated ->
  exists pre mid suf,
    text = pre ++ BEGIN_MARKER ++ mid ++ END_MARKER ++ suf /\
    find pre BEGIN_MARKER = None /\
    find pre END_MARKER = None /\
    find mid END_MARKER = None /\
    updated = pre ++ BEGIN_MARKER ++ [NL] ++ block ++ END_MARKER ++ suf.
Proof.
  intros H. pose proof H as H'. rewrite replace_between_markers_unfold in H'.
  destruct (find text BEGIN_MARKER) as [b|] eqn:Fb; [|discriminate].
  destruct (find text END_MARKER) as [e|] eqn:Fe; [|discriminate].
  destruct (Nat.ltb_spec e (b + length BEGIN_MARKER)) as [Hlt|Hge];
    [discriminate|].
  destruct (markers_layout _ Fb Fe)
    as [Hlt|(pre & mid & suf & -> & Hb & He & Hpb & Hpe & Hm)]; [lia|].
  exists pre, mid, suf.
  rewrite (@replace_between_markers_layout pre mid suf block Hpb Hpe Hm) in H.
  injection H as <-. repeat split; assumption.
Qed.

Lemma find_END_after_NL (block : pystr) :
  find ([NL] ++ block) END_MARKER = option_map S (find block END_MARKER).
Proof. apply find_cons_false. reflexivity. Qed.

(** Substituting a block that holds no END marker a second time changes
    nothing. *)
Lemma replace_between_markers_idempotent (text block updated : pystr) :
  _replace_between_markers text block = Ok updated ->
  find block END_MARKER = None ->
  _replace_between_markers updated block = Ok updated.
Proof.
  intros H Hblock.
  destruct (replace_between_markers_ok_inv _ _ H)
    as (pre & mid & suf & _ & Hpb & Hpe & _ & ->).
  rewrite (app_assoc [NL] block).
  rewrite (@replace_between_markers_layout pre ([NL] ++ block) suf block);
    try assumption.
  - now rewrite <- app_assoc.
  - now rewrite find_END_after_NL, Hblock.
Qed.

Lemma no_CR_in_markers : ~ In CR BEGIN_MARKER /\ ~ In CR END_MARKER.
Proof.
  split; intros H.
  - assert (E : existsb (char_eqb CR) BEGIN_MARKER = true).
    { apply existsb_exists. exists CR. split; [assumption | apply char_eqb_refl]. }
    vm_compute in E. discriminate.
  - assert (E : existsb (char_eqb CR) END_MARKER = true).
    { apply existsb_exists. exists CR. split; [assumption | apply char_eqb_refl]. }
    vm_compute in E. discriminate.
Qed.

Lemma replace_between_markers_no_CR (text block updated : pystr) :
  _replace_between_markers text block = Ok updated ->
  ~ In CR text -> ~ In CR block -> ~ In CR updated.
Proof.
  intros H Ht Hb.
  destruct (replace_between_markers_ok_inv _ _ H)
    as (pre & mid & suf & -> & _ & _ & _ & ->).
  destruct no_CR_in_markers as [HB HE].
  intros Hin. rewrite !in_app_iff in Hin. rewrite !in_app_iff in Ht.
  destruct Hin as [?|[?|[Hnl|[?|[?|?]]]]]; try tauto.
  destruct Hnl as [Hnl|[]]. discriminate Hnl.
Qed.

(** ** One run of [main] *)

Lemma writes_app (a b : list event) : writes (a ++ b) = writes a ++ writes b.
Proof. apply filter_app. Qed.

Lemma stored_set_file (name text : pystr) (d : listing) (n : node) :
  lookup name d = Some n -> stored name text d = set_file name text d.
Proof. unfold stored. now intros ->. Qed.

(** A run that raises has written nothing, unless what it raises is the
    error of the write, which leaves [README.md] empty. *)
Lemma main_raise_no_write (w w' : world) (e : exn) :
  main w = (Raise e, w') ->
  (e <> UnicodeEncodeError /\
   w_root w' = w_root w /\ writes (w_trace w') = writes (w_trace w)) \/
  (e = UnicodeEncodeError /\
   w_root w' = set_file README_md [] (w_root w) /\
   writes (w_trace w') = Ev_truncate README_md :: writes (w_trace w)).
Proof.
  run_main. intros H.
  destruct (lookup README_md (w_root w)) as [nd|] eqn:L.
  2:{ injection H as <- <-. left. repeat split. discriminate. }
  destruct (detect_github_repo_effect w) as (repo & tr & D & Wr & _).
  rewrite D in H. cbn [w_root w_now] in H.
  assert (G : forall e0,
             e0 <> UnicodeEncodeError ->
             (Raise e0 : result unit,
              World (w_root w) (w_environ w) (w_git_remote w) (w_now w)
                    (tr ++ w_trace w)) = (Raise e, w') ->
             (e <> UnicodeEncodeError /\
              w_root w' = w_root w /\
              writes (w_trace w') = writes (w_trace w)) \/
             (e = UnicodeEncodeError /\
              w_root w' = set_file README_md [] (w_root w) /\
              writes (w_trace w')
              = Ev_truncate README_md :: writes (w_trace w))).
  { intros e0 Hne [= <- <-]. left. simpl. rewrite writes_app, Wr.
    repeat split. exact Hne. }
  destruct (_list_modules (w_root w)) as [items|e1] eqn:Hitems.
  2:{ unfold _list_modules in Hitems.
      apply list_modules_loop_raise in Hitems.
      destruct Hitems as (n & es & _ & _ & Hl).
      apply first_h1_from_readme_raise in Hl.
      apply (G e1); [|exact H].
      destruct Hl as [(-> & _)|(-> & _)]; discriminate. }
  rewrite L in H. destruct nd as [c|d]; cbn [_read_text] in H;
    [|now apply (G IsADirectoryError)].
  destruct (is_utf8 c); [|now apply (G UnicodeDecodeError)].
  destruct (_replace_between_markers _ _) as [updated|e1] eqn:Hr.
  2:{ apply (G e1); [|exact H]. rewrite replace_between_markers_unfold in Hr.
      destruct (find _ BEGIN_MARKER); [|now injection Hr as <-].
      destruct (find _ END_MARKER); [|now injection Hr as <-].
      destruct (_ <? _); [now injection Hr as <-|discriminate]. }
  destruct (str_eqb updated (universal_newlines c)); [discriminate|].
  unfold _write_text in H. cbn [w_root] in H. rewrite L in H.
  destruct (is_utf8 updated).
  - destruct (negb (truthy repo)); discriminate.
  - rewrite (stored_set_file _ _ _ L) in H.
    injection H as <- <-. right. simpl. rewrite writes_app, Wr.
    repeat split.
Qed.

(** A run that reaches the substitution and sees it raise stops there;
    a run whose README does not decode stops before. *)
Lemma main_replace_raises (w : world) (c : pystr) (repo : option pystr)
    (items : list NotebookItem) (e : exn) :
  lookup README_md (w_root w) = Some (File c) ->
  fst (_detect_github_repo w) = Ok repo ->
  _list_modules (w_root w) = Ok items ->
  _replace_between_markers (universal_newlines c)
    (_render_list items repo (w_now w)) = Raise e ->
  fst (main w) = Raise (if is_utf8 c then e else UnicodeDecodeError).
Proof.
  intros L D Hitems Hr. run_main. rewrite L.
  destruct (detect_github_repo_effect w) as (repo' & tr & D' & _ & _).
  rewrite D' in D |- *. simpl in D. injection D as ->.
  cbn [w_root w_now]. rewrite Hitems, L. cbn [_read_text].
  destruct (is_utf8 c); [now rewrite Hr | reflexivity].
Qed.

(** A run whose substitution returns its input prints that nothing
    changed, and writes nothing. *)
Lemma main_noop (w : world) (c : pystr) (repo : option pystr)
    (items : list NotebookItem) :
  lookup README_md (w_root w) = Some (File c) ->
  is_utf8 c = true ->
  fst (_detect_github_repo w) = Ok repo ->
  _list_modules (w_root w) = Ok items ->
  _replace_between_markers (universal_newlines c)
    (_render_list items repo (w_now w)) = Ok (universal_newlines c) ->
  exists tr,
    writes tr = [] /\
    main w = (Ok tt,
              World (w_root w) (w_environ w) (w_git_remote w) (w_now w)
                    (Ev_print Msg_no_update :: tr ++ w_trace w)).
Proof.
  intros L U D Hitems Hr.
  destruct (detect_github_repo_effect w) as (repo' & tr & D' & Wr & _).
  exists tr. split; [assumption|].
  run_main. rewrite L, D'. rewrite D' in D. simpl in D. injection D as ->.
  cbn [w_root w_now]. rewrite Hitems, L. cbn [_read_text]. rewrite U.
  rewrite Hr, str_eqb_refl. reflexivity.
Qed.

(** What a run that returns has done. *)
Lemma main_ok_inv (w w1 : world) :
  main w = (Ok tt, w1) ->
  exists c repo items updated,
    lookup README_md (w_root w) = Some (File c) /\
    is_utf8 c = true /\
    fst (_detect_github_repo w) = Ok repo /\
    _list_modules (w_root w) = Ok items /\
    _replace_between_markers (universal_newlines c)
      (_render_list items repo (w_now w)) = Ok updated /\
    w_environ w1 = w_environ w /\
    w_git_remote w1 = w_git_remote w /\
    w_now w1 = w_now w /\
    ((updated = universal_newlines c /\ w_root w1 = w_root w /\
      writes (w_trace w1) = writes (w_trace w)) \/
     (updated <> universal_newlines c /\
      is_utf8 updated = true /\
      w_root w1 = set_file README_md updated (w_root w) /\
      writes (w_trace w1)
      = Ev_write README_md updated :: writes (w_trace w))).
Proof.
  run_main. intros H.
  destruct (lookup README_md (w_root w)) as [nd|] eqn:L; [|discriminate].
  destruct (detect_github_repo_effect w) as (repo & tr & D & Wr & _).
  rewrite D in H. cbn [w_root w_now] in H.
  destruct (_list_modules (w_root w)) as [items|e1]; [|discriminate].
  rewrite L in H. destruct nd as [c|d]; cbn [_read_text] in H;
    [|discriminate].
  destruct (is_utf8 c) eqn:U; [|discriminate].
  destruct (_replace_between_markers _ _) as [updated|e1] eqn:Hr;
    [|discriminate].
  exists c, repo, items, updated. rewrite D.
  repeat (split; [first [assumption | reflexivity]|]).
  destruct (str_eqb updated (universal_newlines c)) eqn:E.
  - apply str_eqb_eq in E. injection H as <-. simpl.
    rewrite writes_app, Wr. repeat split. left. repeat split. assumption.
  - assert (Hne : updated <> universal_newlines c).
    { intros ->. rewrite str_eqb_refl in E. discriminate. }
    unfold _write_text in H. cbn [w_root] in H. rewrite L in H.
    destruct (is_utf8 updated) eqn:U'; [|discriminate].
    rewrite (stored_set_file _ _ _ L) in H.
    destruct (negb (truthy repo)); injection H as <-; simpl;
      rewrite writes_app, Wr; repeat split; right; repeat split; assumption.
Qed.

(** ** The first heading of a README *)

Lemma first_h1_loop_None (lines : list pystr) :
  first_h1_loop lines = None <-> no_heading lines.
Proof.
  unfold no_heading. induction lines as [|line rest IH]; simpl.
  - split; [intros _ l [] | reflexivity].
  - destruct (re_match H1_RE line) as [m|] eqn:E.
    + split; [discriminate|]. intros H.
      rewrite (H line (or_introl eq_refl)) in E. discriminate.
    + rewrite IH. split.
      * intros H l [<-|Hl]; [assumption | now apply H].
      * intros H l Hl. apply H. now right.
Qed.

Lemma first_h1_loop_Some (lines : list pystr) (t : pystr) :
  first_h1_loop lines = Some t <->
  exists captured, first_heading lines captured /\ t = strip captured.
Proof.
  induction lines as [|line rest IH]; simpl.
  - split; [discriminate|].
    intros (g & (l1 & l & l2 & m & E & _) & _). destruct l1; discriminate.
  - destruct (re_match H1_RE line) as [m|] eqn:E.
    + split.
      * intros [= <-]. exists (group m 1). split; [|reflexivity].
        exists [], line, rest, m. repeat split; try assumption.
        intros l [].
      * intros (g & (l1 & l & l2 & m' & El & Hno & Hm & ->) & ->).
        destruct l1 as [|x l1].
        -- injection El as <- <-. rewrite E in Hm. now injection Hm as <-.
        -- injection El as <- _. rewrite (Hno line (or_introl eq_refl)) in E.
           discriminate.
    + rewrite IH. split.
      * intros (g & (l1 & l & l2 & m & -> & Hno & Hm & ->) & ->).
        exists (group m 1). split; [|reflexivity].
        exists (line :: l1), l, l2, m. repeat split; try assumption.
        intros x [<-|Hx]; [assumption | now apply Hno].
      * intros (g & (l1 & l & l2 & m & El & Hno & Hm & ->) & ->).
        destruct l1 as [|x l1].
        -- injection El as <- _. rewrite E in Hm. discriminate.
        -- injection El as <- ->. exists (group m 1). split; [|reflexivity].
           exists l1, l, l2, m. repeat split; try assumption.
           intros y Hy. apply Hno. now right.
Qed.

Lemma mem_In (x : pystr) (s : list pystr) : mem x s = true <-> In x s.
Proof.
  unfold mem. rewrite existsb_exists. split.
  - intros (y & Hy & E). apply str_eqb_eq in E. now subst.
  - intros H. exists x. split; [assumption | apply str_eqb_refl].
Qed.

Lemma retained_inv (name : pystr) (entries : listing) :
  retained name (Dir entries) = true ->
  ~ In name EXCLUDE_DIRS /\ startswith name (str ".") = false /\
  glob_ipynb_files entries <> [].
Proof.
  unfold retained. rewrite !andb_true_iff, !negb_true_iff.
  intros [[H1 H2] H3]. repeat split; try assumption.
  - intros H. apply mem_In in H. congruence.
  - intros E. rewrite E in H3. discriminate.
Qed.

Lemma sorted_root_names (root : listing) :
  StronglySorted str_le (map fst (sorted fst root)).
Proof. apply StronglySorted_map. apply (sorted_sorted fst root). Qed.

Lemma sorted_root_NoDup (root : listing) :
  NoDup (map fst root) -> NoDup (map fst (sorted fst root)).
Proof.
  apply Permutation_NoDup. apply Permutation_map. symmetry.
  apply sorted_perm.
Qed.

Lemma NoDup_fst_functional (d : listing) (n : pystr) (x y : node) :
  NoDup (map fst d) -> In (n, x) d -> In (n, y) d -> x = y.
Proof.
  induction d as [|[n0 z] d IH]; simpl; [tauto|].
  intros Hn. inversion Hn as [|? ? Hnot Hn']; subst.
  intros [Hx|Hx] [Hy|Hy].
  - congruence.
  - injection Hx as -> ->. exfalso. apply Hnot. apply in_map_iff.
    now exists (n, y).
  - injection Hy as -> ->. exfalso. apply Hnot. apply in_map_iff.
    now exists (n, x).
  - now apply IH.
Qed.

(** ** The heading pattern, read off the line *)

Lemma or_else_None_r {A : Type} (a : option A) : or_else a None = a.
Proof. now destruct a. Qed.

Lemma star_loop_greedy (p : char -> bool) (k : mstate -> option mstate)
    (groups : list (nat * pystr)) (rest : pystr) :
  forall fuel pos,
    length rest <= fuel ->
    star_loop (step_char p) true k fuel (MState pos rest groups)
    = greedy_run p k pos groups rest.
Proof.
  induction rest as [|c rest IH]; intros [|fuel] pos Hlen; simpl in Hlen;
    try lia; try reflexivity.
  cbn [star_loop greedy_run]. unfold step_char at 1. cbn [m_rest].
  destruct (p c); [|reflexivity].
  unfold advance. cbn [m_rest m_pos m_groups length].
  replace (length rest <? S (length rest)) with true
    by (symmetry; apply Nat.ltb_lt; lia).
  rewrite IH by lia. reflexivity.
Qed.

Lemma star_loop_lazy (p : char -> bool) (k : mstate -> option mstate)
    (groups : list (nat * pystr)) (rest : pystr) :
  forall fuel pos,
    length rest <= fuel ->
    star_loop (step_char p) false k fuel (MState pos rest groups)
    = lazy_run p k pos groups rest.
Proof.
  induction rest as [|c rest IH]; intros [|fuel] pos Hlen; simpl in Hlen;
    try lia.
  - cbn [star_loop lazy_run]. now rewrite or_else_None_r.
  - cbn [star_loop lazy_run]. unfold step_char. cbn [m_rest].
    reflexivity.
  - cbn [star_loop lazy_run]. unfold step_char at 1. cbn [m_rest].
    destruct (p c); [|reflexivity].
    unfold advance. cbn [m_rest m_pos m_groups length].
    replace (length rest <? S (length rest)) with true
      by (symmetry; apply Nat.ltb_lt; lia).
    rewrite IH by lia. reflexivity.
Qed.

Lemma lstrip_In (c : char) (s : pystr) : In c (lstrip s) -> In c s.
Proof.
  induction s as [|x s IH]; simpl; [tauto|].
  destruct (isspace x); [intros H; right; now apply IH | tauto].
Qed.

Lemma lstrip_app (a b : pystr) :
  lstrip (a ++ b) = if forallb isspace a then lstrip b else lstrip a ++ b.
Proof.
  induction a as [|x a IH]; simpl; [reflexivity|].
  destruct (isspace x); simpl; [exact IH | reflexivity].
Qed.

Lemma forallb_rev {A : Type} (f : A -> bool) (l : list A) :
  forallb f (rev l) = forallb f l.
Proof.
  induction l as [|x l IH]; simpl; [reflexivity|].
  rewrite forallb_app, IH. simpl. rewrite andb_true_r. apply andb_comm.
Qed.

Lemma lstrip_all (s : pystr) : forallb isspace s = true -> lstrip s = [].
Proof.
  intros H. apply lstrip_nil. intros c Hc.
  rewrite forallb_forall in H. now apply H.
Qed.

Lemma rstrip_all (s : pystr) : forallb isspace s = true -> rstrip s = [].
Proof.
  intros H. unfold rstrip. rewrite lstrip_all; [reflexivity|].
  now rewrite forallb_rev.
Qed.

Lemma rstrip_cons (d : char) (r : pystr) :
  rstrip (d :: r)
  = if forallb isspace (d :: r) then [] else d :: rstrip r.
Proof.
  unfold rstrip. simpl rev. rewrite lstrip_app, forallb_rev.
  simpl forallb. destruct (forallb isspace r) eqn:E.
  - rewrite andb_true_r. simpl. rewrite lstrip_all by now rewrite forallb_rev.
    destruct (isspace d); reflexivity.
  - rewrite andb_false_r. rewrite rev_app_distr. reflexivity.
Qed.

(** A greedy run of blanks in front of a continuation that wants something
    else than a blank ends where the blanks end. *)
Lemma greedy_run_lstrip (k : mstate -> option mstate)
    (groups : list (nat * pystr)) (rest : pystr) :
  (forall pos c r, isspace c = true -> k (MState pos (c :: r) groups) = None) ->
  forall pos, exists pos',
    greedy_run isspace k pos groups rest
    = k (MState pos' (lstrip rest) groups).
Proof.
  intros Hk. induction rest as [|c rest IH]; intros pos; simpl.
  - now exists pos.
  - destruct (isspace c) eqn:E.
    + destruct (IH (S pos)) as [pos' ->]. exists pos'.
      rewrite (Hk pos c rest E). apply or_else_None_r.
    + now exists pos.
Qed.

(** A greedy run in front of a continuation that wants the end of the
    subject goes through when the whole rest is in the class. *)
Lemma greedy_run_to_end (p : char -> bool) (k : mstate -> option mstate)
    (groups : list (nat * pystr)) (rest : pystr) :
  (forall pos c r, In c rest -> k (MState pos (c :: r) groups) = None) ->
  forall pos, exists pos',
    greedy_run p k pos groups rest
    = if forallb p rest then k (MState pos' [] groups) else None.
Proof.
  induction rest as [|c rest IH]; intros Hk pos; simpl.
  - now exists pos.
  - assert (Hk' : forall pos c0 r, In c0 rest ->
                    k (MState pos (c0 :: r) groups) = None)
      by (intros; apply Hk; now right).
    rewrite (Hk pos c rest (or_introl eq_refl)).
    destruct (p c); simpl.
    + destruct (IH Hk' (S pos)) as [pos' ->]. exists pos'.
      apply or_else_None_r.
    + now exists pos.
Qed.

(** [\s*$] at the end of the pattern. *)
Lemma match_trailing_blanks (rest : pystr) (pos : nat)
    (groups : list (nat * pystr)) :
  ~ In NL rest ->
  option_map m_groups
    (rmatch (seq [Star true WS; Eos]) (fun st => Some st)
       (MState pos rest groups))
  = if forallb isspace rest then Some groups else None.
Proof.
  intros Hnl. cbn [seq rmatch m_rest].
  change (rmatch WS) with (step_char isspace).
  rewrite star_loop_greedy by reflexivity.
  match goal with
  | |- context [greedy_run isspace ?k pos groups rest] =>
      destruct (@greedy_run_to_end isspace k groups rest) with (pos := pos)
        as [pos' ->]
  end.
  - intros pos0 c r Hc. cbn [m_rest].
    destruct r; [|reflexivity].
    destruct (char_eqb c NL) eqn:E; [|reflexivity].
    apply char_eqb_eq in E. subst. contradiction.
  - destruct (forallb isspace rest); reflexivity.
Qed.

(** [(.+?)\s*$]: the group is the shortest text, of one character at
    least, that leaves blanks only. *)
Lemma lazy_run_capture (c : char) (groups : list (nat * pystr))
    (r : pystr) :
  forall (p : pystr) (pos : nat),
    ~ In NL r ->
    option_map m_groups
      (lazy_run (fun x => negb (char_eqb x NL))
         (fun st' =>
            rmatch (seq [Star true WS; Eos]) (fun st => Some st)
              (MState (m_pos st') (m_rest st')
                 ((1, firstn (length (c :: p ++ r) - length (m_rest st'))
                        (c :: p ++ r)) :: m_groups st')))
         pos groups r)
    = Some ((1, c :: p ++ rstrip r) :: groups).
Proof.
  induction r as [|d r IH]; intros p pos Hnl.
  - cbn [lazy_run m_pos m_rest m_groups].
    match goal with
    | |- context [rmatch ?re ?k ?st] =>
        pose proof (@match_trailing_blanks [] pos
                      ((1, firstn (length (c :: p ++ []) - length (@nil char))
                             (c :: p ++ [])) :: groups) Hnl) as H;
        destruct (rmatch re k st) as [x|]
    end; simpl in H; [|discriminate].
    simpl. injection H as ->. rewrite firstn_all. reflexivity.
  - assert (Hd : d <> NL) by (intros ->; apply Hnl; now left).
    assert (Hr : ~ In NL r) by (intros H; apply Hnl; now right).
    cbn [lazy_run m_pos m_rest m_groups].
    pose proof (@match_trailing_blanks (d :: r) pos
                  ((1, firstn (length (c :: p ++ d :: r) - length (d :: r))
                         (c :: p ++ d :: r)) :: groups) Hnl) as H.
    assert (F : firstn (length (c :: p ++ d :: r) - length (d :: r))
                  (c :: p ++ d :: r) = c :: p).
    { change (c :: p ++ d :: r) with ((c :: p) ++ d :: r).
      apply firstn_exact. rewrite length_app. lia. }
    rewrite F in H |- *.
    rewrite rstrip_cons.
    destruct (forallb isspace (d :: r)) eqn:E.
    + destruct (rmatch _ _ _) as [x|]; simpl in H; [|discriminate].
      simpl. injection H as ->. now rewrite app_nil_r.
    + destruct (rmatch _ _ _) as [x|]; simpl in H; [discriminate|].
      cbn [or_else].
      replace (negb (char_eqb d NL)) with true.
      2:{ destruct (char_eqb d NL) eqn:Ed; [|reflexivity].
          apply char_eqb_eq in Ed. contradiction. }
      specialize (IH (p ++ [d]) (S pos) Hr).
      rewrite <- !app_assoc in IH. simpl in IH. exact IH.
Qed.

(** [(.+?)\s*$] from a rest that is not empty. *)
Lemma match_group_to_end (c : char) (v : pystr) (pos : nat)
    (groups : list (nat * pystr)) :
  ~ In NL (c :: v) ->
  option_map m_groups
    (rmatch (seq [Group 1 (Plus false Dot); Star true WS; Eos])
       (fun st => Some st) (MState pos (c :: v) groups))
  = Some ((1, c :: rstrip v) :: groups).
Proof.
  intros Hnl.
  assert (Hc : negb (char_eqb c NL) = true).
  { destruct (char_eqb c NL) eqn:E; [|reflexivity].
    apply char_eqb_eq in E. subst. exfalso. apply Hnl. now left. }
  assert (Hv : ~ In NL v) by (intros H; apply Hnl; now right).
  change (seq [Group 1 (Plus false Dot); Star true WS; Eos])
    with (Cat (Group 1 (Cat Dot (Star false Dot)))
              (seq [Star true WS; Eos])).
  cbn [rmatch m_rest]. unfold step_char at 1. cbn [m_rest]. rewrite Hc.
  unfold advance. cbn [m_rest m_pos m_groups].
  change (rmatch Dot) with (step_char (fun x => negb (char_eqb x NL))).
  rewrite star_loop_lazy by reflexivity.
  apply (@lazy_run_capture c groups v [] (S pos) Hv).
Qed.

Lemma match_group_at_end (pos : nat) (groups : list (nat * pystr)) :
  rmatch (seq [Group 1 (Plus false Dot); Star true WS; Eos])
    (fun st => Some st) (MState pos [] groups) = None.
Proof. reflexivity. Qed.

(** The blanks after the ["#"] and the group: the run of blanks gives back
    its last blank when nothing follows it. *)
Lemma greedy_run_before_group (w : char) (groups : list (nat * pystr))
    (u : pystr) :
  forall pos,
    ~ In NL u ->
    option_map m_groups
      (greedy_run isspace
         (rmatch (seq [Group 1 (Plus false Dot); Star true WS; Eos])
            (fun st => Some st)) pos groups u)
    = match lstrip u with
      | d :: v => Some ((1, d :: rstrip v) :: groups)
      | [] => match u with
              | [] => None
              | _ :: _ => Some ((1, [last u w]) :: groups)
              end
      end.
Proof.
  induction u as [|d r IH]; intros pos Hnl; [reflexivity|].
  assert (Hr : ~ In NL r) by (intros H; apply Hnl; now right).
  cbn [greedy_run lstrip].
  pose proof (@match_group_to_end d r pos groups Hnl) as Hg.
  destruct (isspace d) eqn:E; [|exact Hg].
  specialize (IH (S pos) Hr).
  destruct (greedy_run isspace _ (S pos) groups r) as [x|]; simpl in IH.
  - simpl. rewrite IH. destruct (lstrip r); [|reflexivity].
    destruct r; [discriminate | reflexivity].
  - cbn [or_else]. rewrite Hg.
    destruct (lstrip r) as [|e v] eqn:L; [|discriminate].
    destruct r; [|discriminate]. reflexivity.
Qed.

Lemma isspace_not_hash (c : char) :
  isspace c = true -> char_eqb (ch "#") c = false.
Proof.
  intros H. destruct (char_eqb (ch "#") c) eqn:E; [|reflexivity].
  apply char_eqb_eq in E. subst. vm_compute in H. discriminate.
Qed.

(** The heading pattern on a line without line feed. *)
Lemma H1_RE_capture (line : pystr) :
  ~ In NL line ->
  option_map (fun m => group m 1) (re_match H1_RE line) = h1_capture line.
Proof.
  intros Hnl. unfold re_match, h1_capture.
  change H1_RE
    with (Cat Bos (Cat (Star true WS)
            (Cat (Lit (ch "#"))
               (Cat (Cat WS (Star true WS))
                  (seq [Group 1 (Plus false Dot); Star true WS; Eos]))))).
  cbn [rmatch m_pos m_rest].
  change (rmatch WS) with (step_char isspace).
  rewrite star_loop_greedy by reflexivity.
  match goal with
  | |- context [greedy_run isspace ?k 0 [] line] =>
      destruct (@greedy_run_lstrip k [] line) with (pos := 0) as [pos' ->]
  end.
  { intros pos c r Hc. unfold step_char. cbn [m_rest].
    now rewrite (isspace_not_hash c Hc). }
  assert (Hl : ~ In NL (lstrip line))
    by (intros H; apply Hnl; now apply lstrip_In).
  destruct (lstrip line) as [|c [|w u]]; [reflexivity| |].
  - unfold step_char. cbn [m_rest].
    destruct (char_eqb (ch "#") c); [|reflexivity].
    reflexivity.
  - unfold step_char at 1. cbn [m_rest].
    unfold char_eqb at 2. rewrite (N.eqb_sym c). fold (char_eqb (ch "#") c).
    destruct (char_eqb (ch "#") c); [|reflexivity].
    unfold advance. cbn [m_rest m_pos m_groups andb].
    unfold step_char at 1. cbn [m_rest].
    destruct (isspace w) eqn:Ew; [|reflexivity].
    unfold advance. cbn [m_rest m_pos m_groups].
    rewrite star_loop_greedy by reflexivity.
    assert (Hu : ~ In NL u) by (intros H; apply Hl; right; now right).
    pose proof (@greedy_run_before_group w [] u (S (S pos')) Hu) as H.
    destruct (greedy_run isspace _ (S (S pos')) [] u) as [x|]; simpl in H |- *.
    + destruct (lstrip u).
      * destruct u; [discriminate|]. injection H as ->. reflexivity.
      * injection H as ->. reflexivity.
    + destruct (lstrip u); [|discriminate].
      destruct u; [reflexivity | discriminate].
Qed.

Lemma lstrip_idem (s : pystr) : lstrip (lstrip s) = lstrip s.
Proof.
  destruct (lstrip_head s) as [->|(c & r & -> & Hc)]; [reflexivity|].
  simpl. now rewrite Hc.
Qed.

Lemma rstrip_idem (s : pystr) : rstrip (rstrip s) = rstrip s.
Proof. unfold rstrip. now rewrite rev_involutive, lstrip_idem. Qed.

Lemma strip_of_capture (w : char) (u : pystr) :
  match lstrip u with
  | d :: v => strip (d :: rstrip v) = strip u
  | [] => u <> [] -> strip [last u w] = strip u
  end.
Proof.
  unfold strip at 2. destruct (lstrip_head u) as [E|(d & v & E & Hd)].
  - rewrite E. intros Hne.
    assert (Hl : isspace (last u w) = true).
    { apply (proj1 (lstrip_nil u) E). destruct u as [|x u]; [congruence|].
      apply (@exists_last _ (x :: u)) in Hne. destruct Hne as (l & a & ->).
      rewrite last_last. apply in_or_app. right. now left. }
    unfold strip. simpl. rewrite Hl. reflexivity.
  - rewrite E. unfold strip. simpl lstrip. rewrite Hd.
    rewrite !rstrip_cons. simpl forallb. rewrite Hd. simpl.
    rewrite rstrip_idem, E, rstrip_cons. simpl forallb. now rewrite Hd.
Qed.

(** The title a line gives: the stripped group of the heading pattern is
    the stripped text behind the ["#"] and its blank. *)
Lemma H1_RE_title (line : pystr) :
  ~ In NL line ->
  option_map (fun m => strip (group m 1)) (re_match H1_RE line)
  = heading_title line.
Proof.
  intros Hnl. pose proof (H1_RE_capture line Hnl) as H.
  unfold h1_capture in H. unfold heading_title.
  destruct (re_match H1_RE line) as [m|]; cbn [option_map] in H |- *.
  - destruct (lstrip line) as [|c [|w u]]; try discriminate.
    destruct (char_eqb c (ch "#") && isspace w); [|discriminate].
    pose proof (strip_of_capture w u) as S.
    destruct (lstrip u) as [|d v] eqn:L.
    + destruct u as [|x u]; [discriminate|]. injection H as ->.
      cbn [andb nonempty]. f_equal. apply S. discriminate.
    + injection H as ->.
      destruct u as [|x u]; [discriminate L|]. cbn [andb nonempty].
      now f_equal.
  - destruct (lstrip line) as [|c [|w u]]; try reflexivity.
    destruct (char_eqb c (ch "#") && isspace w); [|reflexivity].
    destruct (lstrip u) as [|d v]; [|discriminate].
    destruct u; [reflexivity | discriminate].
Qed.

Lemma splitlines_no_linebreak (s : pystr) (l : pystr) (c : char) :
  In l (splitlines s) -> In c l -> islinebreak c = false.
Proof.
  assert (G : forall n s, length s <= n ->
                forall l, In l (splitlines s) ->
                  forall c, In c l -> islinebreak c = false).
  { clear. induction n as [|n IH]; intros [|x s] Hlen l Hl c Hc;
      simpl in *; try tauto; try lia.
    destruct (islinebreak x) eqn:E.
    - destruct Hl as [<-|Hl]; [destruct Hc|].
      destruct (char_eqb x CR).
      + destruct s as [|d s]; [destruct Hl|].
        destruct (char_eqb d NL).
        * apply (IH s) with (l := l); [simpl in Hlen; lia | assumption ..].
        * apply (IH (d :: s)) with (l := l); [lia | assumption ..].
      + apply (IH s) with (l := l); [lia | assumption ..].
    - assert (IHs : forall l, In l (splitlines s) ->
                      forall c, In c l -> islinebreak c = false)
        by (apply IH; lia).
      destruct (splitlines s) as [|l0 ls].
      + destruct Hl as [<-|[]]. destruct Hc as [<-|[]]. exact E.
      + destruct Hl as [<-|Hl].
        * destruct Hc as [<-|Hc]; [exact E|].
          apply (IHs l0 (or_introl eq_refl) c Hc).
        * apply (IHs l (or_intror Hl) c Hc). }
  intros Hl Hc. exact (G (length s) s (le_n _) l Hl c Hc).
Qed.

Lemma readme_lines_no_NL (content l : pystr) :
  In l (readme_lines content) -> ~ In NL l.
Proof.
  intros Hl Hc. apply (@splitlines_no_linebreak _ _ _ Hl) in Hc.
  vm_compute in Hc. discriminate.
Qed.

(** The loop of [_first_h1_from_readme] over the lines of a file. *)
Lemma first_h1_loop_title (lines : list pystr) :
  (forall l, In l lines -> ~ In NL l) ->
  first_h1_loop lines = first_title lines.
Proof.
  induction lines as [|line rest IH]; intros H; simpl; [reflexivity|].
  rewrite <- (H1_RE_title line) by (apply H; now left).
  destruct (re_match H1_RE line); simpl; [reflexivity|].
  apply IH. intros l Hl. apply H. now right.
Qed.

(** * The claims *)

(** ** Marker substitution: the frame *)

(** C1. When both markers occur and the first END marker starts at or
    after the end of the first BEGIN marker, the substitution returns the
    text up to and including that BEGIN marker, a line feed, the new block,
    and the text from that END marker on, whatever the block holds. *)
Theorem replace_between_markers_frame (text block : pystr) (b e : nat) :
  first_occurrence BEGIN_MARKER text b ->
  first_occurrence END_MARKER text e ->
  b + length BEGIN_MARKER <= e ->
  exists pre mid suf,
    text = pre ++ BEGIN_MARKER ++ mid ++ END_MARKER ++ suf /\
    length pre = b /\
    length (pre ++ BEGIN_MARKER ++ mid) = e /\
    _replace_between_markers text block
    = Ok (pre ++ BEGIN_MARKER ++ [NL] ++ block ++ END_MARKER ++ suf).
Proof.
  intros Hb He Hle. apply find_Some in Hb, He.
  destruct (markers_layout _ Hb He)
    as [Hlt|(pre & mid & suf & -> & Hpre & Hmid & Hpb & Hpe & Hm)]; [lia|].
  exists pre, mid, suf. split; [reflexivity|]. split; [assumption|]. split.
  - rewrite !length_app. lia.
  - now apply replace_between_markers_layout.
Qed.

Lemma replace_between_markers_frame_witness :
  first_occurrence BEGIN_MARKER example_readme 12 /\
  first_occurrence END_MARKER example_readme 52 /\
  exists pre mid suf,
    example_readme = pre ++ BEGIN_MARKER ++ mid ++ END_MARKER ++ suf /\
    length pre = 12 /\
    length (pre ++ BEGIN_MARKER ++ mid) = 52 /\
    _replace_between_markers example_readme (END_MARKER ++ BEGIN_MARKER)
    = Ok (pre ++ BEGIN_MARKER ++ [NL] ++ (END_MARKER ++ BEGIN_MARKER)
          ++ END_MARKER ++ suf).
Proof.
  assert (Hb : first_occurrence BEGIN_MARKER example_readme 12)
    by (apply find_Some; vm_compute; reflexivity).
  assert (He : first_occurrence END_MARKER example_readme 52)
    by (apply find_Some; vm_compute; reflexivity).
  split; [exact Hb|]. split; [exact He|].
  apply (@replace_between_markers_frame example_readme
           (END_MARKER ++ BEGIN_MARKER) 12 52 Hb He).
  vm_compute. repeat constructor.
Defined.

(** ** Marker substitution: the failures *)

Lemma replace_between_markers_raise (text block : pystr) (x : exn) :
  _replace_between_markers text block = Raise x ->
  (x = RuntimeError_markers_missing /\
   (find text BEGIN_MARKER = None \/ find text END_MARKER = None)) \/
  (x = RuntimeError_marker_order /\
   exists b e, find text BEGIN_MARKER = Some b /\
               find text END_MARKER = Some e /\ e < b).
Proof.
  rewrite replace_between_markers_unfold.
  destruct (find text BEGIN_MARKER) as [b|] eqn:Fb.
  2:{ intros [= <-]. left. split; [reflexivity | now left]. }
  destruct (find text END_MARKER) as [e|] eqn:Fe.
  2:{ intros [= <-]. left. split; [reflexivity | now right]. }
  destruct (Nat.ltb_spec e (b + length BEGIN_MARKER)) as [Hlt|Hge];
    [|discriminate].
  intros [= <-]. right. split; [reflexivity|]. exists b, e.
  repeat split.
  destruct (markers_layout _ Fb Fe)
    as [H|(pre & mid & suf & _ & _ & -> & _)]; [assumption | lia].
Qed.

(** C2. The substitution raises exactly when a marker is absent from the
    text (the first error) or the END marker stands before the BEGIN marker
    (the second error); and a run of [main] whose substitution raises
    raises the same error with the root as it was and no write in its
    trace.  (A [README.md] that is not UTF-8 is not read at all: the run
    then raises the decoding error, with the root as it was and no write
    either.) *)
Theorem replace_between_markers_fails_iff :
  (forall text block,
     (_replace_between_markers text block = Raise RuntimeError_markers_missing
      <-> ~ occurs BEGIN_MARKER text \/ ~ occurs END_MARKER text) /\
     (_replace_between_markers text block = Raise RuntimeError_marker_order
      <-> exists b e, first_occurrence BEGIN_MARKER text b /\
                      first_occurrence END_MARKER text e /\ e < b) /\
     (forall x, _replace_between_markers text block = Raise x ->
        x = RuntimeError_markers_missing \/ x = RuntimeError_marker_order)) /\
  (forall w c repo items x,
     lookup README_md (w_root w) = Some (File c) ->
     fst (_detect_github_repo w) = Ok repo ->
     _list_modules (w_root w) = Ok items ->
     _replace_between_markers (universal_newlines c)
       (_render_list items repo (w_now w)) = Raise x ->
     fst (main w) = Raise (if is_utf8 c then x else UnicodeDecodeError) /\
     w_root (snd (main w)) = w_root w /\
     writes (w_trace (snd (main w))) = writes (w_trace w)).
Proof.
  split; [intros text block; split; [|split]|].
  - split.
    + intros H. apply replace_between_markers_raise in H.
      destruct H as [[_ [H|H]]|[H _]]; [| |discriminate];
        apply find_None in H; tauto.
    + intros H. rewrite replace_between_markers_unfold.
      destruct H as [H|H]; apply find_None in H; rewrite H;
        [reflexivity|]. now destruct (find text BEGIN_MARKER).
  - split.
    + intros H. apply replace_between_markers_raise in H.
      destruct H as [[H _]|[_ (b & e & Hb & He & Hlt)]]; [discriminate|].
      exists b, e. repeat split; try assumption; apply find_Some; assumption.
    + intros (b & e & Hb & He & Hlt). apply find_Some in Hb, He.
      rewrite replace_between_markers_unfold, Hb, He.
      destruct (Nat.ltb_spec e (b + length BEGIN_MARKER)); [reflexivity|lia].
  - intros x H. apply replace_between_markers_raise in H.
    destruct H as [[-> _]|[-> _]]; [now left | now right].
  - intros w c repo items x L D Hitems Hr.
    pose proof (@main_replace_raises w c repo items x L D Hitems Hr) as Hm.
    split; [exact Hm|].
    destruct (main w) as [r w'] eqn:E. simpl in Hm. subst r.
    destruct (@main_raise_no_write w w' _ E) as [(_ & H)|(He & _)];
      [exact H|].
    apply replace_between_markers_raise in Hr.
    destruct (is_utf8 c); [|discriminate].
    destruct Hr as [[Hr _]|[Hr _]]; subst x; discriminate.
Qed.

Lemma replace_between_markers_fails_iff_witness :
  lookup README_md (w_root example_world_no_markers)
  = Some (File (str "# Notebooks" ++ [NL])) /\
  ~ occurs BEGIN_MARKER (str "# Notebooks" ++ [NL]) /\
  main example_world_no_markers
  = (Raise RuntimeError_markers_missing,
     add_event Ev_git_config example_world_no_markers) /\
  fst (main example_world_no_markers) = Raise RuntimeError_markers_missing /\
  w_root (snd (main example_world_no_markers))
  = w_root example_world_no_markers /\
  writes (w_trace (snd (main example_world_no_markers)))
  = writes (w_trace example_world_no_markers).
Proof.
  split; [reflexivity|].
  split; [apply find_None; vm_compute; reflexivity|].
  split; [vm_compute; reflexivity|].
  apply (proj2 replace_between_markers_fails_iff example_world_no_markers
           (str "# Notebooks" ++ [NL]) None []).
  - reflexivity.
  - reflexivity.
  - reflexivity.
  - vm_compute. reflexivity.
Defined.

(** ** A second run *)

Lemma detect_github_repo_stable (w w1 : world) (repo : option pystr) :
  fst (_detect_github_repo w) = Ok repo ->
  w_environ w1 = w_environ w -> w_git_remote w1 = w_git_remote w ->
  fst (_detect_github_repo w1) = Ok repo.
Proof.
  intros D He Hg.
  destruct (detect_github_repo_effect w) as (repo' & tr & D' & _ & Hst).
  rewrite D' in D. simpl in D. injection D as <-. now apply Hst.
Qed.

(** C3, amended. With the clock, the environment and the remote held
    fixed, and a rendered block that holds neither the END marker nor a
    carriage return, a run that follows a run that returned finds a README
    that the substitution maps to itself: it prints that nothing changed,
    writes nothing and leaves the root as it was. *)
Theorem main_second_run_noop (w w1 : world) (repo : option pystr)
    (items : list NotebookItem) :
  fst (_detect_github_repo w) = Ok repo ->
  _list_modules (w_root w) = Ok items ->
  ~ occurs END_MARKER (_render_list items repo (w_now w)) ->
  ~ In CR (_render_list items repo (w_now w)) ->
  main w = (Ok tt, w1) ->
  (exists c,
     lookup README_md (w_root w1) = Some (File c) /\
     _replace_between_markers (universal_newlines c)
       (_render_list items repo (w_now w)) = Ok (universal_newlines c)) /\
  (exists tr,
     writes tr = [] /\
     main w1 = (Ok tt,
                World (w_root w1) (w_environ w1) (w_git_remote w1) (w_now w1)
                      (Ev_print Msg_no_update :: tr ++ w_trace w1))).
Proof.
  intros D Hitems Hend Hcr Hrun.
  destruct (@main_ok_inv w w1 Hrun)
    as (c & repo' & items' & updated & L & U & D' & Hitems' & Hr & He & Hg
        & Hn & Hcases).
  rewrite D in D'. injection D' as <-.
  rewrite Hitems in Hitems'. injection Hitems' as <-.
  assert (D1 : fst (_detect_github_repo w1) = Ok repo)
    by (now apply (detect_github_repo_stable w)).
  assert (G : exists c1,
             lookup README_md (w_root w1) = Some (File c1) /\
             is_utf8 c1 = true /\
             _list_modules (w_root w1) = Ok items /\
             _replace_between_markers (universal_newlines c1)
               (_render_list items repo (w_now w1))
             = Ok (universal_newlines c1)).
  { rewrite Hn.
    destruct Hcases as [(-> & Hroot & _)|(_ & U' & Hroot & _)];
      rewrite Hroot.
    - exists c. repeat split; assumption.
    - exists updated. split; [now apply lookup_set_file with c|].
      split; [assumption|].
      split; [now rewrite list_modules_set_file|].
      assert (Hu : ~ In CR updated).
      { apply (@replace_between_markers_no_CR _ _ _ Hr);
          [apply universal_newlines_no_CR | assumption]. }
      rewrite (@universal_newlines_id _ Hu).
      apply (@replace_between_markers_idempotent _ _ _ Hr).
      now apply find_None. }
  destruct G as (c1 & L1 & U1 & Hitems1 & Hr1). split.
  - exists c1. rewrite Hn in Hr1. now split.
  - exact (@main_noop w1 c1 repo items L1 U1 D1 Hitems1 Hr1).
Qed.

Lemma main_second_run_noop_witness :
  main example_world = (Ok tt, example_world_after) /\
  readme_of example_world_after <> readme_of example_world /\
  exists tr,
    writes tr = [] /\
    main example_world_after
    = (Ok tt,
       World (w_root example_world_after) (w_environ example_world_after)
             (w_git_remote example_world_after) (w_now example_world_after)
             (Ev_print Msg_no_update :: tr ++ w_trace example_world_after)).
Proof.
  assert (Hrun : main example_world = (Ok tt, example_world_after))
    by (vm_compute; reflexivity).
  split; [exact Hrun|].
  split; [intros H; vm_compute in H; discriminate|].
  assert (D : fst (_detect_github_repo example_world)
              = Ok (Some (str "acme/widgets")))
    by (vm_compute; reflexivity).
  assert (Hitems : _list_modules (w_root example_world) = Ok example_items)
    by (vm_compute; reflexivity).
  apply (@main_second_run_noop example_world example_world_after
           (Some (str "acme/widgets")) example_items D Hitems).
  - apply find_None. vm_compute. reflexivity.
  - intros H.
    assert (E : existsb (char_eqb CR)
                  (_render_list example_items (Some (str "acme/widgets"))
                     (w_now example_world)) = true).
    { apply existsb_exists. exists CR. split; [exact H | reflexivity]. }
    vm_compute in E. discriminate.
  - exact Hrun.
Defined.

(** C3 as stated fails in two ways.  A module title that holds the END
    marker puts the marker in the rendered block: the second run stops at
    that copy, computes a longer text and writes it.  A carriage return in
    the block is read back as a line feed: the second run computes the same
    text as the first, finds it different from what it read, and writes
    again. *)
Lemma main_second_run_counterexample :
  (main marker_title_world = (Ok tt, marker_title_run1) /\
   main marker_title_run1 = (Ok tt, marker_title_run2) /\
   readme_of marker_title_run2 <> readme_of marker_title_run1 /\
   length (writes (w_trace marker_title_run1)) = 1 /\
   length (writes (w_trace marker_title_run2)) = 2) /\
  (main carriage_return_world = (Ok tt, carriage_return_run1) /\
   main carriage_return_run1 = (Ok tt, carriage_return_run2) /\
   readme_of carriage_return_run2 = readme_of carriage_return_run1 /\
   length (writes (w_trace carriage_return_run1)) = 1 /\
   length (writes (w_trace carriage_return_run2)) = 2).
Proof.
  split.
  - split; [vm_compute; reflexivity|]. split; [vm_compute; reflexivity|].
    split; [|split; vm_compute; reflexivity].
    intros H.
    apply (f_equal (fun o => match o with
                             | Some c => length c
                             | None => 0
                             end)) in H.
    vm_compute in H. discriminate.
  - split; [vm_compute; reflexivity|]. split; [vm_compute; reflexivity|].
    split; [vm_compute; reflexivity|]. split; vm_compute; reflexivity.
Qed.

(** ** Parsing the remote URL *)

(** C4. Parsing the remote URL: the HTTPS form and the SSH form of
    [github.com] give ["acme/widgets"], a URL of another host gives no
    identifier. *)
Theorem parse_github_repo_examples :
  _parse_github_repo_from_remote (str "https://github.com/acme/widgets.git")
  = Some (str "acme/widgets") /\
  _parse_github_repo_from_remote (str "git@github.com:acme/widgets.git")
  = Some (str "acme/widgets") /\
  _parse_github_repo_from_remote (str "https://gitlab.com/acme/widgets")
  = None.
Proof. repeat split; vm_compute; reflexivity. Qed.

(** ** Module enumeration: order and exclusion *)

(** C5. The items that [_list_modules] returns stand in ascending order of
    their directory names; their names are, one for one and in that order,
    the names of the entries of the sorted root that are kept, each of
    them a directory of the root; and a name of the exclusion set or a
    name that starts with a dot is the name of no item, whatever the
    directory holds. *)
Theorem list_modules_sorted_and_filtered (root : listing)
    (items : list NotebookItem) :
  _list_modules root = Ok items ->
  StronglySorted str_le (map module_dir items) /\
  map module_dir items
  = map fst (filter (fun e => retained (fst e) (snd e)) (sorted fst root)) /\
  (forall it, In it items ->
     exists entries,
       In (module_dir it, Dir entries) root /\
       retained (module_dir it) (Dir entries) = true) /\
  (forall name,
     In name EXCLUDE_DIRS \/ startswith name (str ".") = true ->
     ~ In name (map module_dir items)).
Proof.
  intros H. apply list_modules_produced in H.
  assert (K : forall it, In it items ->
                exists entries,
                  In (module_dir it, Dir entries) root /\
                  retained (module_dir it) (Dir entries) = true).
  { intros it Hit.
    destruct (produced_In H it Hit) as (entries & Hin & Hr & _).
    exists entries. split; [now apply sorted_In in Hin | exact Hr]. }
  split; [apply (produced_sorted H); apply sorted_root_names|].
  split; [exact (produced_names H)|].
  split; [exact K|].
  intros name Hx Hin. apply in_map_iff in Hin.
  destruct Hin as (it & <- & Hit).
  destruct (K it Hit) as (entries & _ & Hr).
  apply retained_inv in Hr. destruct Hr as (H1 & H2 & _).
  destruct Hx as [Hx|Hx]; [now apply H1 | congruence].
Qed.

Lemma list_modules_sorted_and_filtered_witness :
  _list_modules example_root = Ok example_items /\
  StronglySorted str_le (map module_dir example_items) /\
  map module_dir example_items
  = map fst (filter (fun e => retained (fst e) (snd e))
               (sorted fst example_root)) /\
  (forall it, In it example_items ->
     exists entries,
       In (module_dir it, Dir entries) example_root /\
       retained (module_dir it) (Dir entries) = true) /\
  (forall name,
     In name EXCLUDE_DIRS \/ startswith name (str ".") = true ->
     ~ In name (map module_dir example_items)).
Proof.
  assert (H : _list_modules example_root = Ok example_items)
    by (vm_compute; reflexivity).
  split; [exact H|].
  exact (@list_modules_sorted_and_filtered example_root example_items H).
Defined.

(** The scenario of the specification: [a] before [b], the excluded and
    the hidden directory left out. *)
Example list_modules_example : _list_modules example_root = Ok example_items.
Proof. vm_compute. reflexivity. Qed.

(** ** Module enumeration: directories without notebooks *)

Lemma glob_ipynb_files_nil (entries : listing) :
  (forall f c, In (f, File c) entries -> endswith f IPYNB = false) ->
  glob_ipynb_files entries = [].
Proof.
  intros H. unfold glob_ipynb_files.
  induction entries as [|[f x] entries IH]; simpl; [reflexivity|].
  destruct x as [c|d]; simpl.
  - rewrite (H f c (or_introl eq_refl)). simpl. apply IH.
    intros f' c' Hin. apply (H f' c'). now right.
  - rewrite andb_false_r. apply IH.
    intros f' c' Hin. apply (H f' c'). now right.
Qed.

(** C6. A directory none of whose files has a name ending in [.ipynb]
    leaves no item. *)
Theorem list_modules_skips_without_notebooks (root : listing)
    (items : list NotebookItem) (name : pystr) (entries : listing) :
  NoDup (map fst root) ->
  In (name, Dir entries) root ->
  (forall f c, In (f, File c) entries -> endswith f IPYNB = false) ->
  _list_modules root = Ok items ->
  ~ In name (map module_dir items).
Proof.
  intros Hn Hin Hnone H. apply list_modules_produced in H.
  apply (produced_not_retained H (@sorted_root_NoDup root Hn))
    with (p := Dir entries).
  - now apply sorted_In.
  - unfold retained. rewrite (glob_ipynb_files_nil _ Hnone).
    apply andb_false_r.
Qed.

Lemma list_modules_skips_without_notebooks_witness :
  NoDup (map fst example_root) /\
  In (str "docs", Dir [(str "index.md", File [])]) example_root /\
  ~ In (str "docs") (map module_dir example_items).
Proof.
  assert (Hn : NoDup (map fst example_root)).
  { repeat (constructor; [simpl; intuition discriminate|]). constructor. }
  assert (Hin : In (str "docs", Dir [(str "index.md", File [])]) example_root).
  { simpl. tauto. }
  split; [exact Hn|]. split; [exact Hin|].
  apply (@list_modules_skips_without_notebooks example_root example_items
           (str "docs") [(str "index.md", File [])] Hn Hin).
  - intros f c [H|[]]. injection H as <- _. vm_compute. reflexivity.
  - vm_compute. reflexivity.
Defined.

(** ** Module enumeration: the title *)

Lemma first_h1_from_readme_file (content : pystr) :
  _first_h1_from_readme (Some (File content))
  = if is_utf8 content then Ok (first_title (readme_lines content))
    else Raise UnicodeDecodeError.
Proof.
  cbn [_first_h1_from_readme _read_text bind_result].
  destruct (is_utf8 content); cbn [bind_result]; [|reflexivity].
  fold (readme_lines content). f_equal. apply first_h1_loop_title.
  intros l. apply readme_lines_no_NL.
Qed.

(** The title of an item, from the README of its directory. *)
Lemma item_of_title (name : pystr) (entries : listing) (it : NotebookItem) :
  item_of name entries it ->
  match lookup README_md entries with
  | None => module_title it = name
  | Some (Dir _) => False
  | Some (File content) =>
      ((no_heading (readme_lines content) /\ module_title it = name) \/
       (exists captured,
          first_heading (readme_lines content) captured /\
          module_title it
          = if nonempty (strip captured) then strip captured else name)) /\
      module_title it = or_name (first_title (readme_lines content)) name
  end.
Proof.
  intros (h1 & Hh1 & ->). cbn [module_title].
  destruct (lookup README_md entries) as [[content|d]|].
  - split.
    + cbn [_first_h1_from_readme _read_text bind_result] in Hh1.
      destruct (is_utf8 content); cbn [bind_result] in Hh1; [|discriminate].
      injection Hh1 as <-. fold (readme_lines content).
      destruct (first_h1_loop (readme_lines content)) as [t|] eqn:E.
      * right. apply first_h1_loop_Some in E.
        destruct E as (captured & Hc & ->). now exists captured.
      * left. split; [now apply first_h1_loop_None | reflexivity].
    + rewrite first_h1_from_readme_file in Hh1.
      destruct (is_utf8 content); [|discriminate]. now injection Hh1 as <-.
  - discriminate.
  - now injection Hh1 as <-.
Qed.

(** C7, amended. An item is the item of a directory of the root.  Its
    title is the directory name when the directory has no [README.md], when
    no line of the README matches the heading pattern, and when the
    stripped group of the first matching line is empty; otherwise it is the
    stripped group of the first matching line.  Read off the lines: the
    title is the stripped text behind the ["#"] of the first heading line,
    or the directory name when there is no such line or that text is
    empty. *)
Theorem list_modules_title (root : listing) (items : list NotebookItem)
    (it : NotebookItem) :
  _list_modules root = Ok items ->
  In it items ->
  exists entries,
    In (module_dir it, Dir entries) root /\
    match lookup README_md entries with
    | None => module_title it = module_dir it
    | Some (Dir _) => False
    | Some (File content) =>
        ((no_heading (readme_lines content) /\
          module_title it = module_dir it) \/
         (exists captured,
            first_heading (readme_lines content) captured /\
            module_title it
            = if nonempty (strip captured) then strip captured
              else module_dir it)) /\
        module_title it
        = or_name (first_title (readme_lines content)) (module_dir it)
    end.
Proof.
  intros H Hit. apply list_modules_produced in H.
  destruct (produced_In H it Hit) as (entries & Hin & _ & Hitem).
  exists entries. split; [now apply sorted_In in Hin|].
  now apply item_of_title.
Qed.

Lemma list_modules_title_witness :
  _list_modules example_root = Ok example_items /\
  In (mkNotebookItem (str "b") (str "Project B") [str "one.ipynb"])
     example_items /\
  exists entries,
    In (str "b", Dir entries) example_root /\
    match lookup README_md entries with
    | None => str "Project B" = str "b"
    | Some (Dir _) => False
    | Some (File content) =>
        ((no_heading (readme_lines content) /\ str "Project B" = str "b") \/
         (exists captured,
            first_heading (readme_lines content) captured /\
            str "Project B"
            = if nonempty (strip captured) then strip captured else str "b"))
        /\
        str "Project B"
        = or_name (first_title (readme_lines content)) (str "b")
    end.
Proof.
  assert (H : _list_modules example_root = Ok example_items)
    by (vm_compute; reflexivity).
  assert (Hin : In (mkNotebookItem (str "b") (str "Project B")
                      [str "one.ipynb"]) example_items)
    by (right; left; reflexivity).
  split; [exact H|]. split; [exact Hin|].
  exact (@list_modules_title example_root example_items _ H Hin).
Defined.

(** C7 as stated fails: the first line of this README that matches the
    pattern captures one blank, whose stripped text is empty; the title is
    then the directory name, neither that empty text nor the text of the
    heading on the next line. *)
Lemma list_modules_title_counterexample :
  exists it entries content captured,
    _list_modules blank_heading_root = Ok [it] /\
    In (module_dir it, Dir entries) blank_heading_root /\
    lookup README_md entries = Some (File content) /\
    readme_lines content = [str "#  "; str "# Real"] /\
    first_heading (readme_lines content) captured /\
    strip captured = [] /\
    module_title it = module_dir it /\
    module_title it <> strip captured /\
    module_title it <> str "Real".
Proof.
  exists (mkNotebookItem (str "a") (str "a") [str "n.ipynb"]).
  exists [(str "n.ipynb", File []); (str "README.md", File blank_heading_readme)].
  exists blank_heading_readme, (str " ").
  split; [vm_compute; reflexivity|].
  split; [left; reflexivity|].
  split; [vm_compute; reflexivity|].
  split; [vm_compute; reflexivity|].
  split.
  { exists [], (str "#  "), [str "# Real"], [(1, str " ")].
    split; [vm_compute; reflexivity|].
    split; [intros l []|].
    split; vm_compute; reflexivity. }
  split; [vm_compute; reflexivity|].
  split; [reflexivity|].
  split; vm_compute; discriminate.
Qed.

(** ** Detection of the repository: the priority *)

(** C8. With [ZIKUU_GITHUB_REPO] set to a value that is not blank,
    detection returns the stripped value and leaves the world as it was: no
    [git] query is made.  With the variable unset or blank, detection makes
    the query once and returns what parsing its stripped output gives. *)
Theorem detect_github_repo_priority (w : world) :
  (forall v, w_environ w = Some v -> strip v <> [] ->
     _detect_github_repo w = (Ok (Some (strip v)), w)) /\
  ((w_environ w = None \/ exists v, w_environ w = Some v /\ strip v = []) ->
     _detect_github_repo w
     = (Ok (match w_git_remote w with
            | Some out => _parse_github_repo_from_remote (strip out)
            | None => None
            end),
        add_event Ev_git_config w)).
Proof.
  split.
  - intros v Hv Hne. apply detect_github_repo_env; [assumption|].
    destruct (strip v); [congruence | reflexivity].
  - intros H. apply detect_github_repo_fallback.
    destruct H as [->|(v & -> & ->)]; reflexivity.
Qed.

Lemma detect_github_repo_priority_witness :
  _detect_github_repo example_world
  = (Ok (Some (str "acme/widgets")), example_world) /\
  _detect_github_repo example_world_remote
  = (Ok (Some (str "acme/widgets")),
     add_event Ev_git_config example_world_remote).
Proof.
  split.
  - apply (proj1 (detect_github_repo_priority example_world)
             (str " acme/widgets ")).
    + reflexivity.
    + vm_compute. discriminate.
  - apply (proj2 (detect_github_repo_priority example_world_remote)).
    right. exists (str "  "). split; [reflexivity | vm_compute; reflexivity].
Defined.

(** ** Block rendering: the trailing newline *)

(** C9. Whatever the items and the repository, the rendered block is a
    body that ends in a character that is not white space, followed by one
    line feed: exactly one trailing newline. *)
Theorem render_list_one_trailing_newline (items : list NotebookItem)
    (github_repo : option pystr) (now_utc : pystr) :
  exists body c,
    _render_list items github_repo now_utc = body ++ [c; NL] /\
    isspace c = false.
Proof.
  destruct items as [|it items].
  - exists (removelast (removelast NO_NOTEBOOKS)), 65289%N.
    split; vm_compute; reflexivity.
  - unfold _render_list.
    set (lines := [UPDATED_LABEL ++ now_utc ++ [NL]]
                  ++ flat_map (item_lines github_repo) (it :: items)).
    destruct (rstrip_last (join [NL] lines)) as [E|(body & c & E & Hc)].
    + exfalso. rewrite rstrip_nil in E.
      assert (H : isspace 26356%N = true).
      { apply E. apply join_head_In. left. reflexivity. }
      vm_compute in H. discriminate.
    + exists body, c. rewrite E, <- app_assoc. split; [reflexivity | exact Hc].
Qed.

(** ** Module enumeration: the invariant of the items *)

Lemma glob_ipynb_files_sorted (entries : listing) :
  StronglySorted str_le (sorted (fun x => x) (glob_ipynb_files entries)).
Proof. apply (sorted_sorted (fun x : pystr => x)). Qed.

(** C10. In a root whose names are distinct and not empty, the items have
    distinct, non-empty directory names, a non-empty sorted list of
    notebooks and a non-empty title; and when the group of the first
    matching line of the README strips to nothing, the extracted title is
    the empty string and the item's title is the directory name. *)
Theorem list_modules_invariant (root : listing) (items : list NotebookItem) :
  well_formed root ->
  _list_modules root = Ok items ->
  NoDup (map module_dir items) /\
  forall it, In it items ->
    module_dir it <> [] /\
    notebooks it <> [] /\
    StronglySorted str_le (notebooks it) /\
    module_title it <> [] /\
    forall entries content captured,
      In (module_dir it, Dir entries) root ->
      lookup README_md entries = Some (File content) ->
      first_heading (readme_lines content) captured ->
      strip captured = [] ->
      _first_h1_from_readme (lookup README_md entries) = Ok (Some []) /\
      module_title it = module_dir it.
Proof.
  intros [Hnd Hne] H. apply list_modules_produced in H. split.
  - apply (produced_NoDup H). now apply sorted_root_NoDup.
  - intros it Hit.
    destruct (produced_In H it Hit) as (entries & Hin & Hr & Hitem).
    apply sorted_In in Hin.
    assert (Hname : module_dir it <> []).
    { apply Hne. apply in_map_iff. now exists (module_dir it, Dir entries). }
    apply retained_inv in Hr. destruct Hr as (_ & _ & Hglob).
    destruct Hitem as (h1 & Hh1 & Eit).
    destruct it as [d t nbs]. cbn [module_dir module_title notebooks] in *.
    injection Eit as -> ->.
    split; [exact Hname|]. split; [|split; [|split]].
    + intros E. apply sorted_nil_inv in E. contradiction.
    + apply glob_ipynb_files_sorted.
    + unfold or_name. destruct h1 as [[|c t]|]; simpl; try assumption.
      discriminate.
    + intros entries' content captured Hin' Hl Hfirst Hblank.
      assert (E : Dir entries' = Dir entries)
        by (apply (@NoDup_fst_functional root d _ _ Hnd Hin' Hin)).
      injection E as ->.
      assert (F : first_h1_loop (readme_lines content) = Some []).
      { apply first_h1_loop_Some. exists captured. now split. }
      rewrite Hl in Hh1 |- *.
      cbn [_first_h1_from_readme _read_text bind_result] in Hh1 |- *.
      destruct (is_utf8 content); cbn [bind_result] in Hh1 |- *;
        [|discriminate].
      fold (readme_lines content) in Hh1 |- *. rewrite F in Hh1 |- *.
      split; [reflexivity|]. now injection Hh1 as <-.
Qed.

Lemma list_modules_invariant_witness :
  well_formed blank_heading_root /\
  _list_modules blank_heading_root
  = Ok [mkNotebookItem (str "a") (str "a") [str "n.ipynb"]] /\
  NoDup (map module_dir [mkNotebookItem (str "a") (str "a") [str "n.ipynb"]]) /\
  forall it, In it [mkNotebookItem (str "a") (str "a") [str "n.ipynb"]] ->
    module_dir it <> [] /\
    notebooks it <> [] /\
    StronglySorted str_le (notebooks it) /\
    module_title it <> [] /\
    forall entries content captured,
      In (module_dir it, Dir entries) blank_heading_root ->
      lookup README_md entries = Some (File content) ->
      first_heading (readme_lines content) captured ->
      strip captured = [] ->
      _first_h1_from_readme (lookup README_md entries) = Ok (Some []) /\
      module_title it = module_dir it.
Proof.
  assert (Hwf : well_formed blank_heading_root).
  { split.
    - repeat (constructor; [simpl; intuition discriminate|]). constructor.
    - intros n [<-|[]]. discriminate. }
  assert (H : _list_modules blank_heading_root
              = Ok [mkNotebookItem (str "a") (str "a") [str "n.ipynb"]])
    by (vm_compute; reflexivity).
  split; [exact Hwf|]. split; [exact H|].
  exact (@list_modules_invariant blank_heading_root _ Hwf H).
Defined.

(** * Further properties *)

(** ** The substitution, applied again *)

(** X1. After a substitution that returned, with a block that holds no END
    marker, a further substitution gives what it would have given on the
    first text: the last block wins, and the same block changes nothing. *)
Theorem replace_between_markers_last_wins (text block1 block2 updated : pystr) :
  _replace_between_markers text block1 = Ok updated ->
  ~ occurs END_MARKER block1 ->
  _replace_between_markers updated block2
  = _replace_between_markers text block2 /\
  _replace_between_markers updated block1 = Ok updated.
Proof.
  intros H Hno. apply find_None in Hno.
  destruct (replace_between_markers_ok_inv _ _ H)
    as (pre & mid & suf & -> & Hpb & Hpe & Hm & ->).
  assert (Hnl : find ([NL] ++ block1) END_MARKER = None)
    by now rewrite find_END_after_NL, Hno.
  assert (G : forall b,
             _replace_between_markers
               (pre ++ BEGIN_MARKER ++ [NL] ++ block1 ++ END_MARKER ++ suf) b
             = Ok (pre ++ BEGIN_MARKER ++ [NL] ++ b ++ END_MARKER ++ suf)).
  { intros b. rewrite (app_assoc [NL] block1).
    now apply replace_between_markers_layout. }
  split.
  - rewrite G. symmetry. now apply replace_between_markers_layout.
  - apply G.
Qed.

Lemma replace_between_markers_last_wins_witness :
  _replace_between_markers example_readme (str "one" ++ [NL])
  = Ok (str "# Notebooks" ++ [NL] ++ BEGIN_MARKER ++ [NL] ++ str "one"
        ++ [NL] ++ END_MARKER ++ [NL] ++ str "footer" ++ [NL]) /\
  _replace_between_markers
    (str "# Notebooks" ++ [NL] ++ BEGIN_MARKER ++ [NL] ++ str "one"
     ++ [NL] ++ END_MARKER ++ [NL] ++ str "footer" ++ [NL])
    (str "two" ++ [NL])
  = _replace_between_markers example_readme (str "two" ++ [NL]).
Proof.
  assert (H : _replace_between_markers example_readme (str "one" ++ [NL])
              = Ok (str "# Notebooks" ++ [NL] ++ BEGIN_MARKER ++ [NL]
                    ++ str "one" ++ [NL] ++ END_MARKER ++ [NL]
                    ++ str "footer" ++ [NL]))
    by (vm_compute; reflexivity).
  split; [exact H|].
  apply (@replace_between_markers_last_wins example_readme
           (str "one" ++ [NL]) (str "two" ++ [NL]) _ H).
  apply find_None. vm_compute. reflexivity.
Defined.

(** X2. A substitution that returned leaves a text on which every further
    substitution returns too, whatever the blocks hold: the BEGIN marker is
    still first where it was, and an END marker follows it. *)
Theorem replace_between_markers_keeps_markers (text block updated : pystr) :
  _replace_between_markers text block = Ok updated ->
  find updated BEGIN_MARKER = find text BEGIN_MARKER /\
  forall block2, exists updated2,
    _replace_between_markers updated block2 = Ok updated2.
Proof.
  intros H.
  destruct (replace_between_markers_ok_inv _ _ H)
    as (pre & mid & suf & -> & Hpb & Hpe & Hm & ->).
  rewrite !find_BEGIN_app, Hpb. split; [reflexivity|].
  intros block2. rewrite replace_between_markers_unfold.
  rewrite find_BEGIN_app, Hpb, find_END_across_BEGIN, Hpe.
  rewrite (app_assoc [NL] block), find_END_app.
  destruct (find ([NL] ++ block) END_MARKER) as [i|]; simpl option_map;
    cbv iota beta; change (length BEGIN_MARKER) with 35;
    match goal with
    | |- context [?a <? ?b] =>
        destruct (Nat.ltb_spec a b) as [Hlt|_]; [lia | eexists; reflexivity]
    end.
Qed.

Lemma replace_between_markers_keeps_markers_witness :
  _replace_between_markers example_readme (END_MARKER ++ BEGIN_MARKER)
  = Ok (str "# Notebooks" ++ [NL] ++ BEGIN_MARKER ++ [NL]
        ++ (END_MARKER ++ BEGIN_MARKER) ++ END_MARKER ++ [NL]
        ++ str "footer" ++ [NL]) /\
  find (str "# Notebooks" ++ [NL] ++ BEGIN_MARKER ++ [NL]
        ++ (END_MARKER ++ BEGIN_MARKER) ++ END_MARKER ++ [NL]
        ++ str "footer" ++ [NL]) BEGIN_MARKER
  = find example_readme BEGIN_MARKER /\
  forall block2, exists updated2,
    _replace_between_markers
      (str "# Notebooks" ++ [NL] ++ BEGIN_MARKER ++ [NL]
       ++ (END_MARKER ++ BEGIN_MARKER) ++ END_MARKER ++ [NL]
       ++ str "footer" ++ [NL]) block2 = Ok updated2.
Proof.
  assert (H : _replace_between_markers example_readme
                (END_MARKER ++ BEGIN_MARKER)
              = Ok (str "# Notebooks" ++ [NL] ++ BEGIN_MARKER ++ [NL]
                    ++ (END_MARKER ++ BEGIN_MARKER) ++ END_MARKER ++ [NL]
                    ++ str "footer" ++ [NL]))
    by (vm_compute; reflexivity).
  split; [exact H|].
  exact (@replace_between_markers_keeps_markers _ _ _ H).
Defined.

(** ** Detection, once more *)

(** X3. Detection never raises and leaves the world as it is but for the
    trace, where it leaves the query of [git] and nothing else: no query
    when the stripped [ZIKUU_GITHUB_REPO] is not empty, in which case that
    text is the result, and one query when the variable is unset or blank.
    The identifier it returns, if any, is not the empty string. *)
Theorem detect_github_repo_result (w : world) :
  exists repo,
    _detect_github_repo w
    = (Ok repo,
       World (w_root w) (w_environ w) (w_git_remote w) (w_now w)
         ((if nonempty (env_repo w) then [] else [Ev_git_config])
          ++ w_trace w)) /\
    (nonempty (env_repo w) = true -> repo = Some (env_repo w)) /\
    match repo with Some s => s <> [] | None => True end.
Proof.
  unfold env_repo.
  destruct (nonempty (strip (match w_environ w with Some v => v | None => [] end)))
    eqn:E.
  - destruct (w_environ w) as [v|] eqn:Hv; [|discriminate].
    exists (Some (strip v)). rewrite (detect_github_repo_env _ Hv E).
    split; [destruct w; simpl in *; now subst|]. split; [reflexivity|].
    intros H. rewrite H in E. discriminate.
  - eexists. rewrite (detect_github_repo_fallback _ E).
    split; [reflexivity|]. split; [discriminate|].
    destruct (w_git_remote w) as [out|]; [|exact I].
    destruct (_parse_github_repo_from_remote (strip out)) as [p|] eqn:P;
      [|exact I].
    apply parse_github_repo_nonempty in P. intros ->. discriminate.
Qed.

(** ** Files of the root *)

Lemma str_eqb_neq (a b : pystr) : a <> b -> str_eqb a b = false.
Proof.
  intros H. destruct (str_eqb a b) eqn:E; [|reflexivity].
  apply str_eqb_eq in E. contradiction.
Qed.







(** ** One run of [main], as a whole *)










(** X7. A run of [main] that returns found a README that, read with its
    carriage returns as line feeds, holds the markers in order; the README
    it leaves is that text with the rendered block, after a line feed, in
    place of what stood between the markers, or the file as it was when
    that text is what was read. *)
Theorem main_rewrites_between_markers (w w1 : world) :
  main w = (Ok tt, w1) ->
  exists c repo items pre mid suf,
    lookup README_md (w_root w) = Some (File c) /\
    fst (_detect_github_repo w) = Ok repo /\
    _list_modules (w_root w) = Ok items /\
    universal_newlines c
    = pre ++ BEGIN_MARKER ++ mid ++ END_MARKER ++ suf /\
    ~ occurs BEGIN_MARKER pre /\
    ~ occurs END_MARKER (pre ++ BEGIN_MARKER ++ mid) /\
    let updated :=
      pre ++ BEGIN_MARKER ++ [NL] ++ _render_list items repo (w_now w)
      ++ END_MARKER ++ suf in
    readme_of w1
    = Some (if str_eqb updated (universal_newlines c) then c else updated).
Proof.
  intros H.
  destruct (@main_ok_inv w w1 H)
    as (c & repo & items & updated & L & _ & D & Hitems & Hr & _ & _ & _
        & Hcases).
  destruct (replace_between_markers_ok_inv _ _ Hr)
    as (pre & mid & suf & E & Hpb & Hpe & Hm & Hu).
  exists c, repo, items, pre, mid, suf.
  repeat (split; [assumption|]).
  split; [now apply find_None|]. split.
  - apply find_None. rewrite find_END_across_BEGIN, Hpe, Hm. reflexivity.
  - cbv zeta. rewrite <- Hu. unfold readme_of.
    destruct Hcases as [(-> & Hroot & _)|(Hne & _ & Hroot & _)];
      rewrite Hroot.
    + now rewrite L, str_eqb_refl.
    + rewrite (lookup_set_file README_md updated _ L).
      now rewrite (str_eqb_neq Hne).
Qed.

Lemma main_rewrites_between_markers_witness :
  main example_world = (Ok tt, example_world_after) /\
  exists c repo items pre mid suf,
    lookup README_md (w_root example_world) = Some (File c) /\
    fst (_detect_github_repo example_world) = Ok repo /\
    _list_modules (w_root example_world) = Ok items /\
    universal_newlines c
    = pre ++ BEGIN_MARKER ++ mid ++ END_MARKER ++ suf /\
    ~ occurs BEGIN_MARKER pre /\
    ~ occurs END_MARKER (pre ++ BEGIN_MARKER ++ mid) /\
    let updated :=
      pre ++ BEGIN_MARKER ++ [NL]
      ++ _render_list items repo (w_now example_world)
      ++ END_MARKER ++ suf in
    readme_of example_world_after
    = Some (if str_eqb updated (universal_newlines c) then c else updated).
Proof.
  assert (H : main example_world = (Ok tt, example_world_after))
    by (vm_compute; reflexivity).
  split; [exact H|].
  exact (@main_rewrites_between_markers example_world example_world_after H).
Defined.


(** ** Module enumeration, in full *)

(** X8. The directories of the items are exactly the entries of the root
    that are kept (a directory, not excluded, not hidden, with a notebook),
    in the order of the sorted root: none is missing, none comes twice. *)
Theorem list_modules_exactly_retained (root : listing)
    (items : list NotebookItem) :
  _list_modules root = Ok items ->
  map module_dir items
  = map fst (filter (fun e => retained (fst e) (snd e)) (sorted fst root)) /\
  forall name entries,
    In (name, Dir entries) root -> retained name (Dir entries) = true ->
    In name (map module_dir items).
Proof.
  intros H. apply list_modules_produced in H.
  pose proof (produced_names H) as E. split; [exact E|].
  intros name entries Hin Hr. rewrite E.
  apply in_map_iff. exists (name, Dir entries). split; [reflexivity|].
  apply filter_In. split; [now apply sorted_In | exact Hr].
Qed.

Lemma list_modules_exactly_retained_witness :
  _list_modules example_root = Ok example_items /\
  map module_dir example_items
  = map fst (filter (fun e => retained (fst e) (snd e))
               (sorted fst example_root)) /\
  forall name entries,
    In (name, Dir entries) example_root ->
    retained name (Dir entries) = true ->
    In name (map module_dir example_items).
Proof.
  assert (H : _list_modules example_root = Ok example_items)
    by (vm_compute; reflexivity).
  split; [exact H|].
  exact (@list_modules_exactly_retained example_root example_items H).
Defined.

Lemma endswith_spec (s p : pystr) :
  endswith s p = true <-> exists stem, s = stem ++ p.
Proof.
  unfold endswith. rewrite startswith_spec. split.
  - intros [r Hr]. exists (rev r).
    rewrite <- (rev_involutive s), Hr, rev_app_distr, rev_involutive.
    reflexivity.
  - intros [stem ->]. exists (rev stem). apply rev_app_distr.
Qed.

Lemma glob_ipynb_files_In (entries : listing) (nb : pystr) :
  In nb (glob_ipynb_files entries) <->
  (exists stem, nb = stem ++ IPYNB) /\ exists c, In (nb, File c) entries.
Proof.
  unfold glob_ipynb_files. rewrite in_map_iff. split.
  - intros ([n x] & <- & Hin). apply filter_In in Hin.
    destruct Hin as [Hin Hf]. simpl in *.
    apply andb_true_iff in Hf. destruct Hf as [He Hfile].
    split; [now apply endswith_spec|].
    destruct x as [c|d]; [|discriminate]. now exists c.
  - intros [He [c Hin]]. exists (nb, File c). split; [reflexivity|].
    apply filter_In. split; [assumption|]. simpl.
    rewrite (proj2 (endswith_spec nb IPYNB) He). reflexivity.
Qed.

(** X9. The notebooks of an item are the names of the files of its
    directory that end in [.ipynb], each as often as the directory lists
    it: directories of that name and files of other names are left out. *)
Theorem list_modules_notebooks (root : listing) (items : list NotebookItem)
    (it : NotebookItem) :
  _list_modules root = Ok items ->
  In it items ->
  exists entries,
    In (module_dir it, Dir entries) root /\
    Permutation (notebooks it) (glob_ipynb_files entries) /\
    forall nb,
      In nb (notebooks it) <->
      (exists stem, nb = stem ++ IPYNB) /\ exists c, In (nb, File c) entries.
Proof.
  intros H Hit. apply list_modules_produced in H.
  destruct (produced_In H it Hit) as (entries & Hin & _ & (h1 & _ & E)).
  exists entries. split; [now apply sorted_In in Hin|].
  assert (P : Permutation (notebooks it) (glob_ipynb_files entries)).
  { rewrite E. cbn [notebooks]. apply sorted_perm. }
  split; [exact P|]. intros nb. rewrite <- glob_ipynb_files_In. split.
  - apply Permutation_in. exact P.
  - apply Permutation_in. symmetry. exact P.
Qed.

Lemma list_modules_notebooks_witness :
  _list_modules example_root = Ok example_items /\
  exists entries,
    In (str "a", Dir entries) example_root /\
    Permutation [str "one.ipynb"; str "two.ipynb"]
      (glob_ipynb_files entries) /\
    forall nb,
      In nb [str "one.ipynb"; str "two.ipynb"] <->
      (exists stem, nb = stem ++ IPYNB) /\ exists c, In (nb, File c) entries.
Proof.
  assert (H : _list_modules example_root = Ok example_items)
    by (vm_compute; reflexivity).
  split; [exact H|].
  apply (@list_modules_notebooks example_root example_items
           (mkNotebookItem (str "a") (str "a")
              [str "one.ipynb"; str "two.ipynb"]) H).
  left. reflexivity.
Defined.

(** Two sorted lists with the same elements, no two of them with the same
    key, are the same list. *)
Lemma sorted_lists_equal {A : Type} (key : A -> pystr) (l1 : list A) :
  forall l2,
    StronglySorted (key_le key) l1 -> StronglySorted (key_le key) l2 ->
    Permutation l1 l2 ->
    (forall x y, In x l1 -> In y l1 -> key x = key y -> x = y) ->
    l1 = l2.
Proof.
  induction l1 as [|x l1 IH]; intros l2 S1 S2 P Hinj.
  - apply Permutation_nil in P. now subst.
  - destruct l2 as [|y l2];
      [apply Permutation_sym, Permutation_nil in P; discriminate|].
    inversion S1 as [|? ? S1' A1]; subst.
    inversion S2 as [|? ? S2' A2]; subst.
    assert (E : x = y).
    { assert (Hx : In x (y :: l2))
        by (apply (Permutation_in _ P); now left).
      assert (Hy : In y (x :: l1))
        by (apply (Permutation_in _ (Permutation_sym P)); now left).
      destruct Hx as [->|Hx]; [reflexivity|].
      destruct Hy as [->|Hy]; [reflexivity|].
      rewrite Forall_forall in A1, A2.
      apply Hinj; [now left | now right |].
      apply str_le_antisym; [apply (A1 y Hy) | apply (A2 x Hx)]. }
    subst y. f_equal. apply IH; try assumption.
    + now apply Permutation_cons_inv in P.
    + intros a b Ha Hb. apply Hinj; now right.
Qed.

Lemma NoDup_map_inj {A B : Type} (f : A -> B) (l : list A) :
  NoDup (map f l) ->
  forall x y, In x l -> In y l -> f x = f y -> x = y.
Proof.
  induction l as [|a l IH]; simpl; intros Hn x y Hx Hy E; [destruct Hx|].
  inversion Hn as [|? ? Hnot Hn']; subst.
  destruct Hx as [->|Hx]; destruct Hy as [->|Hy].
  - reflexivity.
  - exfalso. apply Hnot. rewrite E. now apply in_map.
  - exfalso. apply Hnot. rewrite <- E. now apply in_map.
  - now apply IH.
Qed.

Lemma sorted_permutation {A : Type} (key : A -> pystr) (l1 l2 : list A) :
  Permutation l1 l2 ->
  (forall x y, In x l1 -> In y l1 -> key x = key y -> x = y) ->
  sorted key l1 = sorted key l2.
Proof.
  intros P Hinj. apply (sorted_lists_equal (key := key)).
  - apply sorted_sorted.
  - apply sorted_sorted.
  - rewrite (sorted_perm key l1), (sorted_perm key l2). exact P.
  - intros x y Hx Hy. apply Hinj; now apply sorted_In with (key := key).
Qed.

(** X10. The order in which the operating system lists a directory does
    not show: listing the root in another order gives the same items, and
    listing a module directory in another order gives the same sorted
    notebooks. *)
Theorem list_modules_order_independent :
  (forall root root',
     NoDup (map fst root) -> Permutation root root' ->
     _list_modules root' = _list_modules root) /\
  (forall entries entries',
     Permutation entries entries' ->
     sorted (fun x => x) (glob_ipynb_files entries')
     = sorted (fun x => x) (glob_ipynb_files entries)).
Proof.
  split.
  - intros root root' Hn P. unfold _list_modules. f_equal. symmetry.
    apply sorted_permutation; [exact P|]. now apply NoDup_map_inj.
  - intros entries entries' P. symmetry.
    apply sorted_permutation; [|auto].
    unfold glob_ipynb_files. apply Permutation_map.
    clear -P. induction P; simpl.
    + constructor.
    + destruct (endswith (fst x) IPYNB && is_file (snd x));
        [now constructor | assumption].
    + destruct (endswith (fst x) IPYNB && is_file (snd x));
        destruct (endswith (fst y) IPYNB && is_file (snd y));
        try reflexivity. apply perm_swap.
    + now transitivity (filter
        (fun e : pystr * node => endswith (fst e) IPYNB && is_file (snd e)) l').
Qed.

Lemma list_modules_order_independent_witness :
  NoDup (map fst example_root) /\
  Permutation example_root (rev example_root) /\
  _list_modules (rev example_root) = _list_modules example_root.
Proof.
  assert (Hn : NoDup (map fst example_root)).
  { repeat (constructor; [simpl; intuition discriminate|]). constructor. }
  assert (P : Permutation example_root (rev example_root))
    by apply Permutation_rev.
  split; [exact Hn|]. split; [exact P|].
  exact (proj1 list_modules_order_independent example_root
           (rev example_root) Hn P).
Defined.

(** ** The first heading, read off the file *)

Lemma strip_idem (s : pystr) : strip (strip s) = strip s.
Proof.
  unfold strip at 2 3. destruct (lstrip_head s) as [->|(c & r & -> & Hc)];
    [reflexivity|].
  rewrite rstrip_cons. simpl forallb. rewrite Hc. simpl.
  unfold strip. simpl. rewrite Hc.
  rewrite rstrip_cons. simpl forallb. rewrite Hc. simpl.
  now rewrite rstrip_idem.
Qed.

Lemma first_title_stripped (lines : list pystr) (t : pystr) :
  first_title lines = Some t -> strip t = t.
Proof.
  induction lines as [|line rest IH]; simpl; [discriminate|].
  destruct (heading_title line) as [t'|] eqn:E; [|exact IH].
  intros [= <-]. unfold heading_title in E.
  destruct (lstrip line) as [|c [|x u]]; try discriminate.
  destruct (char_eqb c (ch "#") && isspace x && nonempty u);
    [|discriminate].
  injection E as <-. apply strip_idem.
Qed.

(** X11. [_first_h1_from_readme] without its pattern: no title when the
    file is missing, the error of a directory when it is one, the decoding
    error when it is a file that is not UTF-8, and otherwise the title of
    the first line that, after its leading blanks, is a ["#"], a blank and
    one more character at least: the stripped text behind that blank,
    which may be empty.  A title has no blank at either end. *)
Theorem first_h1_from_readme_reads (readme_path : option node) :
  _first_h1_from_readme readme_path
  = match readme_path with
    | None => Ok None
    | Some (Dir _) => Raise IsADirectoryError
    | Some (File content) =>
        if is_utf8 content then Ok (first_title (readme_lines content))
        else Raise UnicodeDecodeError
    end /\
  forall t, _first_h1_from_readme readme_path = Ok (Some t) -> strip t = t.
Proof.
  assert (E : _first_h1_from_readme readme_path
              = match readme_path with
                | None => Ok None
                | Some (Dir _) => Raise IsADirectoryError
                | Some (File content) =>
                    if is_utf8 content
                    then Ok (first_title (readme_lines content))
                    else Raise UnicodeDecodeError
                end).
  { destruct readme_path as [[content|d]|]; try reflexivity.
    apply first_h1_from_readme_file. }
  split; [exact E|]. intros t. rewrite E.
  destruct readme_path as [[content|d]|]; try discriminate.
  destruct (is_utf8 content); [|discriminate].
  intros [= H]. now apply first_title_stripped in H.
Qed.

(** ** The rendered block, line by line *)

Lemma rstrip_In (c : char) (s : pystr) : In c (rstrip s) -> In c s.
Proof.
  unfold rstrip. intros H. apply in_rev in H. apply lstrip_In in H.
  now apply in_rev.
Qed.

Lemma join_In (c : char) (sep : pystr) (ps : list pystr) :
  In c (join sep ps) -> In c sep \/ exists p, In p ps /\ In c p.
Proof.
  induction ps as [|p ps IH]; simpl; [tauto|].
  destruct ps as [|q ps].
  - intros H. right. exists p. split; [now left | assumption].
  - intros H. apply in_app_or in H. destruct H as [H|H].
    + right. exists p. split; [now left | assumption].
    + apply in_app_or in H. destruct H as [H|H]; [now left|].
      destruct (IH H) as [H'|(p' & Hp' & Hc)]; [now left|].
      right. exists p'. split; [now right | assumption].
Qed.

Lemma literal_free (c : char) (lit : pystr) :
  existsb (char_eqb c) lit = false -> ~ In c lit.
Proof.
  intros E H.
  assert (T : existsb (char_eqb c) lit = true).
  { apply existsb_exists. exists c. split; [assumption | apply char_eqb_refl]. }
  congruence.
Qed.

Lemma colab_link_chars (c : char) (repo path branch : pystr) :
  c = LT \/ c = CR ->
  In c (_colab_link repo path branch) ->
  In c repo \/ In c branch \/ In c path.
Proof.
  intros Hc H. unfold _colab_link in H.
  repeat (apply in_app_or in H; destruct H as [H|H]); try tauto;
    exfalso; revert H; apply literal_free;
    destruct Hc as [->| ->]; vm_compute; reflexivity.
Qed.

Lemma notebook_line_chars (c : char) (repo : option pystr)
    (it : NotebookItem) (nb : pystr) :
  c = LT \/ c = CR ->
  In c (notebook_line repo it nb) ->
  In c nb \/ In c (module_dir it) \/ exists r, repo = Some r /\ In c r.
Proof.
  intros Hc H. unfold notebook_line in H.
  assert (F : In c (str "  - `" ++ nb ++ str "`" ++ COLAB_NOTE) -> In c nb).
  { intros H'.
    repeat (apply in_app_or in H'; destruct H' as [H'|H']); try assumption;
      exfalso; revert H'; apply literal_free;
      destruct Hc as [->| ->]; vm_compute; reflexivity. }
  destruct repo as [r|]; [|left; now apply F].
  destruct (nonempty r); [|left; now apply F].
  apply in_app_or in H. destruct H as [H|H].
  { exfalso. revert H. apply literal_free.
    destruct Hc as [->| ->]; vm_compute; reflexivity. }
  apply in_app_or in H. destruct H as [H|H]; [now left|].
  apply in_app_or in H. destruct H as [H|H].
  { exfalso. revert H. apply literal_free.
    destruct Hc as [->| ->]; vm_compute; reflexivity. }
  apply in_app_or in H. destruct H as [H|H].
  - apply colab_link_chars in H; [|assumption].
    destruct H as [H|[H|H]].
    + right. right. now exists r.
    + exfalso. revert H. apply literal_free.
      destruct Hc as [->| ->]; vm_compute; reflexivity.
    + repeat (apply in_app_or in H; destruct H as [H|H]); try tauto.
      exfalso. revert H. apply literal_free.
      destruct Hc as [->| ->]; vm_compute; reflexivity.
  - exfalso. revert H. apply literal_free.
    destruct Hc as [->| ->]; vm_compute; reflexivity.
Qed.

Lemma item_lines_chars (c : char) (repo : option pystr) (it : NotebookItem)
    (l : pystr) :
  c = LT \/ c = CR ->
  In l (item_lines repo it) -> In c l ->
  In c (module_title it) \/ In c (module_dir it) \/
  (exists nb, In nb (notebooks it) /\ In c nb) \/
  exists r, repo = Some r /\ In c r.
Proof.
  intros Hc Hl H. unfold item_lines in Hl.
  apply in_app_or in Hl. destruct Hl as [[<-|[]]|Hl].
  - repeat (apply in_app_or in H; destruct H as [H|H]); try tauto;
      exfalso; revert H; apply literal_free;
      destruct Hc as [->| ->]; vm_compute; reflexivity.
  - apply in_app_or in Hl. destruct Hl as [Hl|[<-|[]]]; [|destruct H].
    apply in_map_iff in Hl. destruct Hl as (nb & <- & Hnb).
    apply notebook_line_chars in H; [|assumption].
    destruct H as [H|[H|H]]; [|tauto|tauto].
    right. right. left. now exists nb.
Qed.

Lemma occurs_END_has_LT (s : pystr) : occurs END_MARKER s -> In LT s.
Proof.
  intros (i & pre & suf & -> & _). apply in_or_app. right.
  apply in_or_app. left.
  destruct END_MARKER_shape as [E _]. rewrite E. now left.
Qed.

(** X12. The block takes its ["<"] and its carriage returns from what it is
    given only: when the timestamp, the repository, the directory names,
    the titles and the notebook names hold neither, the block holds no
    carriage return and no END marker. *)
Theorem render_list_clean (items : list NotebookItem)
    (github_repo : option pystr) (now_utc : pystr) :
  (forall c, c = LT \/ c = CR ->
     ~ In c now_utc /\
     (forall r, github_repo = Some r -> ~ In c r) /\
     forall it, In it items ->
       ~ In c (module_dir it) /\ ~ In c (module_title it) /\
       forall nb, In nb (notebooks it) -> ~ In c nb) ->
  ~ In CR (_render_list items github_repo now_utc) /\
  ~ occurs END_MARKER (_render_list items github_repo now_utc).
Proof.
  intros Hclean.
  assert (G : forall c, c = LT \/ c = CR ->
                ~ In c (_render_list items github_repo now_utc)).
  { intros c Hc H. destruct (Hclean c Hc) as (Hnow & Hrepo & Hitems).
    unfold _render_list in H. destruct items as [|it0 items0].
    - revert H. apply literal_free.
      destruct Hc as [->| ->]; vm_compute; reflexivity.
    - apply in_app_or in H. destruct H as [H|[H|[]]].
      2:{ destruct Hc as [->| ->]; discriminate H. }
      apply rstrip_In, join_In in H.
      destruct H as [[H|[]]|(l & Hl & H)].
      { destruct Hc as [->| ->]; discriminate H. }
      apply in_app_or in Hl. destruct Hl as [[<-|[]]|Hl].
      + apply in_app_or in H. destruct H as [H|H].
        { revert H. apply literal_free.
          destruct Hc as [->| ->]; vm_compute; reflexivity. }
        apply in_app_or in H. destruct H as [H|[H|[]]]; [contradiction|].
        destruct Hc as [->| ->]; discriminate H.
      + apply in_flat_map in Hl. destruct Hl as (it & Hit & Hl).
        destruct (Hitems it Hit) as (Hd & Ht & Hnb).
        destruct (@item_lines_chars c github_repo it l Hc Hl H)
          as [H'|[H'|[(nb & Hin & H')|(r & Hr & H')]]].
        * contradiction.
        * contradiction.
        * now apply (Hnb nb Hin).
        * now apply (Hrepo r Hr). }
  split.
  - apply G. now right.
  - intros H. apply occurs_END_has_LT in H. revert H. apply G. now left.
Qed.

Lemma render_list_clean_witness :
  ~ In CR (_render_list example_items (Some (str "acme/widgets"))
             (str "2024-01-02 03:04:05Z")) /\
  ~ occurs END_MARKER
      (_render_list example_items (Some (str "acme/widgets"))
         (str "2024-01-02 03:04:05Z")).
Proof.
  apply (@render_list_clean example_items (Some (str "acme/widgets"))
           (str "2024-01-02 03:04:05Z")).
  intros c Hc.
  assert (F : forall s, existsb (char_eqb LT) s = false ->
                existsb (char_eqb CR) s = false -> ~ In c s).
  { intros s H1 H2. destruct Hc as [->| ->]; now apply literal_free. }
  split; [apply F; reflexivity|]. split.
  - intros r [= <-]. apply F; reflexivity.
  - intros it [<-|[<-|[]]]; cbn [module_dir module_title notebooks].
    + split; [apply F; reflexivity|]. split; [apply F; reflexivity|].
      intros nb [<-|[<-|[]]]; apply F; reflexivity.
    + split; [apply F; reflexivity|]. split; [apply F; reflexivity|].
      intros nb [<-|[]]; apply F; reflexivity.
Defined.

Lemma rstrip_snoc (s : pystr) (x : char) :
  rstrip (s ++ [x]) = if isspace x then rstrip s else s ++ [x].
Proof.
  unfold rstrip. rewrite rev_app_distr. simpl.
  destruct (isspace x); [reflexivity|].
  simpl. now rewrite rev_involutive.
Qed.

Lemma join_snoc (sep : pystr) (xs : list pystr) (y : pystr) :
  xs <> [] -> join sep (xs ++ [y]) = join sep xs ++ sep ++ y.
Proof.
  induction xs as [|x xs IH]; [congruence|]. intros _.
  destruct xs as [|x' xs]; [reflexivity|].
  change (join sep ((x :: x' :: xs) ++ [y]))
    with (x ++ sep ++ join sep ((x' :: xs) ++ [y])).
  rewrite IH by discriminate.
  change (join sep (x :: x' :: xs)) with (x ++ sep ++ join sep (x' :: xs)).
  now rewrite <- !app_assoc.
Qed.

(** A line that ends in a character that is not a blank. *)
Lemma item_lines_end (github_repo : option pystr) (it : NotebookItem) :
  exists ls l b c,
    item_lines github_repo it = (ls ++ [l]) ++ [[]] /\
    l = b ++ [c] /\ isspace c = false.
Proof.
  unfold item_lines. cbv zeta.
  set (header := str "- **[" ++ module_title it ++ str "]("
                 ++ (str "./" ++ module_dir it ++ str "/") ++ str ")**").
  assert (Hh : exists b c, header = b ++ [c] /\ isspace c = false).
  { exists (str "- **[" ++ module_title it ++ str "]("
            ++ (str "./" ++ module_dir it ++ str "/") ++ str ")*"), (ch "*").
    split; [|reflexivity]. unfold header.
    rewrite <- !app_assoc. reflexivity. }
  assert (Hn : forall nb, exists b c,
               notebook_line github_repo it nb = b ++ [c] /\
               isspace c = false).
  { intros nb. unfold notebook_line.
    assert (F : exists b c,
               str "  - `" ++ nb ++ str "`" ++ COLAB_NOTE = b ++ [c] /\
               isspace c = false).
    { exists (str "  - `" ++ nb ++ str "`" ++ removelast COLAB_NOTE), 65289%N.
      split; [|reflexivity]. rewrite <- !app_assoc. reflexivity. }
    destruct github_repo as [r|]; [|exact F].
    destruct (nonempty r); [|exact F].
    exists (str "  - [" ++ nb ++ str "]("
            ++ _colab_link r (module_dir it ++ str "/" ++ nb) (str "main")),
      (ch ")").
    split; [|reflexivity]. rewrite <- !app_assoc. reflexivity. }
  rewrite app_assoc.
  destruct (@exists_last _ ([header] ++ map (notebook_line github_repo it)
                                          (notebooks it)))
    as (ls & l & E); [discriminate|].
  pose proof (in_or_app ls [l] l (or_intror (or_introl eq_refl))) as Hl.
  rewrite <- E in Hl.
  assert (G : exists b c, l = b ++ [c] /\ isspace c = false).
  { destruct Hl as [<-|Hl]; [exact Hh|].
    apply in_map_iff in Hl. destruct Hl as (nb & <- & _). apply Hn. }
  destruct G as (b & c & Hb & Hc). exists ls, l, b, c.
  split; [exact (f_equal (fun x => x ++ [[]]) E) | now split].
Qed.

(** X13. With items, the block is the line of the timestamp and the lines
    of the items, joined by line feeds and closed by one line feed: the
    final strip takes the blank line after the last item and nothing
    else, whatever the titles and the names end in. *)
Theorem render_list_lines (it : NotebookItem) (items : list NotebookItem)
    (github_repo : option pystr) (now_utc : pystr) :
  _render_list (it :: items) github_repo now_utc
  = join [NL]
      ((UPDATED_LABEL ++ now_utc ++ [NL])
       :: removelast (flat_map (item_lines github_repo) (it :: items)))
    ++ [NL].
Proof.
  unfold _render_list.
  destruct (@exists_last _ (it :: items)) as (its & itl & E);
    [discriminate|].
  rewrite E, flat_map_app. cbn [flat_map]. rewrite app_nil_r.
  destruct (item_lines_end github_repo itl) as (ls & l & b & c & El & Eb & Hc).
  rewrite El.
  set (stamp := UPDATED_LABEL ++ now_utc ++ [NL]).
  rewrite (app_assoc (flat_map (item_lines github_repo) its)).
  rewrite removelast_last.
  change ([stamp] ++ (flat_map (item_lines github_repo) its ++ ls ++ [l])
          ++ [[]])
    with ((stamp :: (flat_map (item_lines github_repo) its ++ ls ++ [l]))
          ++ [[]]).
  rewrite join_snoc by discriminate.
  rewrite app_nil_r.
  set (body := flat_map (item_lines github_repo) its ++ ls).
  replace (stamp :: flat_map (item_lines github_repo) its ++ ls ++ [l])
    with ((stamp :: body) ++ [l])
    by (unfold body; simpl; now rewrite <- app_assoc).
  rewrite join_snoc by discriminate.
  rewrite Eb, !app_assoc, rstrip_snoc. cbn [isspace].
  replace (isspace NL) with true by reflexivity.
  rewrite rstrip_snoc, Hc. reflexivity.
Qed.

(** ** The URL patterns, read off the URL *)

Lemma ends_NL_app (a b : pystr) : ends_NL (a ++ b) = false -> ends_NL b = false.
Proof.
  unfold ends_NL. rewrite rev_app_distr.
  destruct (rev b) as [|c r]; [reflexivity|]. simpl. auto.
Qed.

Lemma ends_NL_skipn (n : nat) (s : pystr) :
  ends_NL s = false -> ends_NL (skipn n s) = false.
Proof.
  intros H. rewrite <- (firstn_skipn n s) in H. now apply ends_NL_app in H.
Qed.

Lemma ends_NL_cons (c : char) (s : pystr) :
  ends_NL (c :: s) = false -> ends_NL s = false.
Proof. apply (ends_NL_app [c]). Qed.

Lemma ends_NL_strip (s : pystr) : ends_NL (strip s) = false.
Proof.
  unfold strip. destruct (rstrip_last (lstrip s)) as [->|(b & c & -> & Hc)];
    [reflexivity|].
  unfold ends_NL. rewrite rev_app_distr. simpl.
  destruct (char_eqb c NL) eqn:E; [|reflexivity].
  apply char_eqb_eq in E. subst. vm_compute in Hc. discriminate.
Qed.

Lemma rmatch_lits (p : pystr) (k : mstate -> option mstate) :
  forall pos rest groups,
    rmatch (lits p) k (MState pos rest groups)
    = if startswith rest p
      then k (MState (pos + length p) (skipn (length p) rest) groups)
      else None.
Proof.
  induction p as [|c p IH]; intros pos rest groups.
  - simpl. now rewrite Nat.add_0_r.
  - cbn [lits rmatch]. unfold step_char. cbn [m_rest startswith].
    destruct rest as [|d rest]; [reflexivity|].
    destruct (char_eqb c d); [|reflexivity]. cbn [andb].
    unfold advance. cbn [m_pos m_rest m_groups]. rewrite IH.
    cbn [length skipn]. now rewrite Nat.add_succ_r.
Qed.

Lemma rmatch_end (pos : nat) (r : pystr) (groups : list (nat * pystr)) :
  ends_NL r = false ->
  rmatch (seq [Eos]) (fun st => Some st) (MState pos r groups)
  = match r with
    | [] => Some (MState pos [] groups)
    | _ :: _ => None
    end.
Proof.
  intros H. cbn [seq rmatch m_rest].
  destruct r as [|c [|d r]]; try reflexivity.
  unfold ends_NL in H. simpl in H. now rewrite H.
Qed.

Lemma rmatch_tail_https (pos : nat) (r : pystr) (groups : list (nat * pystr)) :
  ends_NL r = false ->
  option_map m_groups
    (rmatch (seq [Opt (lits (str ".git")); Opt (Lit (ch "/")); Eos])
       (fun st => Some st) (MState pos r groups))
  = if tail_ok true r then Some groups else None.
Proof.
  intros H.
  assert (K1 : forall pos r, ends_NL r = false ->
                 option_map m_groups
                   (rmatch (seq [Opt (Lit (ch "/")); Eos])
                      (fun st => Some st) (MState pos r groups))
                 = if is_end true r then Some groups else None).
  { clear. intros pos r H.
    change (seq [Opt (Lit (ch "/")); Eos])
      with (Cat (Opt (Lit (ch "/"))) (seq [Eos])).
    cbn [rmatch]. unfold step_char, is_end. cbn [m_rest andb].
    destruct r as [|c r].
    - rewrite rmatch_end by assumption. reflexivity.
    - unfold advance. cbn [m_pos m_rest m_groups].
      rewrite (@rmatch_end pos (c :: r)) by assumption.
      destruct (char_eqb (ch "/") c) eqn:E.
      + rewrite rmatch_end by now apply ends_NL_cons in H.
        destruct r; reflexivity.
      + destruct r; reflexivity. }
  change (seq [Opt (lits (str ".git")); Opt (Lit (ch "/")); Eos])
    with (Cat (Opt (lits (str ".git"))) (seq [Opt (Lit (ch "/")); Eos])).
  cbn [rmatch]. rewrite rmatch_lits. unfold tail_ok, strip_prefix.
  destruct (startswith r (str ".git")) eqn:S.
  - pose proof (K1 (pos + length (str ".git")) (skipn (length (str ".git")) r)
                  (ends_NL_skipn _ _ H)) as E1.
    pose proof (K1 pos r H) as E2.
    destruct (rmatch (seq [Opt (Lit (ch "/")); Eos]) _
                (MState (pos + _) _ groups)) as [x|];
      cbn [or_else option_map] in E1 |- *.
    + exact E1.
    + rewrite <- E1, E2.
      apply startswith_spec in S. destruct S as [r' ->]. reflexivity.
  - apply K1. exact H.
Qed.

Lemma rmatch_tail_ssh (pos : nat) (r : pystr) (groups : list (nat * pystr)) :
  ends_NL r = false ->
  option_map m_groups
    (rmatch (seq [Opt (lits (str ".git")); Eos])
       (fun st => Some st) (MState pos r groups))
  = if tail_ok false r then Some groups else None.
Proof.
  intros H.
  assert (K1 : forall pos r, ends_NL r = false ->
                 option_map m_groups
                   (rmatch (seq [Eos]) (fun st => Some st)
                      (MState pos r groups))
                 = if is_end false r then Some groups else None).
  { clear. intros pos r H. rewrite rmatch_end by assumption.
    destruct r as [|c [|d r]]; reflexivity. }
  change (seq [Opt (lits (str ".git")); Eos])
    with (Cat (Opt (lits (str ".git"))) (seq [Eos])).
  cbn [rmatch]. rewrite rmatch_lits. unfold tail_ok, strip_prefix.
  destruct (startswith r (str ".git")) eqn:S.
  - pose proof (K1 (pos + length (str ".git")) (skipn (length (str ".git")) r)
                  (ends_NL_skipn _ _ H)) as E1.
    pose proof (K1 pos r H) as E2.
    destruct (rmatch (seq [Eos]) _ (MState (pos + _) _ groups)) as [x|];
      cbn [or_else option_map] in E1 |- *.
    + exact E1.
    + rewrite <- E1, E2.
      apply startswith_spec in S. destruct S as [r' ->]. reflexivity.
  - apply K1. exact H.
Qed.

(** The two groups, in front of a tail that holds exactly when [ok] does. *)
Section OwnerAndName.
Variable tail : regex.
Variable ok : pystr -> bool.
Hypothesis tail_spec :
  forall pos r groups,
    ends_NL r = false ->
    option_map m_groups
      (rmatch tail (fun st => Some st) (MState pos r groups))
    = if ok r then Some groups else None.

Lemma lazy_run_take (c : char) (groups : list (nat * pystr)) (r : pystr) :
  forall (p : pystr) (pos : nat),
    ends_NL r = false ->
    option_map m_groups
      (lazy_run (fun x => negb (char_eqb x (ch "/")))
         (fun st' =>
            rmatch tail (fun st => Some st)
              (MState (m_pos st') (m_rest st')
                 ((2, firstn (length (c :: p ++ r) - length (m_rest st'))
                        (c :: p ++ r)) :: m_groups st')))
         pos groups r)
    = option_map (fun x => (2, x) :: groups) (lazy_take ok (c :: p) r).
Proof.
  induction r as [|d r IH]; intros p pos Hnl.
  - cbn [lazy_run lazy_take m_pos m_rest m_groups].
    pose proof (@tail_spec pos _
                  ((2, firstn (length (c :: p ++ []) - length (@nil char))
                         (c :: p ++ [])) :: groups) Hnl) as H.
    rewrite Nat.sub_0_r, firstn_all, app_nil_r in H |- *.
    destruct (rmatch tail _ _) as [x|]; cbn [or_else option_map] in H |- *;
      rewrite H; destruct (ok []); reflexivity || discriminate.
  - cbn [lazy_run lazy_take m_pos m_rest m_groups].
    pose proof (@tail_spec pos _
                  ((2, firstn (length (c :: p ++ d :: r) - length (d :: r))
                         (c :: p ++ d :: r)) :: groups) Hnl) as H.
    assert (F : firstn (length (c :: p ++ d :: r) - length (d :: r))
                  (c :: p ++ d :: r) = c :: p).
    { change (c :: p ++ d :: r) with ((c :: p) ++ d :: r).
      apply firstn_exact. rewrite length_app. lia. }
    rewrite F in H |- *.
    destruct (rmatch tail _ _) as [x|]; cbn [or_else option_map] in H |- *.
    + rewrite H. destruct (ok (d :: r)); [reflexivity | discriminate].
    + destruct (ok (d :: r)); [discriminate|].
      destruct (negb (char_eqb d (ch "/"))); [|reflexivity].
      specialize (IH (p ++ [d]) (S pos) (ends_NL_cons _ _ Hnl)).
      rewrite <- !app_assoc in IH. exact IH.
Qed.

Lemma rmatch_name (pos : nat) (t : pystr) (groups : list (nat * pystr)) :
  ends_NL t = false ->
  option_map m_groups
    (rmatch (Cat (Group 2 (Plus false (NotOf (ch "/")))) tail)
       (fun st => Some st) (MState pos t groups))
  = option_map (fun x => (2, x) :: groups) (lazy_name ok t).
Proof.
  intros Hnl. unfold lazy_name, Plus.
  cbn [rmatch m_rest]. unfold step_char at 1. cbn [m_rest].
  destruct t as [|c t]; [reflexivity|].
  destruct (negb (char_eqb c (ch "/"))); [|reflexivity].
  unfold advance. cbn [m_rest m_pos m_groups].
  change (rmatch (NotOf (ch "/")))
    with (step_char (fun x => negb (char_eqb x (ch "/")))).
  rewrite star_loop_lazy by reflexivity.
  apply (@lazy_run_take c groups t [] (S pos) (ends_NL_cons _ _ Hnl)).
Qed.

Lemma greedy_run_owner (full : pystr) (groups : list (nat * pystr))
    (b : pystr) :
  forall (pre : pystr) (pos : nat),
    full = pre ++ b ->
    ends_NL b = false ->
    option_map m_groups
      (greedy_run (fun x => negb (char_eqb x (ch "/")))
         (fun st' =>
            rmatch
              (Cat (Lit (ch "/"))
                 (Cat (Group 2 (Plus false (NotOf (ch "/")))) tail))
              (fun st => Some st)
              (MState (m_pos st') (m_rest st')
                 ((1, firstn (length full - length (m_rest st')) full)
                  :: m_groups st')))
         pos groups b)
    = match before_slash b with
      | Some (o, t) =>
          option_map (fun x => (2, x) :: (1, pre ++ o) :: groups)
            (lazy_name ok t)
      | None => None
      end.
Proof.
  induction b as [|c b IH]; intros pre pos E Hnl; [reflexivity|].
  cbn [greedy_run before_slash m_pos m_rest m_groups].
  destruct (char_eqb c (ch "/")) eqn:Ec.
  - apply char_eqb_eq in Ec. subst c. cbn [negb rmatch].
    unfold step_char. cbn [m_rest]. rewrite char_eqb_refl.
    unfold advance. cbn [m_pos m_rest m_groups].
    assert (F : firstn (length full - length (ch "/" :: b)) full = pre).
    { rewrite E. apply firstn_exact. rewrite length_app. lia. }
    rewrite F, app_nil_r.
    apply (@rmatch_name (S pos) b ((1, pre) :: groups)
             (ends_NL_cons _ _ Hnl)).
  - cbn [negb].
    specialize (IH (pre ++ [c]) (S pos)).
    rewrite <- app_assoc in IH. specialize (IH E (ends_NL_cons _ _ Hnl)).
    assert (K : rmatch
                  (Cat (Lit (ch "/"))
                     (Cat (Group 2 (Plus false (NotOf (ch "/")))) tail))
                  (fun st => Some st)
                  (MState pos (c :: b)
                     ((1, firstn (length full - length (c :: b)) full)
                      :: groups)) = None).
    { cbn [rmatch]. unfold step_char. cbn [m_rest].
      unfold char_eqb in Ec |- *. rewrite N.eqb_sym, Ec. reflexivity. }
    rewrite K, or_else_None_r, IH.
    destruct (before_slash b) as [[o t]|]; [|reflexivity].
    now rewrite <- app_assoc.
Qed.

Lemma rmatch_owner_name (pos : nat) (body : pystr)
    (groups : list (nat * pystr)) :
  ends_NL body = false ->
  option_map m_groups
    (rmatch
       (Cat (Group 1 (Plus true (NotOf (ch "/"))))
          (Cat (Lit (ch "/"))
             (Cat (Group 2 (Plus false (NotOf (ch "/")))) tail)))
       (fun st => Some st) (MState pos body groups))
  = match before_slash body with
    | Some (o, t) =>
        if nonempty o
        then option_map (fun x => (2, x) :: (1, o) :: groups)
               (lazy_name ok t)
        else None
    | None => None
    end.
Proof.
  intros Hnl. unfold Plus at 1.
  cbn [rmatch m_rest]. unfold step_char at 1. cbn [m_rest].
  destruct body as [|c body]; [reflexivity|].
  cbn [before_slash]. destruct (char_eqb c (ch "/")); [reflexivity|].
  cbn [negb]. unfold advance. cbn [m_rest m_pos m_groups].
  change (rmatch (NotOf (ch "/")))
    with (step_char (fun x => negb (char_eqb x (ch "/")))).
  rewrite star_loop_greedy by reflexivity.
  refine (eq_trans (@greedy_run_owner (c :: body) groups body [c] (S pos)
                      eq_refl (ends_NL_cons _ _ Hnl)) _).
  destruct (before_slash body) as [[o t]|]; reflexivity.
Qed.
End OwnerAndName.

(** ** The suffix that is taken off *)

Lemma removesuffix_cases (s p : pystr) :
  (exists x, s = x ++ p /\ removesuffix s p = x) \/
  (endswith s p = false /\ removesuffix s p = s).
Proof.
  unfold removesuffix. destruct (endswith s p) eqn:E.
  - left. apply endswith_spec in E. destruct E as [x ->]. exists x.
    split; [reflexivity|]. apply firstn_exact. rewrite length_app. lia.
  - right. split; reflexivity.
Qed.

Lemma removesuffix_inv (s p : pystr) :
  s = removesuffix s p \/ s = removesuffix s p ++ p.
Proof.
  destruct (removesuffix_cases s p) as [(x & E & ->)|[_ ->]]; auto.
Qed.

Lemma removesuffix_cons (c : char) (s p : pystr) :
  c :: s <> p -> removesuffix (c :: s) p = c :: removesuffix s p.
Proof.
  intros Hne.
  destruct (removesuffix_cases s p) as [(x & E & ->)|[E ->]].
  - subst s. unfold removesuffix.
    assert (H : endswith (c :: x ++ p) p = true)
      by (apply endswith_spec; exists (c :: x); reflexivity).
    rewrite H. change (c :: x ++ p) with ((c :: x) ++ p).
    apply firstn_exact. rewrite length_app. lia.
  - unfold removesuffix. destruct (endswith (c :: s) p) eqn:E'; [|reflexivity].
    apply endswith_spec in E'. destruct E' as [[|d x] Hx].
    + now elim Hne.
    + injection Hx as -> ->.
      assert (H : endswith (x ++ p) p = true)
        by (apply endswith_spec; exists x; reflexivity).
      congruence.
Qed.

Lemma removesuffix_prefix (s p : pystr) :
  exists n, removesuffix s p = firstn n s.
Proof.
  unfold removesuffix. destruct (endswith s p).
  - eauto.
  - exists (length s). symmetry. apply firstn_all.
Qed.

(** ** The lazy name in closed form *)

Lemma tail_ok_inv (b : bool) (r : pystr) :
  tail_ok b r = true ->
  r = [] \/ r = str ".git" \/
  (b = true /\ (r = str "/" \/ r = str ".git/")).
Proof.
  assert (K : forall r, is_end b r = true ->
                r = [] \/ (b = true /\ r = str "/")).
  { clear. intros [|c [|d r]]; cbn [is_end]; intros H.
    - now left.
    - right. apply andb_true_iff in H. destruct H as [-> H].
      apply char_eqb_eq in H. subst c. split; reflexivity.
    - discriminate. }
  unfold tail_ok, strip_prefix. destruct (startswith r (str ".git")) eqn:S.
  - apply startswith_spec in S. destruct S as [r' ->].
    rewrite skipn_exact by reflexivity. intros H. apply K in H.
    destruct H as [->|[-> ->]].
    + right. left. reflexivity.
    + right. right. split; [reflexivity|]. right. reflexivity.
  - intros H. apply K in H. destruct H as [->|[-> ->]].
    + now left.
    + right. right. split; [reflexivity|]. left. reflexivity.
Qed.

Lemma name_rest_tail (b : bool) (r : pystr) :
  tail_ok b r = true -> name_rest b r = Some [].
Proof.
  intros H. apply tail_ok_inv in H.
  destruct H as [->|[->|[-> [->| ->]]]]; try (destruct b); reflexivity.
Qed.

Lemma name_rest_cons (b : bool) (c : char) (r : pystr) :
  tail_ok b (c :: r) = false ->
  name_rest b (c :: r)
  = if negb (char_eqb c (ch "/"))
    then option_map (cons c) (name_rest b r) else None.
Proof.
  intros H. unfold name_rest.
  set (t1 := if b then removesuffix r (str "/") else r).
  assert (E1 : (if b then removesuffix (c :: r) (str "/") else c :: r)
               = c :: t1).
  { unfold t1. destruct b; [|reflexivity].
    apply removesuffix_cons. intros E. rewrite E in H. discriminate. }
  rewrite E1.
  assert (E2 : removesuffix (c :: t1) (str ".git")
               = c :: removesuffix t1 (str ".git")).
  { apply removesuffix_cons. intros E.
    assert (R : c :: r = str ".git" \/ (b = true /\ c :: r = str ".git/")).
    { unfold t1 in E. destruct b.
      - destruct (removesuffix_inv r (str "/")) as [Hr|Hr].
        + left. rewrite Hr. exact E.
        + right. split; [reflexivity|]. rewrite Hr.
          injection E as -> ->. reflexivity.
      - left. exact E. }
    destruct R as [R|[-> R]]; rewrite R in H; discriminate. }
  rewrite E2. unfold no_slash. cbn [forallb].
  destruct (negb (char_eqb c (ch "/"))); cbn [andb]; [|reflexivity].
  destruct (forallb _ (removesuffix t1 (str ".git"))); reflexivity.
Qed.

Lemma lazy_take_acc (ok : pystr -> bool) (r : pystr) :
  forall acc, lazy_take ok acc r = option_map (app acc) (lazy_take ok [] r).
Proof.
  induction r as [|c r IH]; intros acc; cbn [lazy_take].
  - destruct (ok []); cbn [option_map]; [now rewrite app_nil_r|reflexivity].
  - destruct (ok (c :: r)); cbn [option_map]; [now rewrite app_nil_r|].
    destruct (negb (char_eqb c (ch "/"))); [|reflexivity].
    rewrite (IH (acc ++ [c])), (IH ([] ++ [c])).
    destruct (lazy_take ok [] r); cbn [option_map app]; [|reflexivity].
    now rewrite <- app_assoc.
Qed.

Lemma lazy_take_name_rest (b : bool) (r : pystr) :
  lazy_take (tail_ok b) [] r = name_rest b r.
Proof.
  induction r as [|c r IH].
  - destruct b; reflexivity.
  - cbn [lazy_take]. destruct (tail_ok b (c :: r)) eqn:T.
    + symmetry. apply name_rest_tail. exact T.
    + rewrite (name_rest_cons _ _ _ T).
      destruct (negb (char_eqb c (ch "/"))); [|reflexivity].
      rewrite lazy_take_acc, IH. reflexivity.
Qed.

Lemma lazy_name_repo_name (b : bool) (t : pystr) :
  lazy_name (tail_ok b) t = repo_name b t.
Proof.
  destruct t as [|c t]; [destruct b; reflexivity|].
  cbn [lazy_name]. destruct (char_eqb c (ch "/")) eqn:Ec; cbn [negb].
  - apply char_eqb_eq in Ec. subst c. unfold repo_name.
    set (t1 := if b then removesuffix (ch "/" :: t) (str "/")
               else ch "/" :: t).
    set (t2 := if str_eqb t1 (str ".git") then t1
               else removesuffix t1 (str ".git")).
    assert (P1 : exists n, t1 = firstn n (ch "/" :: t)).
    { unfold t1. destruct b; [apply removesuffix_prefix|].
      exists (length (ch "/" :: t)). symmetry. apply firstn_all. }
    assert (P2 : exists n, t2 = firstn n (ch "/" :: t)).
    { destruct P1 as [n P1]. unfold t2.
      destruct (str_eqb t1 (str ".git")); [eauto|].
      destruct (removesuffix_prefix t1 (str ".git")) as [m ->].
      rewrite P1, firstn_firstn. eauto. }
    destruct P2 as [[|n] ->]; reflexivity.
  - rewrite lazy_take_acc, lazy_take_name_rest.
    unfold repo_name, name_rest. cbv zeta.
    set (t1 := if b then removesuffix t (str "/") else t).
    assert (E1 : (if b then removesuffix (c :: t) (str "/") else c :: t)
                 = c :: t1).
    { unfold t1. destruct b; [|reflexivity].
      apply removesuffix_cons. intros E. injection E as -> _.
      rewrite char_eqb_refl in Ec. discriminate. }
    rewrite E1.
    set (t2 := if str_eqb (c :: t1) (str ".git") then _ else _).
    assert (E2 : t2 = c :: removesuffix t1 (str ".git")).
    { unfold t2. destruct (str_eqb (c :: t1) (str ".git")) eqn:E.
      - apply str_eqb_eq in E. injection E as -> ->. reflexivity.
      - apply removesuffix_cons. intros E'. rewrite E' in E. discriminate. }
    clearbody t2. subst t2. unfold no_slash. cbn [nonempty forallb andb].
    rewrite Ec. cbn [negb andb].
    destruct (forallb _ (removesuffix t1 (str ".git"))); reflexivity.
Qed.

(** ** The whole patterns *)

Lemma startswith_cat (p q : pystr) :
  forall s, startswith s (p ++ q)
            = startswith s p && startswith (skipn (length p) s) q.
Proof.
  induction p as [|x p IH]; intros s; [reflexivity|].
  destruct s as [|y s]; [reflexivity|].
  cbn [app startswith length skipn]. rewrite IH. apply andb_assoc.
Qed.

Lemma owner_name_groups (tail : regex) (b : bool) (pos : nat)
    (body : pystr) :
  (forall pos r groups,
     ends_NL r = false ->
     option_map m_groups
       (rmatch tail (fun st => Some st) (MState pos r groups))
     = if tail_ok b r then Some groups else None) ->
  ends_NL body = false ->
  option_map (fun m => group m 1 ++ str "/" ++ group m 2)
    (option_map m_groups
       (rmatch
          (Cat (Group 1 (Plus true (NotOf (ch "/"))))
             (Cat (Lit (ch "/"))
                (Cat (Group 2 (Plus false (NotOf (ch "/")))) tail)))
          (fun st => Some st) (MState pos body [])))
  = owner_repo b body.
Proof.
  intros Ht Hnl.
  rewrite (@rmatch_owner_name tail (tail_ok b) Ht pos body [] Hnl).
  unfold owner_repo. destruct (before_slash body) as [[o t]|]; [|reflexivity].
  destruct (nonempty o); [|reflexivity].
  rewrite lazy_name_repo_name.
  destruct (repo_name b t); reflexivity.
Qed.

Lemma skipn_app_add {A : Type} (a v : list A) (n : nat) :
  skipn (length a + n) (a ++ v) = skipn n v.
Proof. induction a as [|x a IH]; [reflexivity | exact IH]. Qed.

Lemma re_match_HTTPS (u : pystr) :
  ends_NL u = false ->
  option_map (fun m => group m 1 ++ str "/" ++ group m 2)
    (re_match HTTPS_RE u)
  = match strip_prefix (str "https://github.com/") u with
    | Some body => owner_repo true body
    | None =>
        match strip_prefix (str "http://github.com/") u with
        | Some body => owner_repo true body
        | None => None
        end
    end.
Proof.
  intros Hnl. unfold re_match, HTTPS_RE, strip_prefix.
  set (rest := seq [Group 1 (Plus true (NotOf (ch "/"))); Lit (ch "/");
                    Group 2 (Plus false (NotOf (ch "/")));
                    Opt (lits (str ".git")); Opt (Lit (ch "/")); Eos]).
  change (seq [Bos; lits (str "http"); Opt (Lit (ch "s"));
               lits (str "://github.com/");
               Group 1 (Plus true (NotOf (ch "/"))); Lit (ch "/");
               Group 2 (Plus false (NotOf (ch "/")));
               Opt (lits (str ".git")); Opt (Lit (ch "/")); Eos])
    with (Cat Bos (Cat (lits (str "http"))
            (Cat (Opt (Lit (ch "s")))
               (Cat (lits (str "://github.com/")) rest)))).
  assert (R : forall pos body,
            ends_NL body = false ->
            option_map (fun m => group m 1 ++ str "/" ++ group m 2)
              (option_map m_groups
                 (rmatch rest (fun st => Some st) (MState pos body [])))
            = owner_repo true body).
  { intros pos body Hb.
    apply (@owner_name_groups
             (seq [Opt (lits (str ".git")); Opt (Lit (ch "/")); Eos])
             true pos body rmatch_tail_https Hb). }
  clearbody rest.
  cbn [rmatch m_pos]. rewrite rmatch_lits.
  change (str "https://github.com/")
    with (str "http" ++ str "s://github.com/").
  change (str "http://github.com/")
    with (str "http" ++ str "://github.com/").
  rewrite !startswith_cat, !length_app.
  destruct (startswith u (str "http")) eqn:S; [|reflexivity].
  apply startswith_spec in S. destruct S as [v ->].
  apply ends_NL_app in Hnl.
  rewrite !skipn_exact by reflexivity.
  rewrite !skipn_app_add.
  cbn [andb].
  destruct v as [|c v]; [reflexivity|].
  unfold step_char at 1. cbn [m_rest]. unfold advance. cbn [m_pos m_groups].
  rewrite !rmatch_lits.
  change (str "s://github.com/") with ([ch "s"] ++ str "://github.com/").
  rewrite startswith_cat, length_app.
  change (length [ch "s"]) with 1. cbn [startswith Nat.add skipn].
  rewrite andb_true_r.
  destruct (char_eqb (ch "s") c) eqn:Ec; cbn [andb or_else].
  - apply char_eqb_eq in Ec. subst c.
    change (startswith (ch "s" :: v) (str "://github.com/")) with false.
    cbv iota. rewrite or_else_None_r.
    destruct (startswith v (str "://github.com/")) eqn:S; [|reflexivity].
    apply R. apply startswith_spec in S. destruct S as [w ->].
    rewrite skipn_exact by reflexivity.
    exact (ends_NL_app _ _ (ends_NL_cons _ _ Hnl)).
  - destruct (startswith (c :: v) (str "://github.com/")) eqn:S;
      [|reflexivity].
    apply R. apply startswith_spec in S. destruct S as [w E].
    rewrite E. rewrite skipn_exact by reflexivity.
    rewrite E in Hnl. exact (ends_NL_app _ _ Hnl).
Qed.

Lemma re_match_SSH (u : pystr) :
  ends_NL u = false ->
  option_map (fun m => group m 1 ++ str "/" ++ group m 2)
    (re_match SSH_RE u)
  = match strip_prefix (str "git@github.com:") u with
    | Some body => owner_repo false body
    | None => None
    end.
Proof.
  intros Hnl. unfold re_match, SSH_RE, strip_prefix.
  set (rest := seq [Group 1 (Plus true (NotOf (ch "/"))); Lit (ch "/");
                    Group 2 (Plus false (NotOf (ch "/")));
                    Opt (lits (str ".git")); Eos]).
  change (seq [Bos; lits (str "git@github.com:");
               Group 1 (Plus true (NotOf (ch "/"))); Lit (ch "/");
               Group 2 (Plus false (NotOf (ch "/")));
               Opt (lits (str ".git")); Eos])
    with (Cat Bos (Cat (lits (str "git@github.com:")) rest)).
  assert (R : forall pos body,
            ends_NL body = false ->
            option_map (fun m => group m 1 ++ str "/" ++ group m 2)
              (option_map m_groups
                 (rmatch rest (fun st => Some st) (MState pos body [])))
            = owner_repo false body).
  { intros pos body Hb.
    apply (@owner_name_groups (seq [Opt (lits (str ".git")); Eos])
             false pos body rmatch_tail_ssh Hb). }
  clearbody rest.
  cbn [rmatch m_pos]. rewrite rmatch_lits.
  destruct (startswith u (str "git@github.com:")) eqn:S; [|reflexivity].
  apply R. now apply ends_NL_skipn.
Qed.

Lemma parse_github_repo_unfold (remote_url : pystr) :
  _parse_github_repo_from_remote remote_url = parse_spec remote_url.
Proof.
  unfold _parse_github_repo_from_remote, parse_spec.
  pose proof (@re_match_HTTPS _ (ends_NL_strip remote_url)) as H1.
  pose proof (@re_match_SSH _ (ends_NL_strip remote_url)) as H2.
  set (u := strip remote_url) in *. clearbody u.
  destruct (re_match HTTPS_RE u) as [m|]; cbn [option_map] in H1.
  - rewrite H1.
    destruct (strip_prefix (str "https://github.com/") u); [reflexivity|].
    destruct (strip_prefix (str "http://github.com/") u);
      [reflexivity|discriminate].
  - assert (E : match re_match SSH_RE u with
                | Some m => Some (group m 1 ++ str "/" ++ group m 2)
                | None => None
                end
                = match strip_prefix (str "git@github.com:") u with
                  | Some body => owner_repo false body
                  | None => None
                  end).
    { rewrite <- H2. destruct (re_match SSH_RE u); reflexivity. }
    refine (eq_trans E _). clear E H2.
    assert (X : forall p body,
              strip_prefix (str "http" ++ p) u = Some body ->
              strip_prefix (str "git@github.com:") u = None).
    { intros p body. unfold strip_prefix. rewrite startswith_cat.
      destruct (startswith u (str "http")) eqn:S; [|discriminate].
      apply startswith_spec in S. destruct S as [v ->]. reflexivity. }
    destruct (strip_prefix (str "https://github.com/") u) as [body|] eqn:P1.
    + rewrite (X (str "s://github.com/") body P1). exact H1.
    + destruct (strip_prefix (str "http://github.com/") u) as [body|] eqn:P2.
      * rewrite (X (str "://github.com/") body P2). exact H1.
      * reflexivity.
Qed.

(** ** Owner and name *)

Lemma before_slash_spec (s a b : pystr) :
  before_slash s = Some (a, b) ->
  s = a ++ str "/" ++ b /\ no_slash a = true.
Proof.
  revert a; induction s as [|c s IH]; intros a; cbn [before_slash];
    [discriminate|].
  destruct (char_eqb c (ch "/")) eqn:Ec.
  - intros [= <- <-]. apply char_eqb_eq in Ec. subst c. split; reflexivity.
  - destruct (before_slash s) as [[a' b']|]; [|discriminate].
    intros [= <- <-]. destruct (IH a' eq_refl) as [-> Ha]. split.
    + reflexivity.
    + unfold no_slash in *. cbn [forallb]. now rewrite Ec, Ha.
Qed.

Lemma before_slash_app (a b : pystr) :
  no_slash a = true -> before_slash (a ++ str "/" ++ b) = Some (a, b).
Proof.
  unfold no_slash. induction a as [|c a IH]; cbn [forallb app before_slash].
  - reflexivity.
  - intros H. apply andb_true_iff in H. destruct H as [Hc Ha].
    apply negb_true_iff in Hc. rewrite Hc, (IH Ha). reflexivity.
Qed.

Lemma no_slash_endswith (s : pystr) :
  no_slash s = true -> endswith s (str "/") = false.
Proof.
  intros H. destruct (endswith s (str "/")) eqn:E; [|reflexivity].
  apply endswith_spec in E. destruct E as [x ->].
  unfold no_slash in H. rewrite forallb_app in H.
  apply andb_true_iff in H. destruct H as [_ H]. discriminate.
Qed.

Lemma removesuffix_app (x p : pystr) : removesuffix (x ++ p) p = x.
Proof.
  unfold removesuffix.
  assert (H : endswith (x ++ p) p = true)
    by (apply endswith_spec; exists x; reflexivity).
  rewrite H. apply firstn_exact. rewrite length_app. lia.
Qed.

Lemma repo_name_plain (b : bool) (repo : pystr) :
  nonempty repo = true -> no_slash repo = true ->
  endswith repo (str ".git") = false ->
  repo_name b repo = Some repo.
Proof.
  intros Hne Hns Hg. unfold repo_name.
  assert (E1 : (if b then removesuffix repo (str "/") else repo) = repo).
  { destruct b; [|reflexivity]. unfold removesuffix.
    now rewrite no_slash_endswith. }
  rewrite E1. cbv zeta.
  assert (E2 : (if str_eqb repo (str ".git") then repo
                else removesuffix repo (str ".git")) = repo).
  { destruct (str_eqb repo (str ".git")); [reflexivity|].
    unfold removesuffix. now rewrite Hg. }
  set (t2 := if str_eqb repo (str ".git") then _ else _) in *.
  clearbody t2. subst t2. now rewrite Hne, Hns.
Qed.

Lemma repo_name_git (b : bool) (repo : pystr) :
  nonempty repo = true -> no_slash repo = true ->
  repo_name b (repo ++ str ".git") = Some repo.
Proof.
  intros Hne Hns. unfold repo_name.
  assert (E1 : (if b then removesuffix (repo ++ str ".git") (str "/")
                else repo ++ str ".git") = repo ++ str ".git").
  { destruct b; [|reflexivity]. unfold removesuffix, endswith.
    rewrite rev_app_distr. reflexivity. }
  set (t1 := if b then _ else _) in *. clearbody t1. subst t1. cbv zeta.
  assert (E2 : str_eqb (repo ++ str ".git") (str ".git") = false).
  { destruct (str_eqb (repo ++ str ".git") (str ".git")) eqn:E;
      [|reflexivity].
    apply str_eqb_eq in E. apply (app_inv_tail (str ".git") repo []) in E.
    subst repo. discriminate. }
  rewrite E2, removesuffix_app, Hne, Hns. reflexivity.
Qed.

Lemma repo_name_inv (b : bool) (t repo : pystr) :
  repo_name b t = Some repo ->
  nonempty repo = true /\ no_slash repo = true /\
  (t = repo \/ t = repo ++ str ".git" \/
   (b = true /\ (t = repo ++ str "/" \/ t = repo ++ str ".git/"))).
Proof.
  unfold repo_name.
  set (t1 := if b then removesuffix t (str "/") else t).
  set (t2 := if str_eqb t1 (str ".git") then t1
             else removesuffix t1 (str ".git")).
  assert (H1 : t = t1 \/ (b = true /\ t = t1 ++ str "/")).
  { unfold t1. destruct b; [|now left].
    destruct (removesuffix_inv t (str "/")) as [H|H]; [left|right]; auto. }
  assert (H2 : t1 = t2 \/ t1 = t2 ++ str ".git").
  { unfold t2. destruct (str_eqb t1 (str ".git")); [now left|].
    apply removesuffix_inv. }
  clearbody t2 t1.
  destruct (nonempty t2) eqn:Hne; [|discriminate].
  destruct (no_slash t2) eqn:Hns; [|discriminate].
  intros [= <-]. split; [assumption|]. split; [assumption|].
  destruct H1 as [->|[-> ->]], H2 as [->| ->].
  - now left.
  - right. now left.
  - right. right. split; [reflexivity|]. now left.
  - right. right. split; [reflexivity|]. right.
    now rewrite <- app_assoc.
Qed.

(** ** Repository names inside a frame *)

Lemma repo_name_slash (x : pystr) :
  repo_name true (x ++ str "/") = repo_name false x.
Proof. unfold repo_name. now rewrite removesuffix_app. Qed.

Lemma repo_name_no_slash (b : bool) (x : pystr) :
  no_slash x = true -> repo_name b x = repo_name false x.
Proof.
  intros H. destruct b; [|reflexivity]. unfold repo_name, removesuffix.
  now rewrite no_slash_endswith.
Qed.

Lemma repo_name_some (repo : pystr) :
  nonempty repo = true -> no_slash repo = true ->
  exists x, repo_name false repo = Some x.
Proof.
  intros Hne Hns. destruct (endswith repo (str ".git")) eqn:E.
  - apply endswith_spec in E. destruct E as [x ->].
    destruct x as [|c x]; [eexists; reflexivity|].
    exists (c :: x). apply repo_name_git; [reflexivity|].
    unfold no_slash in *. rewrite forallb_app in Hns.
    now apply andb_true_iff in Hns.
  - exists repo. now apply repo_name_plain.
Qed.

Lemma no_slash_git (repo : pystr) :
  no_slash repo = true -> no_slash (repo ++ str ".git") = true.
Proof.
  unfold no_slash. intros H. rewrite forallb_app, H. reflexivity.
Qed.

Lemma repo_name_frame (b : bool) (repo suffix : pystr) :
  nonempty repo = true -> no_slash repo = true ->
  suffix = [] \/ suffix = str ".git" \/
  (b = true /\ (suffix = str "/" \/ suffix = str ".git/")) ->
  (exists x, repo_name b (repo ++ suffix) = Some x) /\
  ((suffix = [] \/ suffix = str "/" -> endswith repo (str ".git") = false) ->
   repo_name b (repo ++ suffix) = Some repo).
Proof.
  intros Hne Hns [->|[->|[-> [->| ->]]]].
  - rewrite app_nil_r, (repo_name_no_slash b repo Hns). split.
    + now apply repo_name_some.
    + intros H. apply repo_name_plain; auto.
  - rewrite (repo_name_no_slash b _ (no_slash_git repo Hns)).
    rewrite (repo_name_git false repo Hne Hns). split; eauto.
  - rewrite repo_name_slash. split.
    + now apply repo_name_some.
    + intros H. apply repo_name_plain; auto.
  - change (str ".git/") with (str ".git" ++ str "/").
    rewrite app_assoc, repo_name_slash.
    rewrite (repo_name_git false repo Hne Hns). split; eauto.
Qed.

Lemma url_frames_inv (host suffix : pystr) :
  In (host, suffix) url_frames ->
  exists b,
    (forall body,
       match strip_prefix HTTPS_HOST (host ++ body) with
       | Some body' => owner_repo true body'
       | None =>
           match strip_prefix HTTP_HOST (host ++ body) with
           | Some body' => owner_repo true body'
           | None =>
               match strip_prefix SSH_HOST (host ++ body) with
               | Some body' => owner_repo false body'
               | None => None
               end
           end
       end = owner_repo b body) /\
    (suffix = [] \/ suffix = str ".git" \/
     (b = true /\ (suffix = str "/" \/ suffix = str ".git/"))).
Proof.
  intros H. unfold url_frames in H. cbn [In] in H.
  repeat (destruct H as [H|H]; [injection H as <- <-|]); try contradiction;
    [exists true | exists true | exists true | exists true
    | exists true | exists true | exists true | exists true
    | exists false | exists false ];
    (split; [intros body; reflexivity|]); tauto.
Qed.

(** ** The URL parser *)

(** X14. [_parse_github_repo_from_remote] without its regular expressions:
    the URL is stripped of surrounding white space; it has to start with
    [https://github.com/], [http://github.com/] or [git@github.com:]; what
    follows is cut at its first slash into a non-empty owner and a rest;
    the rest loses one trailing [/] (HTTP forms only), then one trailing
    [.git] unless it is [.git] itself, and has to be a non-empty name
    without slash.  The result is [owner/name], and [None] in every other
    case. *)
Theorem parse_github_repo_closed_form (remote_url : pystr) :
  _parse_github_repo_from_remote remote_url = parse_spec remote_url.
Proof. exact (parse_github_repo_unfold remote_url). Qed.

(** X15. Whatever [_parse_github_repo_from_remote] returns is cut out of
    the URL: the stripped URL is one of the three prefixes, then the
    result [owner/repo], then one of the allowed endings; owner and
    repository name are non-empty and free of slashes, so the result has
    exactly one slash. *)
Theorem parse_github_repo_sound (remote_url p : pystr) :
  _parse_github_repo_from_remote remote_url = Some p ->
  exists host owner repo suffix,
    In (host, suffix) url_frames /\
    strip remote_url = host ++ owner ++ str "/" ++ repo ++ suffix /\
    p = owner ++ str "/" ++ repo /\
    nonempty owner = true /\ no_slash owner = true /\
    nonempty repo = true /\ no_slash repo = true.
Proof.
  rewrite parse_github_repo_unfold. unfold parse_spec.
  set (u := strip remote_url). clearbody u.
  assert (K : forall b host body,
            u = host ++ body -> owner_repo b body = Some p ->
            (forall suffix,
               suffix = [] \/ suffix = str ".git" \/
               (b = true /\ (suffix = str "/" \/ suffix = str ".git/")) ->
               In (host, suffix) url_frames) ->
            exists host owner repo suffix,
              In (host, suffix) url_frames /\
              u = host ++ owner ++ str "/" ++ repo ++ suffix /\
              p = owner ++ str "/" ++ repo /\
              nonempty owner = true /\ no_slash owner = true /\
              nonempty repo = true /\ no_slash repo = true).
  { intros b host body -> H Hf. unfold owner_repo in H.
    destruct (before_slash body) as [[owner t]|] eqn:B; [|discriminate].
    apply before_slash_spec in B. destruct B as [-> Hns].
    destruct (nonempty owner) eqn:Hne; [|discriminate].
    destruct (repo_name b t) as [repo|] eqn:R; [|discriminate].
    injection H as <-.
    apply repo_name_inv in R. destruct R as (Hne' & Hns' & R).
    assert (E : exists suffix,
              t = repo ++ suffix /\
              (suffix = [] \/ suffix = str ".git" \/
               (b = true /\ (suffix = str "/" \/ suffix = str ".git/")))).
    { destruct R as [->|[->|[-> [->| ->]]]].
      - exists []. rewrite app_nil_r. split; [reflexivity|]. now left.
      - exists (str ".git"). split; [reflexivity|]. right. now left.
      - exists (str "/"). split; [reflexivity|]. right. right.
        split; [reflexivity|]. now left.
      - exists (str ".git/"). split; [reflexivity|]. right. right.
        split; [reflexivity|]. now right. }
    destruct E as (suffix & -> & Hs).
    exists host, owner, repo, suffix. auto 10. }
  unfold strip_prefix.
  destruct (startswith u (str "https://github.com/")) eqn:S1.
  { apply startswith_spec in S1. destruct S1 as [body E].
    rewrite E at 1. rewrite skipn_exact by reflexivity. intros H.
    apply (K true _ _ E H).
    intros suffix [->|[->|[_ [->| ->]]]]; unfold url_frames; cbn [In]; tauto. }
  destruct (startswith u (str "http://github.com/")) eqn:S2.
  { apply startswith_spec in S2. destruct S2 as [body E].
    rewrite E at 1. rewrite skipn_exact by reflexivity. intros H.
    apply (K true _ _ E H).
    intros suffix [->|[->|[_ [->| ->]]]]; unfold url_frames; cbn [In]; tauto. }
  destruct (startswith u (str "git@github.com:")) eqn:S3; [|discriminate].
  apply startswith_spec in S3. destruct S3 as [body E].
  rewrite E at 1. rewrite skipn_exact by reflexivity. intros H.
  apply (K false _ _ E H).
  intros suffix [->|[->|[[=] _]]]; unfold url_frames; cbn [In]; tauto.
Qed.

Lemma parse_github_repo_sound_witness :
  exists host owner repo suffix,
    In (host, suffix) url_frames /\
    strip (str " git@github.com:ZIKUU-SPACE/zikuu-notebooks.git ")
    = host ++ owner ++ str "/" ++ repo ++ suffix /\
    str "ZIKUU-SPACE/zikuu-notebooks" = owner ++ str "/" ++ repo /\
    nonempty owner = true /\ no_slash owner = true /\
    nonempty repo = true /\ no_slash repo = true.
Proof.
  apply (@parse_github_repo_sound
           (str " git@github.com:ZIKUU-SPACE/zikuu-notebooks.git ")).
  vm_compute. reflexivity.
Defined.

(** X16. Every URL of the shape that the two patterns describe is
    accepted: a stripped URL made of one of the three prefixes, a non-empty
    owner and a non-empty repository name without slash, and one of the
    allowed endings yields a result; the result is that very [owner/repo]
    unless the URL has no [.git] ending and the name itself ends in
    [.git]. *)
Theorem parse_github_repo_complete (remote_url host owner repo suffix : pystr) :
  In (host, suffix) url_frames ->
  nonempty owner = true -> no_slash owner = true ->
  nonempty repo = true -> no_slash repo = true ->
  strip remote_url = host ++ owner ++ str "/" ++ repo ++ suffix ->
  (exists p, _parse_github_repo_from_remote remote_url = Some p) /\
  ((suffix = [] \/ suffix = str "/" -> endswith repo (str ".git") = false) ->
   _parse_github_repo_from_remote remote_url
   = Some (owner ++ str "/" ++ repo)).
Proof.
  intros Hf Hno Hso Hnr Hsr Hu.
  rewrite parse_github_repo_unfold. unfold parse_spec. rewrite Hu.
  destruct (@url_frames_inv host suffix Hf) as (b & Hb & Hs).
  fold HTTPS_HOST HTTP_HOST SSH_HOST. rewrite Hb.
  unfold owner_repo. rewrite (@before_slash_app owner (repo ++ suffix) Hso), Hno.
  destruct (@repo_name_frame b repo suffix Hnr Hsr Hs) as [[x Hx] Hv]. split.
  - rewrite Hx. eexists. reflexivity.
  - intros H. rewrite (Hv H). reflexivity.
Qed.

Lemma parse_github_repo_complete_witness :
  (exists p,
     _parse_github_repo_from_remote
       (str "https://github.com/ZIKUU-SPACE/zikuu-notebooks.git/")
     = Some p) /\
  ((str ".git/" = [] \/ str ".git/" = str "/" ->
    endswith (str "zikuu-notebooks") (str ".git") = false) ->
   _parse_github_repo_from_remote
     (str "https://github.com/ZIKUU-SPACE/zikuu-notebooks.git/")
   = Some (str "ZIKUU-SPACE" ++ str "/" ++ str "zikuu-notebooks")).
Proof.
  apply (@parse_github_repo_complete
           (str "https://github.com/ZIKUU-SPACE/zikuu-notebooks.git/")
           HTTPS_HOST (str "ZIKUU-SPACE") (str "zikuu-notebooks")
           (str ".git/")).
  - unfold url_frames. cbn [In]. tauto.
  - reflexivity.
  - reflexivity.
  - reflexivity.
  - reflexivity.
  - vm_compute. reflexivity.
Defined.

(** ** What a run prints *)



(** ** When the listing fails *)

Lemma list_modules_loop_raises (ps : listing) :
  forall acc,
    (exists name entries e,
       In (name, Dir entries) ps /\
       retained name (Dir entries) = true /\
       _first_h1_from_readme (lookup README_md entries) = Raise e) ->
    exists e, list_modules_loop ps acc = Raise e.
Proof.
  induction ps as [|[name p] ps IH]; intros acc (n & es & e & Hin & Hr & Hl);
    [destruct Hin|].
  destruct (retained name p) eqn:R.
  - destruct p as [c|entries]; [discriminate|].
    rewrite list_modules_loop_keep by assumption.
    destruct (_first_h1_from_readme (lookup README_md entries))
      as [h1|e1] eqn:L; cbn [bind_result].
    + destruct Hin as [Hin|Hin]; [injection Hin; intros; subst; congruence|].
      apply IH. exists n, es, e. auto.
    + now exists e1.
  - rewrite list_modules_loop_skip by assumption.
    destruct Hin as [Hin|Hin]; [injection Hin; intros; subst; congruence|].
    apply IH. exists n, es, e. auto.
Qed.

(** X18. [_list_modules] returns exactly when the [README.md] of every
    kept module directory can be read: it is missing, or it is a file
    that is UTF-8.  One kept directory whose [README.md] is itself a
    directory or a file that is not UTF-8, wherever it stands in the root,
    makes the whole listing fail, and nothing else does. *)
Theorem list_modules_returns_iff (root : listing) :
  (exists items, _list_modules root = Ok items) <->
  forall name entries,
    In (name, Dir entries) root ->
    retained name (Dir entries) = true ->
    match lookup README_md entries with
    | None => True
    | Some (File c) => is_utf8 c = true
    | Some (Dir _) => False
    end.
Proof.
  unfold _list_modules. split.
  - intros [items H] n es Hin Hr.
    destruct (_first_h1_from_readme (lookup README_md es)) as [h1|e] eqn:Hl.
    + destruct (lookup README_md es) as [[c|d]|]; [|discriminate|exact I].
      rewrite first_h1_from_readme_file in Hl.
      destruct (is_utf8 c); [reflexivity | discriminate].
    + destruct (@list_modules_loop_raises (sorted fst root) []) as [e' He'].
      * exists n, es, e. split; [|now split].
        now apply (@sorted_In _ fst (n, Dir es) root).
      * congruence.
  - intros H.
    destruct (list_modules_loop (sorted fst root) []) as [items|e] eqn:E;
      [now exists items|].
    apply list_modules_loop_raise in E.
    destruct E as (n & es & Hin & Hr & Hl).
    apply (@sorted_In _ fst (n, Dir es) root) in Hin.
    specialize (H n es Hin Hr).
    apply first_h1_from_readme_raise in Hl.
    destruct Hl as [(_ & d & Hd)|(_ & c & Hc & U)]; rewrite ?Hd, ?Hc in H.
    + destruct H.
    + congruence.
Qed.

(** The Latin-1 README of the module [a] stops the listing. *)
Example list_modules_latin1 :
  _list_modules latin1_root = Raise UnicodeDecodeError.
Proof. vm_compute. reflexivity. Qed.
